(** * Element references and DOM snapshots of the browser tools demo

    A shallow embedding of the three page scripts of
    [browser_tools_api_demo/browser_tool_utils]:

    - the accessibility-tree script (the snapshot engine together with the
      page-wide reference registry [window.__claudeElementMap] and the counter
      [window.__claudeRefCounter]),
    - [browser_element_script.js] (the element locator),
    - [browser_form_input_script.js] (the value setter).

    The DOM is owned by the browser.  An element is a record of what the DOM
    reports about it when a script reads it, the document is a tree of such
    records, and the calls a script makes on the DOM for their effect
    (scrolling, focusing, dispatching events) are recorded in a trace.

    The text extraction script, which reads the same document, is embedded
    in [TextExtractor]. *)

From Stdlib Require Import String Ascii List ZArith QArith Bool Arith Lia.
From Stdlib Require Import DecimalString DecimalNat.
Import ListNotations.
Local Open Scope string_scope.
Local Open Scope nat_scope.

(** ** JavaScript strings

    Strings are modelled by [string]; the functions below are the string
    methods and the regular expressions the scripts use.  Whitespace is the
    ASCII part of the class [\s]. *)

Module Js.

Definition dquote : ascii := "034"%char.
Definition backslash : ascii := "092"%char.

(** The one-character string holding a double quote. *)
Definition dq : string := String dquote EmptyString.

(** [Boolean(s)] for a string [s]: only the empty string is falsy. *)
Definition truthy (s : string) : bool :=
  match s with
  | EmptyString => false
  | String _ _ => true
  end.

(** [Boolean(v)] for the result of [getAttribute], [null] when absent. *)
Definition truthy_opt (v : option string) : bool :=
  match v with
  | Some s => truthy s
  | None => false
  end.

(** [v || s] with [s] the empty string, for the result of [getAttribute]. *)
Definition or_empty (v : option string) : string :=
  match v with
  | Some s => s
  | None => EmptyString
  end.

Definition is_space (c : ascii) : bool :=
  let n := nat_of_ascii c in
  Nat.eqb n 32 || ((9 <=? n) && (n <=? 13)).

Definition is_digit (c : ascii) : bool :=
  let n := nat_of_ascii c in
  (48 <=? n) && (n <=? 57).

Fixpoint trimStart (s : string) : string :=
  match s with
  | String c r => if is_space c then trimStart r else s
  | EmptyString => EmptyString
  end.

Fixpoint trimEnd (s : string) : string :=
  match s with
  | String c r =>
      match trimEnd r with
      | EmptyString => if is_space c then EmptyString else String c EmptyString
      | String _ _ as r' => String c r'
      end
  | EmptyString => EmptyString
  end.

Definition trim (s : string) : string := trimEnd (trimStart s).

(** [s.replace(/\s+/g, " ")]: [in_run] tells that the previous character
    belonged to the run of whitespace being replaced. *)
Fixpoint collapse_from (in_run : bool) (s : string) : string :=
  match s with
  | String c r =>
      if is_space c
      then (if in_run then collapse_from true r
            else String " "%char (collapse_from true r))
      else String c (collapse_from false r)
  | EmptyString => EmptyString
  end.

Definition collapse_whitespace (s : string) : string := collapse_from false s.

(** [s.replace(/"/g, '\\"')]. *)
Fixpoint escape_quotes (s : string) : string :=
  match s with
  | String c r =>
      if Ascii.eqb c dquote
      then String backslash (String dquote (escape_quotes r))
      else String c (escape_quotes r)
  | EmptyString => EmptyString
  end.

(** [s.repeat(n)]. *)
Fixpoint repeat (s : string) (n : nat) : string :=
  match n with
  | 0 => EmptyString
  | S k => s ++ repeat s k
  end.

(** [s.includes(kw)]. *)
Fixpoint includes (s kw : string) : bool :=
  String.prefix kw s ||
  match s with
  | String _ r => includes r kw
  | EmptyString => false
  end.

(** [s.substring(0, n)]. *)
Definition take (n : nat) (s : string) : string := String.substring 0 n s.

(** [s.split(sep)] for a separator of one character. *)
Fixpoint split (sep : ascii) (s : string) : list string :=
  match s with
  | EmptyString => [EmptyString]
  | String c r =>
      if Ascii.eqb c sep then EmptyString :: split sep r
      else match split sep r with
           | h :: t => String c h :: t
           | [] => [String c EmptyString]
           end
  end.

Definition lower_char (c : ascii) : ascii :=
  let n := nat_of_ascii c in
  if (65 <=? n) && (n <=? 90) then ascii_of_nat (n + 32) else c.

Fixpoint toLowerCase (s : string) : string :=
  match s with
  | String c r => String (lower_char c) (toLowerCase r)
  | EmptyString => EmptyString
  end.

(** [list.includes(x)] for an array of strings. *)
Definition mem (x : string) (l : list string) : bool :=
  existsb (String.eqb x) l.

(** [/^h[1-6]$/]. *)
Definition heading_tag (tag : string) : bool :=
  match tag with
  | String "h"%char (String d EmptyString) =>
      (49 <=? nat_of_ascii d) && (nat_of_ascii d <=? 54)
  | _ => false
  end.

Fixpoint strip_prefix (p s : string) : option string :=
  match p with
  | EmptyString => Some s
  | String a p' =>
      match s with
      | String b s' => if Ascii.eqb a b then strip_prefix p' s' else None
      | EmptyString => None
      end
  end.

Fixpoint skip_digits (s : string) : string :=
  match s with
  | String c r => if is_digit c then skip_digits r else s
  | EmptyString => EmptyString
  end.

(** [/^\s*- generic \[ref=ref_\d+\]$/.test(line)]. *)
Definition bare_generic (line : string) : bool :=
  match strip_prefix "- generic [ref=ref_" (trimStart line) with
  | Some (String d rest) => is_digit d && String.eqb (skip_digits rest) "]"
  | _ => false
  end.

(** Number-to-string conversion of a non-negative integer. *)
Definition string_of_nat (n : nat) : string :=
  NilEmpty.string_of_uint (Nat.to_uint n).

End Js.

(** ** The document

    Only element and text nodes are modelled.  An [Element] holds what the
    DOM reports about one element: its identity, its content attributes, the
    computed style and layout the snapshot reads, and the state of a form
    control.  Coordinates are rationals. *)

Module Dom.

Record DOMRect := {
  left : Q;
  top : Q;
  right : Q;
  bottom : Q;
  width : Q;
  height : Q
}.

(** One entry of [select.options]. *)
Record OptionElement := {
  option_value : string;        (* option.value *)
  option_text : string;         (* option.text *)
  option_textContent : string;  (* option.textContent *)
  option_selected : bool        (* the content attribute `selected` is present *)
}.

Record Element := {
  uid : nat;                            (* object identity, what === compares *)
  tagName : string;                     (* upper case for HTML elements *)
  attributes : list (string * string);  (* read by getAttribute *)
  computedDisplay : string;             (* getComputedStyle(e).display *)
  computedVisibility : string;
  computedOpacity : string;
  offsetWidth : Z;
  offsetHeight : Z;
  boundingClientRect : DOMRect;
  styleDisplay : string;                (* e.style.display, the inline style *)
  styleVisibility : string;
  disabled : bool;
  type : string;                        (* the `type` property of an input *)
  value : string;                       (* the `value` property of an input or textarea *)
  checked : bool;
  selectedIndex : Z;                    (* -1 when no option is selected *)
  options : list OptionElement;
  name : string;
  min : string;
  max : string
}.

#[warnings="-register-all"] Inductive Node :=
| TextNode (data : string)
| ElementNode (e : Element) (childNodes : list Node).

(** The page at one instant: the attached tree, the identities of the
    objects the garbage collector has reclaimed, and the viewport. *)
Record Page := {
  documentElement : option Node;
  collected : list nat;
  innerWidth : Z;
  innerHeight : Z
}.

(** [e.getAttribute(a)], [null] being [None]. *)
Fixpoint getAttribute (attrs : list (string * string)) (a : string) : option string :=
  match attrs with
  | [] => None
  | (k, v) :: rest => if String.eqb k a then Some v else getAttribute rest a
  end.

Definition attr (e : Element) (a : string) : option string :=
  getAttribute (attributes e) a.

(** [e.id] and [e.className] reflect the content attributes. *)
Definition id (e : Element) : string := Js.or_empty (attr e "id").
Definition className (e : Element) : string := Js.or_empty (attr e "class").

(** [e.tagName.toLowerCase()]. *)
Definition tag (e : Element) : string := Js.toLowerCase (tagName e).

(** [node.textContent]. *)
Fixpoint textContent (n : Node) : string :=
  match n with
  | TextNode d => d
  | ElementNode _ kids => String.concat EmptyString (map textContent kids)
  end.

(** The concatenated data of the text nodes among [childNodes]. *)
Fixpoint directText (kids : list Node) : string :=
  match kids with
  | [] => EmptyString
  | TextNode d :: rest => d ++ directText rest
  | ElementNode _ _ :: rest => directText rest
  end.

(** The element nodes of a tree, in document order. *)
Fixpoint elements (n : Node) : list Node :=
  match n with
  | TextNode _ => []
  | ElementNode e kids => ElementNode e kids :: flat_map elements kids
  end.

Definition node_uid (n : Node) : option nat :=
  match n with
  | TextNode _ => None
  | ElementNode e _ => Some (uid e)
  end.

(** Identities of the elements of a tree, in document order. *)
Fixpoint uids (n : Node) : list nat :=
  match n with
  | TextNode _ => []
  | ElementNode e kids => uid e :: flat_map uids kids
  end.

Definition document_elements (pg : Page) : list Node :=
  match documentElement pg with
  | Some root => elements root
  | None => []
  end.

Definition has_uid (u : nat) (n : Node) : bool :=
  match n with
  | TextNode _ => false
  | ElementNode e _ => Nat.eqb (uid e) u
  end.

(** [document.contains(x)] for the element of identity [u]. *)
Definition contains (pg : Page) (u : nat) : bool :=
  existsb (has_uid u) (document_elements pg).

(** The attached element of identity [u]. *)
Definition element_by_uid (pg : Page) (u : nat) : option Node :=
  find (has_uid u) (document_elements pg).

Definition is_body (n : Node) : bool :=
  match n with
  | TextNode _ => false
  | ElementNode e _ => String.eqb (tag e) "body" || String.eqb (tag e) "frameset"
  end.

(** [document.body]: the first body (or frameset) child of the root. *)
Definition body (pg : Page) : option Node :=
  match documentElement pg with
  | Some (ElementNode _ kids) => find is_body kids
  | _ => None
  end.

Definition is_label_for (i : string) (n : Node) : bool :=
  match n with
  | TextNode _ => false
  | ElementNode e _ =>
      String.eqb (tag e) "label" &&
      match attr e "for" with
      | Some f => String.eqb f i
      | None => false
      end
  end.

(** [document.querySelector('label[for="' + i + '"]')]. *)
Definition label_for (pg : Page) (i : string) : option Node :=
  find (is_label_for i) (document_elements pg).

(** Writing one property of the element of identity [u], wherever it sits. *)
Fixpoint update (u : nat) (f : Element -> Element) (n : Node) : Node :=
  match n with
  | TextNode d => TextNode d
  | ElementNode e kids =>
      ElementNode (if Nat.eqb (uid e) u then f e else e) (map (update u f) kids)
  end.

Definition update_page (u : nat) (f : Element -> Element) (pg : Page) : Page :=
  {| documentElement := option_map (update u f) (documentElement pg);
     collected := collected pg;
     innerWidth := innerWidth pg;
     innerHeight := innerHeight pg |}.

Definition set_checked (b : bool) (e : Element) : Element :=
  {| uid := uid e; tagName := tagName e; attributes := attributes e;
     computedDisplay := computedDisplay e;
     computedVisibility := computedVisibility e;
     computedOpacity := computedOpacity e;
     offsetWidth := offsetWidth e; offsetHeight := offsetHeight e;
     boundingClientRect := boundingClientRect e;
     styleDisplay := styleDisplay e; styleVisibility := styleVisibility e;
     disabled := disabled e; type := type e; value := value e;
     checked := b;
     selectedIndex := selectedIndex e; options := options e;
     name := name e; min := min e; max := max e |}.

Definition set_value (s : string) (e : Element) : Element :=
  {| uid := uid e; tagName := tagName e; attributes := attributes e;
     computedDisplay := computedDisplay e;
     computedVisibility := computedVisibility e;
     computedOpacity := computedOpacity e;
     offsetWidth := offsetWidth e; offsetHeight := offsetHeight e;
     boundingClientRect := boundingClientRect e;
     styleDisplay := styleDisplay e; styleVisibility := styleVisibility e;
     disabled := disabled e; type := type e;
     value := s;
     checked := checked e;
     selectedIndex := selectedIndex e; options := options e;
     name := name e; min := min e; max := max e |}.

Definition set_selectedIndex (i : Z) (e : Element) : Element :=
  {| uid := uid e; tagName := tagName e; attributes := attributes e;
     computedDisplay := computedDisplay e;
     computedVisibility := computedVisibility e;
     computedOpacity := computedOpacity e;
     offsetWidth := offsetWidth e; offsetHeight := offsetHeight e;
     boundingClientRect := boundingClientRect e;
     styleDisplay := styleDisplay e; styleVisibility := styleVisibility e;
     disabled := disabled e; type := type e; value := value e;
     checked := checked e;
     selectedIndex := i;
     options := options e;
     name := name e; min := min e; max := max e |}.

(** [select.options[select.selectedIndex]]. *)
Definition selected_option (e : Element) : option OptionElement :=
  if (selectedIndex e <? 0)%Z then None
  else nth_error (options e) (Z.to_nat (selectedIndex e)).

(** [select.value]: the value of the selected option, else the empty string. *)
Definition select_value (e : Element) : string :=
  match selected_option e with
  | Some o => option_value o
  | None => EmptyString
  end.

(** The calls made on the DOM for their effect, as a script issues them. *)
Inductive Action :=
| ScrollIntoView (target : nat) (behavior : string) (block inline : option string)
| Focus (target : nat)
| SetSelectionRange (target : nat) (selectionStart selectionEnd : nat)
| DispatchEvent (target : nat) (event_type : string) (bubbles : bool).

(** An attached element is never collected. *)
Definition attached_alive (pg : Page) : Prop :=
  forall root u,
    documentElement pg = Some root -> In u (uids root) -> ~ In u (collected pg).

End Dom.

(** ** The reference registry

    [window.__claudeElementMap] is a plain object used as a map from
    reference ids to [WeakRef]s, and [window.__claudeRefCounter] a number.
    The object is modelled by the list of its own properties in insertion
    order, which is the order [for ... in] enumerates them in; a [WeakRef] by
    the identity of its target.  The counter is a natural number: the bound
    of exact integers of a JavaScript number is out of reach of a page. *)

Module Registry.
Import Dom.

Definition WeakRef := nat.
Definition ElementMap := list (string * WeakRef).

(** The two globals; the map is [None] while the property is undefined,
    and an undefined counter is 0 as both are initialised alike. *)
Record Window := {
  claudeElementMap : option ElementMap;
  claudeRefCounter : nat
}.

(** The globals of a page that has just been loaded. *)
Definition fresh : Window :=
  {| claudeElementMap := None; claudeRefCounter := 0 |}.

(** The start of the accessibility-tree script:
    [if (!window.__claudeElementMap) window.__claudeElementMap = {}] and
    [if (!window.__claudeRefCounter) window.__claudeRefCounter = 0]. *)
Definition install (w : Window) : Window :=
  {| claudeElementMap :=
       match claudeElementMap w with
       | Some m => Some m
       | None => Some []
       end;
     claudeRefCounter :=
       if Nat.eqb (claudeRefCounter w) 0 then 0 else claudeRefCounter w |}.

(** [weakRef.deref()]: the target, or [undefined] once it is collected. *)
Definition deref (pg : Page) (r : WeakRef) : option nat :=
  if existsb (Nat.eqb r) (collected pg) then None else Some r.

(** The own property [k] of the map. *)
Fixpoint own (m : ElementMap) (k : string) : option WeakRef :=
  match m with
  | [] => None
  | (k', r) :: rest => if String.eqb k' k then Some r else own rest k
  end.

Definition keys (m : ElementMap) : list string := map fst m.

(** [delete map[k]]. *)
Definition delete (k : string) (m : ElementMap) : ElementMap :=
  filter (fun p => negb (String.eqb (fst p) k)) m.

(** [map[k] = r]: an existing property keeps its place, a new one goes last. *)
Fixpoint assign (k : string) (r : WeakRef) (m : ElementMap) : ElementMap :=
  match m with
  | [] => [(k, r)]
  | (k', r') :: rest =>
      if String.eqb k' k then (k, r) :: rest else (k', r') :: assign k r rest
  end.

(** The properties every plain object inherits from [Object.prototype]. *)
Definition prototype_names : list string :=
  [ "constructor"; "__defineGetter__"; "__defineSetter__"; "hasOwnProperty";
    "__lookupGetter__"; "__lookupSetter__"; "isPrototypeOf";
    "propertyIsEnumerable"; "toString"; "valueOf"; "__proto__";
    "toLocaleString" ].

(** The value of [map[k]]: an own [WeakRef], an inherited member (a truthy
    value without a [deref] method), or [undefined]. *)
Inductive Property :=
| Own (r : WeakRef)
| Inherited
| Undefined.

Definition get (m : ElementMap) (k : string) : Property :=
  match own m k with
  | Some r => Own r
  | None => if Js.mem k prototype_names then Inherited else Undefined
  end.

(** ["ref_" + n]. *)
Definition ref_name (n : nat) : string := "ref_" ++ Js.string_of_nat n.

(** How a block of statements ends. *)
Inductive Completion (A : Type) :=
| Normal (a : A)
| Throw (message : string).
Arguments Normal {A} a.
Arguments Throw {A} message.

(** The message of the TypeError raised by calling [deref] on an inherited
    member. *)
Definition deref_type_error : string := "weakRef.deref is not a function".

(** The lookup both [browser_element_script.js] and
    [browser_form_input_script.js] start with: the element the reference
    stands for when it is still attached to the document; a stale entry is
    deleted. *)
Definition resolve (pg : Page) (w : Window) (elementRef : string)
  : Window * Completion (option Node) :=
  match claudeElementMap w with
  | None => (w, Normal None)
  | Some m =>
      match get m elementRef with
      | Undefined => (w, Normal None)
      | Inherited => (w, Throw deref_type_error)
      | Own r =>
          let stale :=
            {| claudeElementMap := Some (delete elementRef m);
               claudeRefCounter := claudeRefCounter w |} in
          match deref pg r with
          | None => (stale, Normal None)
          | Some u =>
              (* document.contains(targetElement) *)
              match element_by_uid pg u with
              | Some n => (w, Normal (Some n))
              | None => (stale, Normal None)
              end
          end
      end
  end.

(** [error.message || 'Unknown error']. *)
Definition message_or_unknown (message : string) : string :=
  if Js.truthy message then message else "Unknown error".

(** The failure both scripts return for a reference that does not resolve. *)
Definition not_found_message (elementRef : string) : string :=
  "No element found with reference: " ++ Js.dq ++ elementRef ++ Js.dq ++
  ". The element may have been removed from the page.".

(** What running a script leaves behind, and what it returns. *)
Record Outcome (R : Type) := {
  out_window : Window;
  out_page : Page;
  out_actions : list Action;
  out_result : R
}.
Arguments out_window {R} o.
Arguments out_page {R} o.
Arguments out_actions {R} o.
Arguments out_result {R} o.

End Registry.

(** ** The element locator, [browser_element_script.js] *)

Module Locator.
Import Dom Registry.

Record Attributes := {
  attr_type : string;
  attr_role : string;
  attr_ariaLabel : string;
  attr_text : string
}.

Record Located := {
  coordinates : Q * Q;
  elementInfo : string;
  elementRef : string;
  rect : DOMRect;
  attributes : Attributes;
  isVisible : bool;
  isInteractable : bool
}.

Inductive Result :=
| Success (l : Located)
| Failure (action message : string).

Definition success (r : Result) : bool :=
  match r with
  | Success _ => true
  | Failure _ _ => false
  end.

Definition Qpositive (q : Q) : bool := negb (Qle_bool q 0).

(** [tag + (id ? '#' + id : '') + (className ? '.' + classes.join('.') : '')]. *)
Definition element_info (e : Element) : string :=
  tag e ++
  (if Js.truthy (id e) then "#" ++ id e else EmptyString) ++
  (if Js.truthy (className e)
   then "." ++ String.concat "." (filter Js.truthy (Js.split " " (className e)))
   else EmptyString).

(** The object built once the element is found.  The rectangle is the one
    read after the scroll. *)
Definition describe (elementRef : string) (n : Node) (e : Element) : Located :=
  let r := boundingClientRect e in
  {| coordinates := ((left r + width r / 2)%Q, (top r + height r / 2)%Q);
     elementInfo := element_info e;
     elementRef := elementRef;
     rect := r;
     attributes :=
       {| attr_type := Js.or_empty (attr e "type");
          attr_role := Js.or_empty (attr e "role");
          attr_ariaLabel := Js.or_empty (attr e "aria-label");
          attr_text :=
            if Js.truthy (textContent n) then Js.take 100 (textContent n)
            else EmptyString |};
     isVisible := Qpositive (width r) && Qpositive (height r);
     isInteractable :=
       negb (disabled e) &&
       negb (String.eqb (styleDisplay e) "none") &&
       negb (String.eqb (styleVisibility e) "hidden") |}.

(** The body of the [try] block. *)
Definition get_element_try (pg : Page) (w : Window) (elementRef : string)
  : Outcome (Completion Result) :=
  match resolve pg w elementRef with
  | (w', Throw message) =>
      {| out_window := w'; out_page := pg; out_actions := [];
         out_result := Throw message |}
  | (w', Normal None) =>
      {| out_window := w'; out_page := pg; out_actions := [];
         out_result :=
           Normal (Failure "get_element" (not_found_message elementRef)) |}
  | (w', Normal (Some (TextNode _))) =>
      {| out_window := w'; out_page := pg; out_actions := [];
         out_result :=
           Normal (Failure "get_element" (not_found_message elementRef)) |}
  | (w', Normal (Some (ElementNode e kids))) =>
      {| out_window := w'; out_page := pg;
         out_actions :=
           [ScrollIntoView (uid e) "instant" (Some "center") (Some "center")];
         out_result :=
           Normal (Success (describe elementRef (ElementNode e kids) e)) |}
  end.

(** The script: the [try] block, and the [catch] clause that turns an
    exception into a failure. *)
Definition get_element (pg : Page) (w : Window) (elementRef : string)
  : Outcome Result :=
  let o := get_element_try pg w elementRef in
  {| out_window := out_window o; out_page := out_page o;
     out_actions := out_actions o;
     out_result :=
       match out_result o with
       | Normal r => r
       | Throw message =>
           Failure "get_element"
             ("Error finding element by reference: " ++
              message_or_unknown message)
       end |}.

End Locator.

(** ** The value setter, [browser_form_input_script.js] *)

Module ValueSetter.
Import Dom Registry.

(** What the script takes from the language and the browser without
    computing it itself: numbers with their conversions, and the
    sanitization an input applies to a value assigned to it. *)
Class Host := {
  Number : Type;
  NaN : Number;
  zero : Number;
  one : Number;
  isNaN : Number -> bool;
  string_to_number : string -> Number;
  number_to_string : Number -> string;
  sanitize : Element -> string -> string
}.

Section Script.
Context {host : Host}.

(** The values the driver can pass for [inputValue]. *)
Inductive Value :=
| Undefined
| Null
| Bool (b : bool)
| Num (x : Number)
| Str (s : string).

(** [String(v)]. *)
Definition to_string (v : Value) : string :=
  match v with
  | Undefined => "undefined"
  | Null => "null"
  | Bool true => "true"
  | Bool false => "false"
  | Num x => number_to_string x
  | Str s => s
  end.

(** [Number(v)]. *)
Definition to_number (v : Value) : Number :=
  match v with
  | Undefined => NaN
  | Null => zero
  | Bool true => one
  | Bool false => zero
  | Num x => x
  | Str s => string_to_number s
  end.

(** [v !== '']. *)
Definition not_empty_string (v : Value) : bool :=
  match v with
  | Str EmptyString => false
  | _ => true
  end.

Record Done := {
  ref : string;
  element_type : string;
  previous_value : Value;
  new_value : Value;
  message : string
}.

Inductive Result :=
| Success (d : Done)
| Failure (action message : string).

Definition success (r : Result) : bool :=
  match r with
  | Success _ => true
  | Failure _ _ => false
  end.

(** [o.value === valueStr || o.text === valueStr]. *)
Definition option_matches (valueStr : string) (o : OptionElement) : bool :=
  String.eqb (option_value o) valueStr || String.eqb (option_text o) valueStr.

(** The loop over the options: the index of the first one that matches,
    counting from [i]. *)
Fixpoint find_option (valueStr : string) (i : nat) (opts : list OptionElement)
  : option nat :=
  match opts with
  | [] => None
  | o :: rest =>
      if option_matches valueStr o then Some i
      else find_option valueStr (S i) rest
  end.

(** One entry of the list of available options of the failure message. *)
Definition describe_option (o : OptionElement) : string :=
  Js.dq ++ option_text o ++ Js.dq ++ " (value: " ++ Js.dq ++ option_value o ++
  Js.dq ++ ")".

Definition option_not_found (valueStr : string) (opts : list OptionElement)
  : string :=
  "Option " ++ Js.dq ++ valueStr ++ Js.dq ++ " not found. Available options: " ++
  String.concat ", " (map describe_option opts).

(** [focus()] and the two events every branch ends with. *)
Definition notify (u : nat) : list Action :=
  [Focus u; DispatchEvent u "change" true; DispatchEvent u "input" true].

Definition date_like (t : string) : bool :=
  String.eqb t "date" || String.eqb t "time" || String.eqb t "datetime-local" ||
  String.eqb t "month" || String.eqb t "week".

(** The element as the page holds it after the writes of a branch. *)
Definition reread (pg : Page) (e : Element) : Element :=
  match element_by_uid pg (uid e) with
  | Some (ElementNode e' _) => e'
  | _ => e
  end.

(** The chain of [instanceof] tests on the element once it is found; the
    first action is the scroll issued before the chain.  What the browser
    does on its own on a write or an event (unchecking the other radios of a
    group, running the listeners of the page) is not part of the script. *)
Definition dispatch (pg : Page) (elementRef : string) (inputValue : Value)
  (e : Element) : Page * list Action * Result :=
  let u := uid e in
  let scroll := ScrollIntoView u "smooth" (Some "center") None in
  let is_input := String.eqb (tag e) "input" in
  if String.eqb (tag e) "select" then
    let previousValue := select_value e in
    let valueStr := to_string inputValue in
    match find_option valueStr 0 (options e) with
    | None =>
        (pg, [scroll],
         Failure "form_input" (option_not_found valueStr (options e)))
    | Some i =>
        let pg' := update_page u (set_selectedIndex (Z.of_nat i)) pg in
        (pg', scroll :: notify u,
         Success
           {| ref := elementRef; element_type := "select";
              previous_value := Str previousValue;
              new_value := Str (select_value (reread pg' e));
              message :=
                "Selected option " ++ Js.dq ++ valueStr ++ Js.dq ++
                " in dropdown" |})
    end
  else if is_input && String.eqb (type e) "checkbox" then
    let previousValue := checked e in
    match inputValue with
    | Bool b =>
        let pg' := update_page u (set_checked b) pg in
        let now := checked (reread pg' e) in
        (pg', scroll :: notify u,
         Success
           {| ref := elementRef; element_type := "checkbox";
              previous_value := Bool previousValue;
              new_value := Bool now;
              message :=
                "Checkbox " ++ (if now then "checked" else "unchecked") |})
    | _ =>
        (pg, [scroll],
         Failure "form_input" "Checkbox requires a boolean value (true/false)")
    end
  else if is_input && String.eqb (type e) "radio" then
    let previousValue := checked e in
    let radioGroup := name e in
    let pg' := update_page u (set_checked true) pg in
    (pg', scroll :: notify u,
     Success
       {| ref := elementRef; element_type := "radio";
          previous_value := Bool previousValue;
          new_value := Bool (checked (reread pg' e));
          message :=
            "Radio button selected" ++
            (if Js.truthy radioGroup
             then " in group " ++ Js.dq ++ radioGroup ++ Js.dq
             else EmptyString) |})
  else if is_input && date_like (type e) then
    let previousValue := value e in
    let pg' := update_page u (set_value (sanitize e (to_string inputValue))) pg in
    let now := value (reread pg' e) in
    (pg', scroll :: notify u,
     Success
       {| ref := elementRef; element_type := type e;
          previous_value := Str previousValue;
          new_value := Str now;
          message := "Set " ++ type e ++ " to " ++ Js.dq ++ now ++ Js.dq |})
  else if is_input && String.eqb (type e) "range" then
    let previousValue := value e in
    let numValue := to_number inputValue in
    if isNaN numValue then
      (pg, [scroll], Failure "form_input" "Range input requires a numeric value")
    else
      let pg' :=
        update_page u (set_value (sanitize e (number_to_string numValue))) pg in
      let now := value (reread pg' e) in
      (pg', scroll :: notify u,
       Success
         {| ref := elementRef; element_type := "range";
            previous_value := Str previousValue;
            new_value := Str now;
            message :=
              "Set range to " ++ now ++ " (min: " ++ min e ++ ", max: " ++
              max e ++ ")" |})
  else if is_input && String.eqb (type e) "number" then
    let previousValue := value e in
    let numValue := to_number inputValue in
    if isNaN numValue && not_empty_string inputValue then
      (pg, [scroll], Failure "form_input" "Number input requires a numeric value")
    else
      let pg' := update_page u (set_value (sanitize e (to_string inputValue))) pg in
      let now := value (reread pg' e) in
      (pg', scroll :: notify u,
       Success
         {| ref := elementRef; element_type := "number";
            previous_value := Str previousValue;
            new_value := Str now;
            message := "Set number input to " ++ now |})
  else if is_input || String.eqb (tag e) "textarea" then
    let previousValue := value e in
    let pg' := update_page u (set_value (sanitize e (to_string inputValue))) pg in
    let now := value (reread pg' e) in
    let elementType :=
      if String.eqb (tag e) "textarea" then "textarea"
      else if Js.truthy (type e) then type e else "text" in
    (pg',
     [scroll; Focus u; SetSelectionRange u (String.length now) (String.length now);
      DispatchEvent u "change" true; DispatchEvent u "input" true],
     Success
       {| ref := elementRef; element_type := elementType;
          previous_value := Str previousValue;
          new_value := Str now;
          message :=
            "Set " ++ elementType ++ " value to " ++ Js.dq ++ now ++ Js.dq |})
  else
    (pg, [scroll],
     Failure "form_input"
       ("Element type " ++ Js.dq ++ tagName e ++ Js.dq ++
        " is not a supported form input")).

(** The body of the [try] block.  The calls on the DOM are taken to return
    normally. *)
Definition form_input_try (pg : Page) (w : Window) (elementRef : string)
  (inputValue : Value) : Outcome (Completion Result) :=
  match resolve pg w elementRef with
  | (w', Throw message) =>
      {| out_window := w'; out_page := pg; out_actions := [];
         out_result := Throw message |}
  | (w', Normal None) =>
      {| out_window := w'; out_page := pg; out_actions := [];
         out_result :=
           Normal (Failure "form_input" (not_found_message elementRef)) |}
  | (w', Normal (Some (TextNode _))) =>
      {| out_window := w'; out_page := pg; out_actions := [];
         out_result :=
           Normal (Failure "form_input" (not_found_message elementRef)) |}
  | (w', Normal (Some (ElementNode e _))) =>
      let '(pg', actions, r) := dispatch pg elementRef inputValue e in
      {| out_window := w'; out_page := pg'; out_actions := actions;
         out_result := Normal r |}
  end.

(** The script: the [try] block and its [catch] clause. *)
Definition form_input (pg : Page) (w : Window) (elementRef : string)
  (inputValue : Value) : Outcome Result :=
  let o := form_input_try pg w elementRef inputValue in
  {| out_window := out_window o; out_page := out_page o;
     out_actions := out_actions o;
     out_result :=
       match out_result o with
       | Normal r => r
       | Throw message =>
           Failure "form_input"
             ("Error setting form value: " ++ message_or_unknown message)
       end |}.

End Script.

End ValueSetter.

(** ** The snapshot engine, [window.__generateAccessibilityTree] *)

Module Snapshot.
Import Dom Registry.

(** The role an input gets in [roleMap], from its [type] attribute. *)
Definition input_role (type : option string) : string :=
  match type with
  | Some t =>
      if String.eqb t "submit" || String.eqb t "button" then "button"
      else if String.eqb t "checkbox" then "checkbox"
      else if String.eqb t "radio" then "radio"
      else if String.eqb t "file" then "button"
      else "textbox"
  | None => "textbox"
  end.

Definition roleMap (type : option string) : list (string * string) :=
  [ ("a", "link"); ("button", "button"); ("input", input_role type);
    ("select", "combobox"); ("textarea", "textbox");
    ("h1", "heading"); ("h2", "heading"); ("h3", "heading");
    ("h4", "heading"); ("h5", "heading"); ("h6", "heading");
    ("img", "image"); ("nav", "navigation"); ("main", "main");
    ("header", "banner"); ("footer", "contentinfo"); ("section", "region");
    ("article", "article"); ("aside", "complementary"); ("form", "form");
    ("table", "table"); ("ul", "list"); ("ol", "list"); ("li", "listitem");
    ("label", "label") ].

(** [roleMap[tag] || "generic"], the table being read by key like a list of
    attributes.  Tags are names of HTML elements, none of which names a
    member inherited from [Object.prototype]. *)
Definition getRole (e : Element) : string :=
  if Js.truthy_opt (attr e "role") then Js.or_empty (attr e "role")
  else
    match getAttribute (roleMap (attr e "type")) (tag e) with
    | Some role => role
    | None => "generic"
    end.

(** The rules of [getCleanName] in the order they are tried; [Some] is a
    [return]. *)

Definition name_of_select (e : Element) : option string :=
  if String.eqb (tag e) "select" then
    let selectedOption :=
      match find option_selected (options e) with
      | Some o => Some o
      | None => selected_option e
      end in
    match selectedOption with
    | Some o =>
        if Js.truthy (option_textContent o)
        then Some (Js.trim (option_textContent o))
        else None
    | None => None
    end
  else None.

Definition name_of_attribute (e : Element) (a : string) : option string :=
  match attr e a with
  | Some v =>
      if Js.truthy v && Js.truthy (Js.trim v) then Some (Js.trim v) else None
  | None => None
  end.

Definition name_of_label (pg : Page) (e : Element) : option string :=
  if Js.truthy (id e) then
    match label_for pg (id e) with
    | Some label =>
        if Js.truthy (textContent label) && Js.truthy (Js.trim (textContent label))
        then Some (Js.trim (textContent label))
        else None
    | None => None
    end
  else None.

Definition name_of_input (e : Element) : option string :=
  if String.eqb (tag e) "input" then
    let type := Js.or_empty (attr e "type") in
    let value := attr e "value" in
    if String.eqb type "submit" && Js.truthy_opt value &&
       Js.truthy (Js.trim (Js.or_empty value))
    then Some (Js.trim (Js.or_empty value))
    else if Js.truthy (Dom.value e) && (String.length (Dom.value e) <? 50) &&
            Js.truthy (Js.trim (Dom.value e))
    then Some (Js.trim (Dom.value e))
    else None
  else None.

Definition name_of_clickable (e : Element) (kids : list Node) : option string :=
  if Js.mem (tag e) ["button"; "a"; "summary"] then
    if Js.truthy (Js.trim (directText kids))
    then Some (Js.trim (directText kids))
    else None
  else None.

Definition name_of_heading (n : Node) (e : Element) : option string :=
  if Js.heading_tag (tag e) then
    let headingText := textContent n in
    if Js.truthy headingText && Js.truthy (Js.trim headingText)
    then Some (Js.take 100 (Js.trim headingText))
    else None
  else None.

(** [src.split("/").pop()?.split("?")[0]]. *)
Definition filename (src : string) : string :=
  hd EmptyString (Js.split "?" (last (Js.split "/" src) EmptyString)).

Definition name_of_image (e : Element) : option string :=
  if String.eqb (tag e) "img" then
    match attr e "src" with
    | Some src => if Js.truthy src then Some ("Image: " ++ filename src) else None
    | None => None
    end
  else None.

Definition name_of_text (kids : list Node) : string :=
  let directTextContent := directText kids in
  if Js.truthy directTextContent && Js.truthy (Js.trim directTextContent) &&
     (3 <=? String.length (Js.trim directTextContent))
  then
    let trimmedText := Js.trim directTextContent in
    if 50 <? String.length trimmedText
    then Js.take 50 trimmedText ++ "..."
    else trimmedText
  else EmptyString.

Fixpoint first_return (rules : list (option string)) (otherwise : string)
  : string :=
  match rules with
  | [] => otherwise
  | Some s :: _ => s
  | None :: rest => first_return rest otherwise
  end.

Definition getCleanName (pg : Page) (n : Node) : string :=
  match n with
  | TextNode _ => EmptyString
  | ElementNode e kids =>
      first_return
        [ name_of_select e;
          name_of_attribute e "aria-label";
          name_of_attribute e "placeholder";
          name_of_attribute e "title";
          name_of_attribute e "alt";
          name_of_label pg e;
          name_of_input e;
          name_of_clickable e kids;
          name_of_heading n e;
          name_of_image e ]
        (name_of_text kids)
  end.

Definition isVisible (e : Element) : bool :=
  negb (String.eqb (computedDisplay e) "none") &&
  negb (String.eqb (computedVisibility e) "hidden") &&
  negb (String.eqb (computedOpacity e) "0") &&
  (0 <? offsetWidth e)%Z &&
  (0 <? offsetHeight e)%Z.

Definition Qlt_bool (a b : Q) : bool := negb (Qle_bool b a).

(** The test of the bounding box against the viewport. *)
Definition inViewport (pg : Page) (e : Element) : bool :=
  let rect := boundingClientRect e in
  Qlt_bool (top rect) (inject_Z (innerHeight pg)) &&
  Qlt_bool 0 (bottom rect) &&
  Qlt_bool (left rect) (inject_Z (innerWidth pg)) &&
  Qlt_bool 0 (right rect).

Definition present (v : option string) : bool :=
  match v with
  | Some _ => true
  | None => false
  end.

(** [e.getAttribute(a) === s]. *)
Definition attr_is (e : Element) (a s : string) : bool :=
  match attr e a with
  | Some v => String.eqb v s
  | None => false
  end.

Definition isInteractive (e : Element) : bool :=
  Js.mem (tag e)
    ["a"; "button"; "input"; "select"; "textarea"; "details"; "summary"] ||
  present (attr e "onclick") ||
  present (attr e "tabindex") ||
  attr_is e "role" "button" ||
  attr_is e "role" "link" ||
  attr_is e "contenteditable" "true".

Definition isSemantic (e : Element) : bool :=
  Js.mem (tag e)
    ["h1"; "h2"; "h3"; "h4"; "h5"; "h6"; "nav"; "main"; "header"; "footer";
     "section"; "article"; "aside"] ||
  present (attr e "role").

Definition isContainerElement (e : Element) : bool :=
  let className := className e in
  let id := id e in
  attr_is e "role" "search" ||
  attr_is e "role" "form" ||
  attr_is e "role" "group" ||
  attr_is e "role" "toolbar" ||
  attr_is e "role" "navigation" ||
  String.eqb (tag e) "form" ||
  String.eqb (tag e) "fieldset" ||
  String.eqb (tag e) "nav" ||
  Js.includes id "search" ||
  Js.includes className "search" ||
  Js.includes id "form" ||
  Js.includes className "form" ||
  Js.includes id "menu" ||
  Js.includes className "menu" ||
  Js.includes id "nav" ||
  Js.includes className "nav".

Definition functionalKeywords : list string :=
  ["search"; "dropdown"; "menu"; "modal"; "dialog"; "popup"; "toolbar";
   "sidebar"; "content"; "text"].

(** [options.filter] is the argument of the snapshot: [None] when the
    driver passes none. *)
Definition filter_is (filter : option string) (s : string) : bool :=
  match filter with
  | Some f => String.eqb f s
  | None => false
  end.

Definition shouldIncludeElement (pg : Page) (filter : option string) (n : Node)
  : bool :=
  match n with
  | TextNode _ => false
  | ElementNode e kids =>
      if Js.mem (tag e) ["script"; "style"; "meta"; "link"; "title"; "noscript"]
      then false
      else if attr_is e "aria-hidden" "true" then false
      else if negb (isVisible e) then false
      else if negb (filter_is filter "all") && negb (inViewport pg e) then false
      else if filter_is filter "interactive" then isInteractive e
      else if isInteractive e then true
      else if isSemantic e then true
      else if 0 <? String.length (getCleanName pg n) then true
      else if String.eqb (getRole e) "generic" &&
              (String.eqb (tag e) "div" || String.eqb (tag e) "span")
      then
        let id := id e in
        let className := className e in
        let cleanName := getCleanName pg n in
        if Js.truthy cleanName && (3 <=? String.length cleanName) then true
        else if existsb
                  (fun keyword =>
                     Js.includes id keyword || Js.includes className keyword)
                  functionalKeywords
        then true
        else false
      else if isContainerElement e then true
      else false
  end.

(** One line of the result: [em_yaml] is the string pushed, the other
    fields record the element it was produced for, its depth, its name and
    its reference. *)
Record Emitted := {
  em_uid : nat;
  em_depth : nat;
  em_name : string;
  em_ref : string;
  em_yaml : string
}.

(** The state a pass threads through the traversal: the two globals and the
    array [result]. *)
Record Traversal := {
  elementMap : ElementMap;
  refCounter : nat;
  result : list Emitted
}.

(** The loop over the entries of the map looking for the element. *)
Fixpoint existing_ref (pg : Page) (m : ElementMap) (u : nat) : option string :=
  match m with
  | [] => None
  | (existingRef, weakRef) :: rest =>
      match deref pg weakRef with
      | Some existingElement =>
          if Nat.eqb existingElement u then Some existingRef
          else existing_ref pg rest u
      | None => existing_ref pg rest u
      end
  end.

(** The text appended for an attribute that is present and not empty. *)
Definition annotation (label : string) (v : string) : string :=
  if Js.truthy v then " " ++ label ++ "=" ++ Js.dq ++ v ++ Js.dq else EmptyString.

Definition yaml_line (e : Element) (depth : nat) (role name ref : string)
  : string :=
  Js.repeat "  " depth ++ "- " ++ role ++
  (if Js.truthy name
   then " " ++ Js.dq ++
        Js.escape_quotes (Js.take 100 (Js.collapse_whitespace name)) ++ Js.dq
   else EmptyString) ++
  " [ref=" ++ ref ++ "]" ++
  annotation "id" (id e) ++
  annotation "href" (Js.or_empty (attr e "href")) ++
  annotation "type" (Js.or_empty (attr e "type")) ++
  annotation "placeholder" (Js.or_empty (attr e "placeholder")).

(** Creating a reference: [ref = "ref_" + ++window.__claudeRefCounter] and
    the store of a new [WeakRef] under it. *)
Definition mint (m : ElementMap) (counter : nat) (u : nat)
  : string * ElementMap * nat :=
  let counter := S counter in
  (ref_name counter, assign (ref_name counter) u m, counter).

(** The reference of an included element: the one found by the loop, unless
    [!ref] holds after it, else a new one. *)
Definition allocate (pg : Page) (m : ElementMap) (counter : nat) (u : nat)
  : string * ElementMap * nat :=
  match existing_ref pg m u with
  | Some ref => if Js.truthy ref then (ref, m, counter) else mint m counter u
  | None => mint m counter u
  end.

(** The block run for an included element: find or create its reference,
    then push its line. *)
Definition include (pg : Page) (n : Node) (e : Element) (depth : nat)
  (t : Traversal) : Traversal :=
  let role := getRole e in
  let name := getCleanName pg n in
  let '(ref, m, counter) :=
    allocate pg (elementMap t) (refCounter t) (uid e) in
  {| elementMap := m;
     refCounter := counter;
     result :=
       result t ++
       [{| em_uid := uid e; em_depth := depth; em_name := name; em_ref := ref;
           em_yaml := yaml_line e depth role name ref |}] |}.

(** [processElement].  It is only ever called on elements, [children]
    holding no text node: a text node met while walking [childNodes] is
    skipped. *)
Fixpoint processElement (pg : Page) (filter : option string) (n : Node)
  (depth : nat) (t : Traversal) : Traversal :=
  match n with
  | TextNode _ => t
  | ElementNode e kids =>
      if 15 <? depth then t
      else if negb (Js.truthy (tagName e)) then t
      else
        let shouldInclude := shouldIncludeElement pg filter n in
        let actuallyInclude := shouldInclude || Nat.eqb depth 0 in
        let t1 := if actuallyInclude then include pg n e depth t else t in
        if depth <? 15 then
          fold_left
            (fun acc child =>
               processElement pg filter child
                 (if actuallyInclude then depth + 1 else depth) acc)
            kids t1
        else t1
  end.

(** The loop run after the traversal: entries whose target has been
    collected are deleted. *)
Definition cleanup (pg : Page) (m : ElementMap) : ElementMap :=
  filter
    (fun p =>
       match deref pg (snd p) with
       | Some _ => true
       | None => false
       end)
    m.

(** The traversal from the body followed by the cleanup, on an installed
    map. *)
Definition pass (pg : Page) (filter : option string) (m : ElementMap)
  (counter : nat) : Traversal :=
  let t0 := {| elementMap := m; refCounter := counter; result := [] |} in
  let t :=
    match body pg with
    | Some b => processElement pg filter b 0 t0
    | None => t0
    end in
  {| elementMap := cleanup pg (elementMap t);
     refCounter := refCounter t;
     result := result t |}.

Record Tree := {
  pageContent : string;
  viewport : Z * Z
}.

(** [filteredResult.join("\n")]. *)
Definition render (lines : list string) : string :=
  String.concat (String "010"%char EmptyString)
    (filter (fun line => negb (Js.bare_generic line)) lines).

(** The message of the TypeError raised by storing into an undefined map. *)
Definition undefined_map_error (ref : string) : string :=
  "Cannot set properties of undefined (setting '" ++ ref ++ "')".

Definition wrap_error (message : string) : string :=
  "Error generating accessibility tree: " ++ message_or_unknown message.

(** The function.  With the map undefined, the first element reached (the
    body, always included) increments the counter and fails on the store;
    the [catch] clause rethrows. *)
Definition generateAccessibilityTree (pg : Page) (filterType : option string)
  (w : Window) : Window * Completion Tree :=
  match claudeElementMap w with
  | Some m =>
      let t := pass pg filterType m (claudeRefCounter w) in
      ({| claudeElementMap := Some (elementMap t);
          claudeRefCounter := refCounter t |},
       Normal
         {| pageContent := render (map em_yaml (result t));
            viewport := (innerWidth pg, innerHeight pg) |})
  | None =>
      match body pg with
      | Some (ElementNode e _) =>
          if Js.truthy (tagName e) then
            let counter := S (claudeRefCounter w) in
            ({| claudeElementMap := None; claudeRefCounter := counter |},
             Throw (wrap_error (undefined_map_error (ref_name counter))))
          else
            (w, Normal {| pageContent := EmptyString;
                          viewport := (innerWidth pg, innerHeight pg) |})
      | _ =>
          (w, Normal {| pageContent := EmptyString;
                        viewport := (innerWidth pg, innerHeight pg) |})
      end
  end.

End Snapshot.

(** ** A page session

    Between two calls of the driver the page may change in any way, so each
    call comes with the page it finds.  The scripts are the only code that
    touches the two globals. *)

Module Session.
Import Dom Registry.

Section Calls.
Context {host : ValueSetter.Host}.

Inductive Call :=
| Install
| ReadPage (filter : option string)
| GetElement (elementRef : string)
| FormInput (elementRef : string) (inputValue : ValueSetter.Value).

(** The globals after one call on the page [pg]. *)
Definition run (pg : Page) (c : Call) (w : Window) : Window :=
  match c with
  | Install => install w
  | ReadPage filter => fst (Snapshot.generateAccessibilityTree pg filter w)
  | GetElement elementRef => out_window (Locator.get_element pg w elementRef)
  | FormInput elementRef inputValue =>
      out_window (ValueSetter.form_input pg w elementRef inputValue)
  end.

(** [reaches w w']: some sequence of calls leads from [w] to [w']. *)
Inductive reaches : Window -> Window -> Prop :=
| reaches_here (w : Window) : reaches w w
| reaches_call (w w' : Window) (pg : Page) (c : Call) :
    reaches (run pg c w) w' -> reaches w w'.

(** [session w]: [w] holds the globals at some point of a page session,
    each call of which found a page whose attached elements are alive. *)
Inductive session : Window -> Prop :=
| session_fresh : session fresh
| session_call (w : Window) (pg : Page) (c : Call) :
    session w -> attached_alive pg -> session (run pg c w).

End Calls.

(** The entry of a window for a reference id. *)
Definition binding (w : Window) (k : string) : option WeakRef :=
  match claudeElementMap w with
  | Some m => own m k
  | None => None
  end.

End Session.

(** ** Sample pages *)

Module Sample.
Import Dom Registry.

Definition box : DOMRect :=
  {| left := 10; top := 10; right := 110; bottom := 30;
     width := 100; height := 20 |}.

(** A visible element inside the viewport, with no form state. *)
Definition element (u : nat) (tagName : string)
  (attributes : list (string * string)) : Element :=
  {| uid := u; tagName := tagName; attributes := attributes;
     computedDisplay := "block"; computedVisibility := "visible";
     computedOpacity := "1";
     offsetWidth := 100; offsetHeight := 20;
     boundingClientRect := box;
     styleDisplay := EmptyString; styleVisibility := EmptyString;
     disabled := false; type := EmptyString; value := EmptyString;
     checked := false; selectedIndex := (-1)%Z; options := [];
     name := EmptyString; min := EmptyString; max := EmptyString |}.

(** An input of the given type and state. *)
Definition input (u : nat) (type value : string) (checked : bool) : Element :=
  {| uid := u; tagName := "INPUT"; attributes := [("type", type)];
     computedDisplay := "inline-block"; computedVisibility := "visible";
     computedOpacity := "1";
     offsetWidth := 100; offsetHeight := 20;
     boundingClientRect := box;
     styleDisplay := EmptyString; styleVisibility := EmptyString;
     disabled := false; type := type; value := value;
     checked := checked; selectedIndex := (-1)%Z; options := [];
     name := EmptyString; min := EmptyString; max := EmptyString |}.

(** A select with the given options, none selected by attribute. *)
Definition select (u : nat) (selectedIndex : Z) (opts : list (string * string))
  : Element :=
  {| uid := u; tagName := "SELECT"; attributes := [];
     computedDisplay := "inline-block"; computedVisibility := "visible";
     computedOpacity := "1";
     offsetWidth := 100; offsetHeight := 20;
     boundingClientRect := box;
     styleDisplay := EmptyString; styleVisibility := EmptyString;
     disabled := false; type := "select-one"; value := EmptyString;
     checked := false; selectedIndex := selectedIndex;
     options :=
       map (fun o =>
              {| option_value := fst o; option_text := snd o;
                 option_textContent := snd o; option_selected := false |})
           opts;
     name := EmptyString; min := EmptyString; max := EmptyString |}.

(** A document [html > (head, body > kids)] in a 1280 by 720 viewport. *)
Definition page (kids : list Node) (collected : list nat) : Page :=
  {| documentElement :=
       Some (ElementNode (element 0 "HTML" [])
               [ElementNode (element 1 "HEAD" []) [];
                ElementNode (element 2 "BODY" []) kids]);
     collected := collected;
     innerWidth := 1280; innerHeight := 720 |}.

(** [<body></body>]. *)
Definition empty_page : Page := page [] [].

(** [<body><button>Go</button></body>]. *)
Definition button_page : Page :=
  page [ElementNode (element 3 "BUTTON" []) [TextNode "Go"]] [].

(** [<body><nav><button>Go</button></nav></body>]. *)
Definition nav_page : Page :=
  page [ElementNode (element 3 "NAV" [])
          [ElementNode (element 4 "BUTTON" []) [TextNode "Go"]]] [].

(** [<body><div><div><button>Go</button></div></div></body>]. *)
Definition wrapped_button : Node :=
  ElementNode (element 3 "DIV" [])
    [ElementNode (element 4 "DIV" [])
       [ElementNode (element 5 "BUTTON" []) [TextNode "Go"]]].

Definition wrapped_page : Page := page [wrapped_button] [].

(** [<body><input type="checkbox"></body>]. *)
Definition checkbox_page : Page :=
  page [ElementNode (input 3 "checkbox" "on" false) []] [].

(** [<body><select><option value="b">Blue</option></select></body>]. *)
Definition select_page : Page :=
  page [ElementNode (select 3 0 [("b", "Blue")]) []] [].

(** [<body><input type="range" value="50"></body>]. *)
Definition range_page : Page :=
  page [ElementNode (input 3 "range" "50" false) []] [].

(** Numbers for the samples: integers, with [None] for NaN; only unsigned
    decimal literals are read as numbers. *)
Definition sample_number_of_string (s : string) : option Z :=
  match s with
  | EmptyString => Some 0%Z
  | String _ _ =>
      match NilEmpty.uint_of_string s with
      | Some d => Some (Z.of_nat (Nat.of_uint d))
      | None => None
      end
  end.

Definition sample_string_of_number (x : option Z) : string :=
  match x with
  | None => "NaN"
  | Some z =>
      if (z <? 0)%Z then "-" ++ Js.string_of_nat (Z.to_nat (- z))
      else Js.string_of_nat (Z.to_nat z)
  end.

Definition host : ValueSetter.Host :=
  {| ValueSetter.Number := option Z;
     ValueSetter.NaN := None;
     ValueSetter.zero := Some 0%Z;
     ValueSetter.one := Some 1%Z;
     ValueSetter.isNaN :=
       fun x => match x with Some _ => false | None => true end;
     ValueSetter.string_to_number := sample_number_of_string;
     ValueSetter.number_to_string := sample_string_of_number;
     ValueSetter.sanitize := fun _ s => s |}.

(** The globals once the accessibility-tree script is installed. *)
Definition installed : Window := install fresh.

(** The globals after one default snapshot of [page]. *)
Definition after_snapshot (pg : Page) : Window :=
  fst (Snapshot.generateAccessibilityTree pg None installed).

End Sample.

(** ** Invariants of the registry and of a traversal *)

Module Inv.
Import Dom Registry Snapshot.
Local Open Scope list_scope.

(** Every key is an id the counter has already produced. *)
Definition well_keyed (m : ElementMap) (counter : nat) : Prop :=
  forall k r, In (k, r) m -> exists n, k = ref_name n /\ 1 <= n <= counter.

(** From [(m, c)] to [(m', c')] entries were only added, each under an id
    the counter produced in between. *)
Definition grows (m : ElementMap) (c : nat) (m' : ElementMap) (c' : nat)
  : Prop :=
  c <= c' /\
  exists l, m' = m ++ l /\
    forall k r, In (k, r) l -> exists n, k = ref_name n /\ c < n <= c'.

(** From [t] to [t'] the registry grew and lines were only pushed. *)
Definition advance (t t' : Traversal) : Prop :=
  grows (elementMap t) (refCounter t) (elementMap t') (refCounter t') /\
  exists l, result t' = result t ++ l.

(** The registry held by a traversal is well keyed. *)
Definition keyed (t : Traversal) : Prop :=
  well_keyed (elementMap t) (refCounter t).

(** No element has two references. *)
Definition single (m : ElementMap) : Prop :=
  forall k k' u, In (k, u) m -> In (k', u) m -> k = k'.

(** Every line pushed so far carries a reference the registry holds for
    its element, and that element is not collected. *)
Definition linked (pg : Page) (t : Traversal) : Prop :=
  forall em, In em (result t) ->
    In (em_ref em, em_uid em) (elementMap t) /\ ~ In (em_uid em) (collected pg).

Definition consistent (pg : Page) (t : Traversal) : Prop :=
  keyed t /\ single (elementMap t) /\ linked pg t.






(** No reference id has two targets. *)
Definition functional (m : ElementMap) : Prop :=
  forall k r r', In (k, r) m -> In (k, r') m -> r = r'.

(** The entries of a window. *)
Definition entries (w : Window) : ElementMap :=
  match claudeElementMap w with
  | Some m => m
  | None => []
  end.

(** The state of the two globals that a session maintains. *)
Definition window_ok (w : Window) : Prop :=
  well_keyed (entries w) (claudeRefCounter w) /\ functional (entries w).

(** From [w] to [w'] the counter did not decrease, and every entry of [w']
    is an entry of [w] or sits under an id the counter produced in
    between. *)
Definition window_grows (w w' : Window) : Prop :=
  claudeRefCounter w <= claudeRefCounter w' /\
  forall k r, In (k, r) (entries w') ->
    In (k, r) (entries w) \/
    exists n, k = ref_name n /\ claudeRefCounter w < n <= claudeRefCounter w'.



(** The registry held by a traversal is in order. *)
Definition steady (t : Traversal) : Prop :=
  keyed t /\ functional (elementMap t).

(** The number of levels of elements of a tree. *)
Fixpoint height (n : Node) : nat :=
  match n with
  | TextNode _ => 0
  | ElementNode _ kids => S (list_max (map height kids))
  end.


End Inv.

(** ** The text extractor, [src/unnamed/part_004]

    The script returns the text of the element that most likely holds the
    article of the page.  [document.title] and [window.location.href] are
    read once and returned as they are, so they are arguments here.  As
    everywhere, white space is the ASCII part of the class [\s]. *)

Module TextExtractor.
Import Dom Registry.
Local Open Scope list_scope.

(** The five forms of selector the script uses. *)
Inductive Selector :=
| TypeSelector (name : string)      (* [name] *)
| ClassSubstring (s : string)       (* [[class*="s"]] *)
| RoleEquals (s : string)           (* [[role="s"]] *)
| ClassSelector (s : string)        (* [.s] *)
| IdSelector (s : string).          (* [#s] *)

(** The array [selectors], in its order. *)
Definition selectors : list Selector :=
  [ TypeSelector "article";
    TypeSelector "main";
    ClassSubstring "articleBody";
    ClassSubstring "article-body";
    ClassSubstring "post-content";
    ClassSubstring "entry-content";
    ClassSubstring "content-body";
    RoleEquals "main";
    ClassSelector "content";
    IdSelector "content" ].

(** The characters that separate the tokens of a [class] attribute: space,
    tab, line feed, form feed and carriage return. *)
Definition html_space (c : ascii) : bool :=
  let n := nat_of_ascii c in
  Nat.eqb n 32 || Nat.eqb n 9 || Nat.eqb n 10 || Nat.eqb n 12 || Nat.eqb n 13.

(** The pieces of [s] between separators, empty ones included. *)
Fixpoint pieces (s : string) : list string :=
  match s with
  | EmptyString => [EmptyString]
  | String c r =>
      if html_space c then EmptyString :: pieces r
      else match pieces r with
           | h :: t => String c h :: t
           | [] => [String c EmptyString]
           end
  end.

(** [element.classList] as a list. *)
Definition class_tokens (cls : string) : list string :=
  filter Js.truthy (pieces cls).

(** [element.matches(selector)], names of classes and ids being compared
    as they are written (a document in no-quirks mode). *)
Definition matches (sel : Selector) (e : Element) : bool :=
  match sel with
  | TypeSelector name => String.eqb (tag e) name
  | ClassSubstring s =>
      match attr e "class" with
      | Some v => Js.truthy s && Js.includes v s
      | None => false
      end
  | RoleEquals s => Snapshot.attr_is e "role" s
  | ClassSelector s =>
      match attr e "class" with
      | Some v => Js.mem s (class_tokens v)
      | None => false
      end
  | IdSelector s => Snapshot.attr_is e "id" s
  end.

Definition node_matches (sel : Selector) (n : Node) : bool :=
  match n with
  | TextNode _ => false
  | ElementNode e _ => matches sel e
  end.

(** [document.querySelectorAll(selector)]: the matching elements in
    document order. *)
Definition querySelectorAll (sel : Selector) (pg : Page) : list Node :=
  filter (node_matches sel) (document_elements pg).

(** [el.textContent?.length || 0]. *)
Definition text_length (n : Node) : nat := String.length (textContent n).

(** One turn of the [forEach]: the pair is [(bestElement, maxTextLength)]. *)
Definition consider (acc : Node * nat) (el : Node) : Node * nat :=
  if snd acc <? text_length el then (el, text_length el) else acc.

(** The element kept among [elements], which is not empty:
    [bestElement] after the [forEach], started from [elements[0]] and 0. *)
Definition best (first : Node) (elements : list Node) : Node :=
  fst (fold_left consider elements (first, 0)).

(** The loop over the selectors: the first one that matches something
    decides. *)
Fixpoint content_element (pg : Page) (sels : list Selector) : option Node :=
  match sels with
  | [] => None
  | sel :: rest =>
      match querySelectorAll sel pg with
      | [] => content_element pg rest
      | (first :: _) as elements => Some (best first elements)
      end
  end.

Definition newline : ascii := "010"%char.

(** What a run of [run] line feeds becomes under
    [replace(/\n{3,}/g, '\n\n')]. *)
Definition flush (run : nat) : string :=
  if 3 <=? run then String newline (String newline EmptyString)
  else Js.repeat (String newline EmptyString) run.

(** [s.replace(/\n{3,}/g, '\n\n')]: [run] counts the line feeds of the run
    being read. *)
Fixpoint squeeze_from (run : nat) (s : string) : string :=
  match s with
  | EmptyString => flush run
  | String c r =>
      if Ascii.eqb c newline then squeeze_from (S run) r
      else flush run ++ String c (squeeze_from 0 r)
  end.

Definition squeeze_newlines (s : string) : string := squeeze_from 0 s.

(** [textContent.replace(/\s+/g, ' ').replace(/\n{3,}/g, '\n\n').trim()]. *)
Definition clean (textContent : string) : string :=
  Js.trim (squeeze_newlines (Js.collapse_whitespace textContent)).

Record Extracted := {
  text : string;
  source : string;
  title : string;
  url : string
}.

(** The message of the TypeError raised by reading [textContent] of
    [null]. *)
Definition null_error : string :=
  "Cannot read properties of null (reading 'textContent')".

(** The script: the [try] block, and the [catch] clause that rethrows.
    [querySelectorAll] and [document.body] only give elements. *)
Definition extract (pg : Page) (documentTitle href : string)
  : Completion Extracted :=
  let contentElement :=
    match content_element pg selectors with
    | Some el => Some el
    | None => body pg
    end in
  match contentElement with
  | Some (ElementNode e kids) =>
      Normal
        {| text := clean (textContent (ElementNode e kids));
           source := tag e;
           title := documentTitle;
           url := href |}
  | _ =>
      Throw ("Error extracting page text: " ++ message_or_unknown null_error)
  end.

(** A string in which the only white space is single spaces: no other
    white-space character, and no space after a space; [after_space] tells
    that the character before the string is a space. *)
Fixpoint single_spaced (after_space : bool) (s : string) : bool :=
  match s with
  | EmptyString => true
  | String c r =>
      if Js.is_space c
      then Ascii.eqb c " " && negb after_space && single_spaced true r
      else single_spaced false r
  end.

(** [c] is the first element of [l] of the greatest text length. *)
Definition first_longest (c : Node) (l : list Node) : Prop :=
  exists before after,
    l = before ++ c :: after /\
    (forall x, In x before -> text_length x < text_length c) /\
    (forall x, In x after -> text_length x <= text_length c).

End TextExtractor.
(** ** Notions used to state what the scripts do *)

Module Notions.
Import Dom Registry Snapshot.
Local Open Scope list_scope.

(** The record of the attached element of identity [u]. *)
Definition record_of (pg : Page) (u : nat) : option Element :=
  match element_by_uid pg u with
  | Some (ElementNode e _) => Some e
  | _ => None
  end.

(** The identities of the attached elements, in document order. *)
Definition document_uids (pg : Page) : list nat :=
  match documentElement pg with
  | Some root => uids root
  | None => []
  end.

(** The elements that reach the last branch of the value setter: a
    textarea, or an input whose type none of the earlier tests names. *)
Definition text_like (e : Element) : bool :=
  String.eqb (tag e) "textarea" ||
  (String.eqb (tag e) "input" &&
   negb (String.eqb (type e) "checkbox") &&
   negb (String.eqb (type e) "radio") &&
   negb (ValueSetter.date_like (type e)) &&
   negb (String.eqb (type e) "range") &&
   negb (String.eqb (type e) "number")).

(** The controls of that branch on which [setSelectionRange] applies: a
    textarea, or an input of type text, search, url, tel or password. *)
Definition text_control (e : Element) : bool :=
  String.eqb (tag e) "textarea" ||
  (String.eqb (tag e) "input" &&
   Js.mem (type e) ["text"; "search"; "url"; "tel"; "password"]).

(** The elements for which the value setter has a branch. *)
Definition supported (e : Element) : bool :=
  String.eqb (tag e) "select" || String.eqb (tag e) "input" ||
  String.eqb (tag e) "textarea".

(** The message of the last [else] of the value setter. *)
Definition unsupported_message (e : Element) : string :=
  ("Element type " ++ Js.dq ++ tagName e ++ Js.dq ++
   " is not a supported form input")%string.

(** The trace of a branch that succeeds: the scroll, the focus, the caret
    move of the text branch if any, then the two events. *)
Definition success_trace (u : nat) (caret : list Action) : list Action :=
  [ScrollIntoView u "smooth" (Some "center") None; Focus u] ++ caret ++
  [DispatchEvent u "change" true; DispatchEvent u "input" true].

(** [<body><input type="radio"></body>]. *)
Definition radio_page : Page :=
  Sample.page [ElementNode (Sample.input 3 "radio" "on" false) []] [].

(** [<body><input type="date"></body>]. *)
Definition date_page : Page :=
  Sample.page [ElementNode (Sample.input 3 "date" EmptyString false) []] [].

(** [<body><input type="number" value="7"></body>]. *)
Definition number_page : Page :=
  Sample.page [ElementNode (Sample.input 3 "number" "7" false) []] [].

(** [<body><input type="text" value="abc"></body>]. *)
Definition text_page : Page :=
  Sample.page [ElementNode (Sample.input 3 "text" "abc" false) []] [].

(** The line pushed for the element [e] of children [kids] at [depth],
    under the reference [ref]. *)
Definition line (pg : Page) (e : Element) (kids : list Node) (depth : nat)
  (ref : string) : Emitted :=
  let name := getCleanName pg (ElementNode e kids) in
  {| em_uid := uid e; em_depth := depth; em_name := name; em_ref := ref;
     em_yaml := yaml_line e depth (getRole e) name ref |}.

(** The elements [processElement] pushes a line for, each with the depth of
    its line, in the order of the lines. *)
Fixpoint pushed (pg : Page) (filter : option string) (n : Node) (depth : nat)
  : list (Element * list Node * nat) :=
  match n with
  | TextNode _ => []
  | ElementNode e kids =>
      if 15 <? depth then []
      else if negb (Js.truthy (tagName e)) then []
      else
        let actuallyInclude :=
          shouldIncludeElement pg filter n || Nat.eqb depth 0 in
        (if actuallyInclude then [(e, kids, depth)] else []) ++
        (if depth <? 15 then
           flat_map
             (fun child =>
                pushed pg filter child
                  (if actuallyInclude then depth + 1 else depth))
             kids
         else [])
  end.

(** [em] is the line of the element and the depth [p] names. *)
Definition line_of (pg : Page) (p : Element * list Node * nat) (em : Emitted)
  : Prop :=
  em = line pg (fst (fst p)) (snd (fst p)) (snd p) (em_ref em).

(** The tests every element passes before the filter and the heuristics
    of [shouldIncludeElement] are consulted. *)
Definition perceivable (pg : Page) (filter : option string) (e : Element)
  : bool :=
  negb (Js.mem (tag e) ["script"; "style"; "meta"; "link"; "title"; "noscript"]) &&
  negb (attr_is e "aria-hidden" "true") &&
  isVisible e &&
  (filter_is filter "all" || inViewport pg e).

(** [<body><main>a long text</main><article>ab</article>
    <article>abcd</article><article>wxyz</article></body>]. *)
Definition article_page : Page :=
  Sample.page
    [ElementNode (Sample.element 3 "MAIN" []) [TextNode "a long text"];
     ElementNode (Sample.element 4 "ARTICLE" []) [TextNode "ab"];
     ElementNode (Sample.element 5 "ARTICLE" []) [TextNode "abcd"];
     ElementNode (Sample.element 6 "ARTICLE" []) [TextNode "wxyz"]] [].

(** [climbs prev l]: from [prev] on, no number of [l] exceeds the one
    before it by more than one. *)
Fixpoint climbs (prev : nat) (l : list nat) : Prop :=
  match l with
  | [] => True
  | k :: rest => k <= prev + 1 /\ climbs k rest
  end.

(** The depths of a walk started at depth [d]: none below [d], the first
    one [d], and no step up of more than one. *)
Definition stepped (d : nat) (l : list nat) : Prop :=
  Forall (fun k => d <= k) l /\
  match l with
  | [] => True
  | k :: rest => k = d /\ climbs k rest
  end.

(** The element [e] reported at another place. *)
Definition set_rect (r : DOMRect) (e : Element) : Element :=
  {| uid := uid e; tagName := tagName e; attributes := attributes e;
     computedDisplay := computedDisplay e;
     computedVisibility := computedVisibility e;
     computedOpacity := computedOpacity e;
     offsetWidth := offsetWidth e; offsetHeight := offsetHeight e;
     boundingClientRect := r;
     styleDisplay := styleDisplay e; styleVisibility := styleVisibility e;
     disabled := disabled e; type := type e; value := value e;
     checked := checked e;
     selectedIndex := selectedIndex e; options := options e;
     name := name e; min := min e; max := max e |}.

(** The same tree after the page was scrolled: every element has the
    bounding box [place] gives it, and nothing else has changed. *)
Fixpoint scrolled (place : Element -> DOMRect) (n : Node) : Node :=
  match n with
  | TextNode d => TextNode d
  | ElementNode e kids =>
      ElementNode (set_rect (place e) e) (map (scrolled place) kids)
  end.

(** The same page scrolled, in a window of another size. *)
Definition scrolled_page (place : Element -> DOMRect) (width height : Z)
  (pg : Page) : Page :=
  {| documentElement := option_map (scrolled place) (documentElement pg);
     collected := collected pg;
     innerWidth := width;
     innerHeight := height |}.

(** The name as a line shows it between quotes:
    [name.replace(/\s+/g, " ").substring(0, 100).replace(/"/g, '\\"')]. *)
Definition shown_name (name : string) : string :=
  Js.escape_quotes (Js.take 100 (Js.collapse_whitespace name)).

End Notions.

(** * Properties *)

(** ** The scripts on the sample pages *)

Module Examples.
Import Dom Registry Snapshot.

Example trim_example :
  Js.trim "  Save  changes " = "Save  changes".
Proof. reflexivity. Qed.

Example collapse_example :
  Js.collapse_whitespace " Save    changes " = " Save changes ".
Proof. reflexivity. Qed.

Example split_example : Js.split "/" "a/b//c" = ["a"; "b"; EmptyString; "c"].
Proof. reflexivity. Qed.

Example filename_example : filename "/img/logo.png?v=2" = "logo.png".
Proof. reflexivity. Qed.

Example bare_generic_example :
  Js.bare_generic "    - generic [ref=ref_12]" = true /\
  Js.bare_generic "- generic [ref=ref_12] id=main" = false /\
  Js.bare_generic "- generic [ref=ref_]" = false /\
  Js.bare_generic "- button [ref=ref_3]" = false.
Proof. repeat split. Qed.

Example ref_name_example : ref_name 12 = "ref_12".
Proof. reflexivity. Qed.

(** The default snapshot of [<body><nav><button>Go</button></nav></body>]. *)
Example nav_page_lines :
  map em_yaml (result (pass Sample.nav_page None [] 0)) =
  [ "- generic [ref=ref_1]";
    "  - navigation [ref=ref_2]";
    ("    - button " ++ Js.dq ++ "Go" ++ Js.dq ++ " [ref=ref_3]")%string ].
Proof. reflexivity. Qed.

Example nav_page_window :
  Sample.after_snapshot Sample.nav_page =
  {| claudeElementMap := Some [("ref_1", 2); ("ref_2", 3); ("ref_3", 4)];
     claudeRefCounter := 3 |}.
Proof. reflexivity. Qed.

(** The two plain [div]s around the button get no line, and the button sits
    just below the body. *)
Example wrapped_page_lines :
  map em_yaml (result (pass Sample.wrapped_page None [] 0)) =
  [ "- generic [ref=ref_1]";
    ("  - button " ++ Js.dq ++ "Go" ++ Js.dq ++ " [ref=ref_2]")%string ].
Proof. reflexivity. Qed.

(** Without an installed map the call throws the wrapped error. *)
Example snapshot_without_map :
  generateAccessibilityTree Sample.nav_page None fresh =
  ({| claudeElementMap := None; claudeRefCounter := 1 |},
   Throw "Error generating accessibility tree: Cannot set properties of undefined (setting 'ref_1')").
Proof. reflexivity. Qed.

Example locate_button :
  let o :=
    Locator.get_element Sample.button_page
      (Sample.after_snapshot Sample.button_page) "ref_2" in
  out_actions o = [ScrollIntoView 3 "instant" (Some "center") (Some "center")] /\
  match out_result o with
  | Locator.Success l =>
      (fst (Locator.coordinates l) == 60)%Q /\
      (snd (Locator.coordinates l) == 20)%Q /\
      Locator.elementInfo l = "button" /\
      Locator.isVisible l = true /\ Locator.isInteractable l = true
  | Locator.Failure _ _ => False
  end.
Proof. simpl. repeat split. Qed.

(** A reference that names a member of [Object.prototype] reaches the
    [catch] clause. *)
Example locate_inherited :
  out_result
    (Locator.get_element Sample.button_page
       (Sample.after_snapshot Sample.button_page) "valueOf") =
  Locator.Failure "get_element"
    "Error finding element by reference: weakRef.deref is not a function".
Proof. reflexivity. Qed.

Example select_purple :
  out_result
    (ValueSetter.form_input (host := Sample.host) Sample.select_page
       (Sample.after_snapshot Sample.select_page) "ref_2"
       (ValueSetter.Str "Purple")) =
  ValueSetter.Failure "form_input"
    ("Option " ++ Js.dq ++ "Purple" ++ Js.dq ++
     " not found. Available options: " ++
     Js.dq ++ "Blue" ++ Js.dq ++ " (value: " ++ Js.dq ++ "b" ++ Js.dq ++ ")")%string.
Proof. reflexivity. Qed.

Example range_abc :
  out_result
    (ValueSetter.form_input (host := Sample.host) Sample.range_page
       (Sample.after_snapshot Sample.range_page) "ref_2"
       (ValueSetter.Str "abc")) =
  ValueSetter.Failure "form_input" "Range input requires a numeric value".
Proof. reflexivity. Qed.

Example button_unsupported :
  out_result
    (ValueSetter.form_input (host := Sample.host) Sample.button_page
       (Sample.after_snapshot Sample.button_page) "ref_2"
       (ValueSetter.Str "abc")) =
  ValueSetter.Failure "form_input"
    ("Element type " ++ Js.dq ++ "BUTTON" ++ Js.dq ++
     " is not a supported form input")%string.
Proof. reflexivity. Qed.

End Examples.

(** ** Trees and lists *)

Module TreeFacts.
Import Dom.
Local Open Scope list_scope.

Section Induction.
Variable P : Node -> Prop.
Hypothesis text_case : forall d, P (TextNode d).
Hypothesis element_case :
  forall e kids, Forall P kids -> P (ElementNode e kids).

Lemma node_induction : forall n, P n.
Proof.
  fix IH 1. intros [d | e kids].
  - apply text_case.
  - apply element_case.
    induction kids as [| k kids IHkids]; constructor.
    + apply IH.
    + exact IHkids.
Qed.

End Induction.

Lemma fold_left_invariant (A B : Type) (f : A -> B -> A) (I : A -> Prop)
  (l : list B) :
  (forall a b, In b l -> I a -> I (f a b)) ->
  forall a, I a -> I (fold_left f l a).
Proof.
  induction l as [| b l IHl]; intros Hstep a Ha; simpl.
  - exact Ha.
  - apply IHl.
    + intros a' b' Hin. apply Hstep. now right.
    + apply Hstep; [now left | exact Ha].
Qed.

Lemma existsb_has_uid_find (u : nat) (l : list Node) :
  existsb (has_uid u) l = false <-> find (has_uid u) l = None.
Proof.
  induction l as [| n l IHl]; simpl.
  - tauto.
  - destruct (has_uid u n); simpl; [split; discriminate | exact IHl].
Qed.

(** [document.contains] fails exactly when no attached element has the
    identity. *)
Lemma contains_false (pg : Page) (u : nat) :
  contains pg u = false <-> element_by_uid pg u = None.
Proof. apply existsb_has_uid_find. Qed.

Lemma find_has_uid (u : nat) (l : list Node) (n : Node) :
  find (has_uid u) l = Some n ->
  exists e kids, n = ElementNode e kids /\ uid e = u.
Proof.
  intros H. apply find_some in H. destruct H as [_ H].
  destruct n as [d | e kids]; simpl in H; [discriminate |].
  exists e, kids. split; [reflexivity | now apply Nat.eqb_eq].
Qed.

Lemma elements_update (u : nat) (f : Element -> Element) (n : Node) :
  elements (update u f n) = map (update u f) (elements n).
Proof.
  induction n as [d | e kids IH] using node_induction; simpl.
  - reflexivity.
  - f_equal. induction IH as [| k kids Hk _ IHkids]; simpl.
    + reflexivity.
    + rewrite map_app, Hk, IHkids. reflexivity.
Qed.

Lemma find_update (u : nat) (f : Element -> Element) (l : list Node) :
  (forall e, uid (f e) = uid e) ->
  find (has_uid u) (map (update u f) l) =
  option_map (update u f) (find (has_uid u) l).
Proof.
  intros Huid. induction l as [| n l IHl]; simpl.
  - reflexivity.
  - assert (Hsame : has_uid u (update u f n) = has_uid u n).
    { destruct n as [d | e kids]; simpl; [reflexivity |].
      destruct (Nat.eqb (uid e) u) eqn:E; [rewrite Huid |]; exact E. }
    rewrite Hsame. destruct (has_uid u n); [reflexivity | exact IHl].
Qed.

(** After a write on the element of identity [u], the page holds the new
    record for it. *)
Lemma element_by_uid_update (pg : Page) (u : nat) (f : Element -> Element)
  (e : Element) (kids : list Node) :
  (forall e', uid (f e') = uid e') ->
  element_by_uid pg u = Some (ElementNode e kids) ->
  element_by_uid (update_page u f pg) u =
  Some (ElementNode (f e) (map (update u f) kids)).
Proof.
  intros Huid H. unfold element_by_uid, document_elements in *. simpl.
  destruct (documentElement pg) as [root |]; simpl in *; [| discriminate].
  rewrite elements_update, find_update by exact Huid.
  rewrite H. simpl.
  apply find_has_uid in H. destruct H as [e0 [k0 [H0 Hu]]].
  injection H0 as <- <-. now rewrite Hu, Nat.eqb_refl.
Qed.

End TreeFacts.

(** ** The registry *)

Module RegistryFacts.
Import Dom Registry Inv.
Local Open Scope list_scope.

Lemma ref_name_inj (a b : nat) : ref_name a = ref_name b -> a = b.
Proof.
  unfold ref_name, Js.string_of_nat. simpl. intros H.
  injection H as H.
  apply (f_equal NilEmpty.uint_of_string) in H.
  rewrite !NilEmpty.usu in H. injection H as H.
  apply (f_equal Nat.of_uint) in H.
  now rewrite !Unsigned.of_to in H.
Qed.

Lemma ref_name_truthy (n : nat) : Js.truthy (ref_name n) = true.
Proof. reflexivity. Qed.

(** [deref] yields the target itself, and only while it is not collected. *)
Lemma deref_some (pg : Page) (r u : nat) :
  deref pg r = Some u <-> u = r /\ ~ In r (collected pg).
Proof.
  unfold deref. destruct (existsb (Nat.eqb r) (collected pg)) eqn:E.
  - split; [discriminate |]. intros [_ Hn]. exfalso. apply Hn.
    apply existsb_exists in E. destruct E as [x [Hx Hr]].
    apply Nat.eqb_eq in Hr. now subst.
  - split.
    + intros H. injection H as <-. split; [reflexivity |].
      intros Hin.
      assert (existsb (Nat.eqb r) (collected pg) = true).
      { apply existsb_exists. exists r. split; [exact Hin | apply Nat.eqb_refl]. }
      congruence.
    + intros [-> _]. reflexivity.
Qed.

Lemma deref_none (pg : Page) (r : nat) :
  deref pg r = None <-> In r (collected pg).
Proof.
  unfold deref. destruct (existsb (Nat.eqb r) (collected pg)) eqn:E.
  - split; [| reflexivity]. intros _.
    apply existsb_exists in E. destruct E as [x [Hx Hr]].
    apply Nat.eqb_eq in Hr. now subst.
  - split; [discriminate |]. intros Hin.
    assert (existsb (Nat.eqb r) (collected pg) = true).
    { apply existsb_exists. exists r. split; [exact Hin | apply Nat.eqb_refl]. }
    congruence.
Qed.

Lemma own_in (m : ElementMap) (k : string) (r : WeakRef) :
  own m k = Some r -> In (k, r) m.
Proof.
  induction m as [| [k' r'] m IHm]; simpl; [discriminate |].
  destruct (String.eqb k' k) eqn:E.
  - apply String.eqb_eq in E. intros H. injection H as <-. subst. now left.
  - intros H. right. now apply IHm.
Qed.

Lemma own_none (m : ElementMap) (k : string) :
  own m k = None <-> ~ In k (keys m).
Proof.
  induction m as [| [k' r'] m IHm]; simpl.
  - tauto.
  - destruct (String.eqb k' k) eqn:E.
    + apply String.eqb_eq in E. split; [discriminate |]. intros H. tauto.
    + apply String.eqb_neq in E. rewrite IHm. tauto.
Qed.

Lemma own_app (m l : ElementMap) (k : string) :
  own (m ++ l) k =
  match own m k with
  | Some r => Some r
  | None => own l k
  end.
Proof.
  induction m as [| [k' r'] m IHm]; simpl; [reflexivity |].
  destruct (String.eqb k' k); [reflexivity | exact IHm].
Qed.

(** A deleted reference has no entry left; the others keep theirs. *)
Lemma own_delete (m : ElementMap) (k k' : string) :
  own (delete k m) k' = if String.eqb k k' then None else own m k'.
Proof.
  induction m as [| [k0 r0] m IHm]; simpl.
  - now destruct (String.eqb k k').
  - destruct (String.eqb k0 k) eqn:E0; simpl.
    + apply String.eqb_eq in E0. subst k0. rewrite IHm.
      now destruct (String.eqb k k').
    + rewrite IHm. destruct (String.eqb k0 k') eqn:E1; [| reflexivity].
      apply String.eqb_eq in E1. subst k0.
      apply String.eqb_neq in E0.
      destruct (String.eqb k k') eqn:E2; [| reflexivity].
      apply String.eqb_eq in E2. congruence.
Qed.

Lemma in_delete (m : ElementMap) (k : string) (p : string * WeakRef) :
  In p (delete k m) -> In p m.
Proof. unfold delete. intros H. apply filter_In in H. tauto. Qed.

(** Storing under a key the map does not hold appends the entry. *)
Lemma assign_fresh (m : ElementMap) (k : string) (r : WeakRef) :
  ~ In k (keys m) -> assign k r m = m ++ [(k, r)].
Proof.
  induction m as [| [k' r'] m IHm]; simpl; intros H; [reflexivity |].
  destruct (String.eqb k' k) eqn:E.
  - apply String.eqb_eq in E. tauto.
  - rewrite IHm; tauto.
Qed.

Lemma grows_refl (m : ElementMap) (c : nat) : grows m c m c.
Proof.
  split; [lia |]. exists []. split; [now rewrite app_nil_r |].
  intros k r [].
Qed.

Lemma grows_trans (m1 m2 m3 : ElementMap) (c1 c2 c3 : nat) :
  grows m1 c1 m2 c2 -> grows m2 c2 m3 c3 -> grows m1 c1 m3 c3.
Proof.
  intros [H1 [l1 [E1 K1]]] [H2 [l2 [E2 K2]]].
  split; [lia |]. exists (l1 ++ l2). split.
  - now rewrite E2, E1, app_assoc.
  - intros k r Hin. apply in_app_or in Hin. destruct Hin as [Hin | Hin].
    + destruct (K1 k r Hin) as [n [Hk Hn]]. exists n. split; [exact Hk | lia].
    + destruct (K2 k r Hin) as [n [Hk Hn]]. exists n. split; [exact Hk | lia].
Qed.

Lemma grows_well_keyed (m m' : ElementMap) (c c' : nat) :
  well_keyed m c -> grows m c m' c' -> well_keyed m' c'.
Proof.
  intros Hwk [Hc [l [E K]]] k r Hin. subst m'.
  apply in_app_or in Hin. destruct Hin as [Hin | Hin].
  - destruct (Hwk k r Hin) as [n [Hk Hn]]. exists n. split; [exact Hk | lia].
  - destruct (K k r Hin) as [n [Hk Hn]]. exists n. split; [exact Hk | lia].
Qed.

Lemma well_keyed_fresh (m : ElementMap) (c n : nat) :
  well_keyed m c -> c < n -> ~ In (ref_name n) (keys m).
Proof.
  intros Hwk Hn Hin. unfold keys in Hin. apply in_map_iff in Hin.
  destruct Hin as [[k r] [Hk Hin]]. simpl in Hk. subst k.
  destruct (Hwk _ _ Hin) as [n' [Hk Hn']].
  apply ref_name_inj in Hk. lia.
Qed.

Lemma well_keyed_sub (m m' : ElementMap) (c : nat) :
  well_keyed m c -> (forall p, In p m' -> In p m) -> well_keyed m' c.
Proof. intros Hwk Hsub k r Hin. apply (Hwk k r). now apply Hsub. Qed.

End RegistryFacts.

(** ** The traversal *)

Module SnapshotFacts.
Import Dom Registry Snapshot Inv RegistryFacts TreeFacts.
Local Open Scope list_scope.

(** The loop finds an entry of the element, which is then not collected. *)
Lemma existing_ref_sound (pg : Page) (m : ElementMap) (u : nat) (k : string) :
  existing_ref pg m u = Some k -> In (k, u) m /\ ~ In u (collected pg).
Proof.
  induction m as [| [k' r'] m IHm]; simpl; [discriminate |].
  destruct (deref pg r') as [x |] eqn:D.
  - apply deref_some in D. destruct D as [-> D].
    destruct (Nat.eqb r' u) eqn:E.
    + apply Nat.eqb_eq in E. subst r'. intros H. injection H as <-.
      split; [now left | exact D].
    + intros H. destruct (IHm H). split; [now right | assumption].
  - intros H. destruct (IHm H). split; [now right | assumption].
Qed.

(** The loop misses no entry of an element that is not collected. *)
Lemma existing_ref_complete (pg : Page) (m : ElementMap) (u : nat) :
  existing_ref pg m u = None -> ~ In u (collected pg) -> ~ In u (map snd m).
Proof.
  induction m as [| [k' r'] m IHm]; simpl; intros H Hu; [tauto |].
  intros [-> | Hin].
  - assert (D : deref pg u = Some u) by (apply deref_some; tauto).
    rewrite D, Nat.eqb_refl in H. discriminate.
  - destruct (deref pg r') as [x |].
    + destruct (Nat.eqb x u); [discriminate |]. now apply IHm.
    + now apply IHm.
Qed.

Lemma advance_refl (t : Traversal) : advance t t.
Proof.
  split; [apply grows_refl |]. exists []. now rewrite app_nil_r.
Qed.

Lemma advance_trans (t1 t2 t3 : Traversal) :
  advance t1 t2 -> advance t2 t3 -> advance t1 t3.
Proof.
  intros [G1 [l1 R1]] [G2 [l2 R2]]. split.
  - eapply grows_trans; eassumption.
  - exists (l1 ++ l2). now rewrite R2, R1, app_assoc.
Qed.

Lemma advance_keyed (t t' : Traversal) : keyed t -> advance t t' -> keyed t'.
Proof. intros K [G _]. eapply grows_well_keyed; eassumption. Qed.

Lemma mint_grows (m : ElementMap) (c u : nat) :
  well_keyed m c ->
  mint m c u = (ref_name (S c), m ++ [(ref_name (S c), u)], S c) /\
  grows m c (m ++ [(ref_name (S c), u)]) (S c).
Proof.
  intros K. unfold mint. rewrite assign_fresh.
  - split; [reflexivity |]. split; [lia |].
    exists [(ref_name (S c), u)]. split; [reflexivity |].
    intros k r [H | []]. injection H as <- <-. exists (S c). split; [reflexivity | lia].
  - eapply well_keyed_fresh; [exact K | lia].
Qed.

(** What [allocate] does: it either returns the id of an entry of the
    element and changes nothing, or appends an entry under the next id. *)
Lemma allocate_cases (pg : Page) (m : ElementMap) (c u : nat) :
  well_keyed m c ->
  (exists k, existing_ref pg m u = Some k /\ allocate pg m c u = (k, m, c)) \/
  (existing_ref pg m u = None /\
   allocate pg m c u = (ref_name (S c), m ++ [(ref_name (S c), u)], S c)).
Proof.
  intros K. unfold allocate.
  destruct (existing_ref pg m u) as [k |] eqn:E.
  - left. exists k. split; [reflexivity |].
    apply existing_ref_sound in E. destruct E as [Hin _].
    destruct (K _ _ Hin) as [n [-> _]]. now rewrite ref_name_truthy.
  - right. split; [reflexivity |]. now apply mint_grows.
Qed.

Lemma allocate_grows (pg : Page) (m : ElementMap) (c u : nat)
  (k : string) (m' : ElementMap) (c' : nat) :
  well_keyed m c -> allocate pg m c u = (k, m', c') ->
  grows m c m' c' /\ In (k, u) m'.
Proof.
  intros K A. destruct (allocate_cases pg m c u K) as [[k0 [E A']] | [E A']];
    rewrite A' in A; injection A as <- <- <-.
  - split; [apply grows_refl |]. now apply existing_ref_sound in E.
  - split; [now apply mint_grows |]. apply in_or_app. right. now left.
Qed.

Lemma include_advance (pg : Page) (n : Node) (e : Element) (d : nat)
  (t : Traversal) :
  keyed t -> advance t (include pg n e d t).
Proof.
  intros K. unfold include.
  destruct (allocate pg (elementMap t) (refCounter t) (uid e))
    as [[k m'] c'] eqn:A.
  apply allocate_grows in A; [| exact K]. destruct A as [G _].
  split; simpl; [exact G |]. eexists. reflexivity.
Qed.

(** [processElement] on an element, unfolded once. *)
Lemma processElement_element (pg : Page) (filter : option string)
  (e : Element) (kids : list Node) (d : nat) (t : Traversal) :
  processElement pg filter (ElementNode e kids) d t =
  if 15 <? d then t
  else if negb (Js.truthy (tagName e)) then t
  else
    let inc :=
      shouldIncludeElement pg filter (ElementNode e kids) || Nat.eqb d 0 in
    let t1 := if inc then include pg (ElementNode e kids) e d t else t in
    if d <? 15 then
      fold_left
        (fun acc child =>
           processElement pg filter child (if inc then d + 1 else d) acc)
        kids t1
    else t1.
Proof. reflexivity. Qed.

(** Invariants of the traversal.  A property of the state that the block
    run for an included element preserves, for the elements of the tree
    walked, is preserved by [processElement]. *)
Lemma processElement_invariant (pg : Page) (filter : option string)
  (I : Traversal -> Prop) (Q : nat -> Prop) :
  (forall n e d t, Q (uid e) -> I t -> I (include pg n e d t)) ->
  forall n, Forall Q (uids n) ->
  forall d t, I t -> I (processElement pg filter n d t).
Proof.
  intros Hinc n.
  induction n as [s | e kids IH] using node_induction; intros Hn d t It.
  - exact It.
  - rewrite processElement_element.
    destruct (15 <? d); [exact It |].
    destruct (negb (Js.truthy (tagName e))); [exact It |].
    cbv zeta.
    simpl in Hn. apply Forall_cons_iff in Hn. destruct Hn as [Hu Hkids].
    rewrite Forall_flat_map in Hkids.
    set (inc := shouldIncludeElement pg filter (ElementNode e kids) || Nat.eqb d 0).
    set (t1 := if inc then include pg (ElementNode e kids) e d t else t).
    assert (I1 : I t1).
    { subst t1. destruct inc; [now apply Hinc | exact It]. }
    destruct (d <? 15); [| exact I1].
    apply (fold_left_invariant _ _ _ I); [| exact I1].
    intros a b Hin Ia. rewrite Forall_forall in IH, Hkids.
    apply IH; auto.
Qed.

Lemma uids_any (n : Node) : Forall (fun _ => True) (uids n).
Proof. apply Forall_forall. intros u _. exact I. Qed.

(** The traversal only adds entries, under new ids, and only pushes lines. *)
Lemma processElement_advance (pg : Page) (filter : option string) (n : Node) :
  forall d t, keyed t -> advance t (processElement pg filter n d t).
Proof.
  intros d t K.
  apply (processElement_invariant pg filter
           (fun t' => keyed t' /\ advance t t') (fun _ => True)).
  - intros n' e d' t' _ [K' A']. pose proof (include_advance pg n' e d' t' K').
    split; [eapply advance_keyed | eapply advance_trans]; eassumption.
  - apply uids_any.
  - split; [exact K | apply advance_refl].
Qed.

Lemma in_cleanup (pg : Page) (m : ElementMap) (k : string) (r : WeakRef) :
  In (k, r) (cleanup pg m) <-> In (k, r) m /\ ~ In r (collected pg).
Proof.
  unfold cleanup. rewrite filter_In. simpl.
  destruct (deref pg r) as [x |] eqn:D.
  - apply deref_some in D. intuition.
  - apply deref_none in D. intuition discriminate.
Qed.

Lemma single_snoc (m : ElementMap) (k : string) (u : nat) :
  single m -> ~ In u (map snd m) -> single (m ++ [(k, u)]).
Proof.
  intros S Hu k1 k2 v H1 H2.
  apply in_app_or in H1. apply in_app_or in H2.
  assert (Hsnd : forall k0, In (k0, u) m -> False).
  { intros k0 H0. apply Hu. apply in_map_iff. exists (k0, u). tauto. }
  destruct H1 as [H1 | [H1 | []]], H2 as [H2 | [H2 | []]].
  - eapply S; eassumption.
  - injection H2 as <- <-. exfalso. eauto.
  - injection H1 as <- <-. exfalso. eauto.
  - congruence.
Qed.

Lemma include_consistent (pg : Page) (n : Node) (e : Element) (d : nat)
  (t : Traversal) :
  ~ In (uid e) (collected pg) ->
  consistent pg t -> consistent pg (include pg n e d t).
Proof.
  intros Hu [K [S L]].
  assert (A : advance t (include pg n e d t)) by now apply include_advance.
  split; [eapply advance_keyed; eassumption |].
  unfold include in *.
  destruct (allocate_cases pg (elementMap t) (refCounter t) (uid e) K)
    as [[k [E ->]] | [E ->]]; simpl.
  - apply existing_ref_sound in E. destruct E as [Hin _].
    split; [exact S |].
    intros em Hem. apply in_app_or in Hem. destruct Hem as [Hem | [<- | []]].
    + now apply L.
    + simpl. tauto.
  - split.
    + apply single_snoc; [exact S |]. now apply existing_ref_complete with (pg := pg).
    + intros em Hem. apply in_app_or in Hem. destruct Hem as [Hem | [<- | []]].
      * destruct (L em Hem) as [H1 H2]. split; [| exact H2].
        apply in_or_app. now left.
      * simpl. split; [| exact Hu]. apply in_or_app. right. now left.
Qed.

(** The traversal of a tree none of whose elements is collected keeps the
    registry consistent. *)
Lemma processElement_consistent (pg : Page) (filter : option string) (n : Node) :
  Forall (fun u => ~ In u (collected pg)) (uids n) ->
  forall d t, consistent pg t -> consistent pg (processElement pg filter n d t).
Proof.
  apply processElement_invariant.
  intros n' e d t Hu. now apply include_consistent.
Qed.

Lemma cleanup_single (pg : Page) (m : ElementMap) :
  single m -> single (cleanup pg m).
Proof.
  intros S k k' u H1 H2. apply in_cleanup in H1, H2.
  eapply S; [apply H1 | apply H2].
Qed.

Lemma cleanup_well_keyed (pg : Page) (m : ElementMap) (c : nat) :
  well_keyed m c -> well_keyed (cleanup pg m) c.
Proof.
  intros K. apply (well_keyed_sub m); [exact K |].
  intros [k r] H. now apply in_cleanup in H.
Qed.

(** The identities of the body are among those of the document. *)
Lemma body_uids (pg : Page) (b : Node) (u : nat) :
  body pg = Some b -> In u (uids b) ->
  exists root, documentElement pg = Some root /\ In u (uids root).
Proof.
  unfold body. destruct (documentElement pg) as [[s | e kids] |];
    try discriminate.
  intros Hb Hu. apply find_some in Hb. destruct Hb as [Hin _].
  eexists. split; [reflexivity |]. simpl. right.
  apply in_flat_map. exists b. tauto.
Qed.

(** A pass on a page whose attached elements are alive keeps the registry
    consistent: its lines are linked to entries that survive the cleanup. *)
Lemma pass_consistent (pg : Page) (filter : option string) (m : ElementMap)
  (c : nat) :
  attached_alive pg -> well_keyed m c -> single m ->
  consistent pg (pass pg filter m c).
Proof.
  intros Hpg K S. unfold pass.
  set (t0 := {| elementMap := m; refCounter := c; result := [] |}).
  assert (C0 : consistent pg t0).
  { split; [exact K |]. split; [exact S |]. intros em []. }
  assert (C : consistent pg
                match body pg with
                | Some b => processElement pg filter b 0 t0
                | None => t0
                end).
  { destruct (body pg) as [b |] eqn:B; [| exact C0].
    apply processElement_consistent; [| exact C0].
    apply Forall_forall. intros u Hu.
    destruct (body_uids pg b u B Hu) as [root [Hr Hin]].
    eapply Hpg; eassumption. }
  destruct C as [K' [S' L']].
  split; [now apply cleanup_well_keyed |]. simpl.
  split; [now apply cleanup_single |].
  intros em Hem. destruct (L' em Hem) as [H1 H2].
  split; [| exact H2]. apply in_cleanup. tauto.
Qed.

(** An entry whose target is not collected is still there after a pass. *)
Lemma pass_keeps (pg : Page) (filter : option string) (m : ElementMap)
  (c : nat) (k : string) (u : nat) :
  well_keyed m c -> In (k, u) m -> ~ In u (collected pg) ->
  In (k, u) (elementMap (pass pg filter m c)).
Proof.
  intros K Hin Hu. unfold pass. simpl. apply in_cleanup. split; [| exact Hu].
  set (t0 := {| elementMap := m; refCounter := c; result := [] |}).
  assert (A : advance t0
                match body pg with
                | Some b => processElement pg filter b 0 t0
                | None => t0
                end).
  { destruct (body pg); [now apply processElement_advance | apply advance_refl]. }
  destruct A as [[_ [l [-> _]]] _]. apply in_or_app. now left.
Qed.

(** With an entry of a live element in the registry, [allocate] returns its
    id and leaves the registry and the counter as they are. *)
Lemma allocate_reuses (pg : Page) (m : ElementMap) (c : nat) (k : string)
  (u : nat) :
  well_keyed m c -> single m -> In (k, u) m -> ~ In u (collected pg) ->
  allocate pg m c u = (k, m, c).
Proof.
  intros K S Hin Hu.
  destruct (allocate_cases pg m c u K) as [[k0 [E ->]] | [E _]].
  - apply existing_ref_sound in E. destruct E as [H0 _].
    now rewrite (S k0 k u H0 Hin).
  - exfalso. apply (existing_ref_complete pg m u E Hu).
    apply in_map_iff. exists (k, u). tauto.
Qed.

(** Identity stability on a registry in order: allocation for a live
    element that has an entry returns the id of that entry, and two
    successive passes over the same page emit the same id for every element
    they both emit. *)
Lemma stable_references (pg : Page) (f1 f2 : option string)
  (m : ElementMap) (c : nat) :
  attached_alive pg -> well_keyed m c -> single m ->
  (forall k u, In (k, u) m -> ~ In u (collected pg) ->
     allocate pg m c u = (k, m, c)) /\
  (let t1 := pass pg f1 m c in
   let t2 := pass pg f2 (elementMap t1) (refCounter t1) in
   forall a b, In a (result t1) -> In b (result t2) ->
     em_uid a = em_uid b -> em_ref a = em_ref b).
Proof.
  intros Hpg K S. split.
  - intros k u. now apply allocate_reuses.
  - intros t1 t2 a b Ha Hb Hab.
    destruct (pass_consistent pg f1 m c Hpg K S) as [K1 [S1 L1]].
    fold t1 in K1, S1, L1.
    destruct (pass_consistent pg f2 (elementMap t1) (refCounter t1) Hpg K1 S1)
      as [K2 [S2 L2]].
    fold t2 in K2, S2, L2.
    destruct (L1 a Ha) as [Ha1 Ha2]. destruct (L2 b Hb) as [Hb1 _].
    apply (S2 (em_ref a) (em_ref b) (em_uid b)); [| exact Hb1].
    rewrite <- Hab. now apply pass_keeps.
Qed.

Lemma sample_attached_alive (kids : list Node) :
  attached_alive (Sample.page kids []).
Proof. intros root u _ _ []. Qed.

(** The call on an installed map: one pass, then the post-filter. *)
Lemma generate_installed (pg : Page) (filter : option string) (w : Window)
  (m : ElementMap) :
  claudeElementMap w = Some m ->
  generateAccessibilityTree pg filter w =
  ({| claudeElementMap :=
        Some (elementMap (pass pg filter m (claudeRefCounter w)));
      claudeRefCounter := refCounter (pass pg filter m (claudeRefCounter w)) |},
   Normal
     {| pageContent :=
          render (map em_yaml (result (pass pg filter m (claudeRefCounter w))));
        viewport := (innerWidth pg, innerHeight pg) |}).
Proof. intros M. unfold generateAccessibilityTree. now rewrite M. Qed.

(** C3, garbage collection, as the code has it.  After a snapshot every
    entry left in the registry has a handle that still dereferences: the
    cleanup removes the entries of collected elements.  It removes no other:
    an entry whose element is not collected, attached or not, is still there
    after the snapshot. *)
Theorem cleanup_removes_collected (pg : Page) (filter : option string)
  (w : Window) (m m' : ElementMap) :
  claudeElementMap w = Some m -> well_keyed m (claudeRefCounter w) ->
  claudeElementMap (fst (generateAccessibilityTree pg filter w)) = Some m' ->
  (forall k r, In (k, r) m' -> deref pg r = Some r) /\
  (forall k r, In (k, r) m -> deref pg r = Some r -> In (k, r) m').
Proof.
  intros M K. rewrite (generate_installed pg filter w m M). cbn [fst claudeElementMap].
  intros H. injection H as <-. split.
  - intros k r Hin. unfold pass in Hin. cbn [elementMap] in Hin.
    apply in_cleanup in Hin. apply deref_some. tauto.
  - intros k r Hin D. apply deref_some in D.
    apply pass_keeps; tauto.
Qed.

Lemma cleanup_removes_collected_witness :
  let w := Sample.after_snapshot Sample.nav_page in
  let m := [("ref_1", 2); ("ref_2", 3); ("ref_3", 4)] in
  let pg := Sample.page [] [4] in
  claudeElementMap w = Some m /\ well_keyed m (claudeRefCounter w) /\
  claudeElementMap (fst (generateAccessibilityTree pg None w)) =
    Some [("ref_1", 2); ("ref_2", 3)] /\
  (forall k r, In (k, r) [("ref_1", 2); ("ref_2", 3)] -> deref pg r = Some r) /\
  In ("ref_2", 3) [("ref_1", 2); ("ref_2", 3)].
Proof.
  intros w m pg.
  assert (K : well_keyed m (claudeRefCounter w)).
  { intros k r [H | [H | [H | []]]]; injection H as <- <-;
      [exists 1 | exists 2 | exists 3]; (split; [reflexivity | simpl; lia]). }
  destruct (cleanup_removes_collected pg None w m [("ref_1", 2); ("ref_2", 3)]
              eq_refl K eq_refl) as [T1 T2].
  split; [reflexivity |]. split; [exact K |]. split; [reflexivity |].
  split; [exact T1 |].
  apply T2; [right; now left | reflexivity].
Defined.

(** The button of [Sample.button_page] got the reference [ref_2]; once it is
    detached, without being collected, a further snapshot leaves the entry
    in the registry. *)
Lemma detached_entry_survives :
  let w := Sample.after_snapshot Sample.button_page in
  let w' := fst (generateAccessibilityTree Sample.empty_page None w) in
  Session.binding w "ref_2" = Some 3 /\
  contains Sample.button_page 3 = true /\
  contains Sample.empty_page 3 = false /\
  Session.binding w' "ref_2" = Some 3.
Proof. vm_compute. repeat split. Qed.

(** *** The root line and the post-filter *)

Lemma is_body_tagged (e : Element) (kids : list Node) :
  is_body (ElementNode e kids) = true -> Js.truthy (tagName e) = true.
Proof.
  unfold is_body, tag. destruct (tagName e); [discriminate | reflexivity].
Qed.

Lemma body_is_element (pg : Page) (b : Node) :
  body pg = Some b ->
  exists e kids, b = ElementNode e kids /\ Js.truthy (tagName e) = true.
Proof.
  unfold body. destruct (documentElement pg) as [[s | r rkids] |];
    try discriminate.
  intros H. apply find_some in H. destruct H as [_ H].
  destruct b as [s | e kids]; [discriminate |].
  exists e, kids. split; [reflexivity | now apply is_body_tagged in H].
Qed.
















(** *** The filters *)










(** *** Wrappers *)






End SnapshotFacts.

(** ** Resolution of a reference *)

Module ResolveFacts.
Import Dom Registry Inv RegistryFacts TreeFacts.
Local Open Scope list_scope.

Lemma prefix_empty (s : string) : String.prefix EmptyString s = true.
Proof. now destruct s. Qed.

Lemma prefix_app (a b : string) : String.prefix a (a ++ b)%string = true.
Proof.
  induction a as [| c a IHa]; simpl; [apply prefix_empty |].
  destruct (Ascii.ascii_dec c c); [exact IHa | congruence].
Qed.

Lemma prefix_app_l (kw a b : string) :
  String.prefix kw a = true -> String.prefix kw (a ++ b)%string = true.
Proof.
  revert a. induction kw as [| c kw IHkw]; intros a; [intros _; apply prefix_empty |].
  destruct a as [| c' a]; simpl; [discriminate |].
  destruct (Ascii.ascii_dec c c'); [apply IHkw | discriminate].
Qed.

Lemma includes_prefix (s kw : string) :
  String.prefix kw s = true -> Js.includes s kw = true.
Proof. intros H. destruct s; cbn [Js.includes]; rewrite H; reflexivity. Qed.

Lemma includes_app_l (a b kw : string) :
  Js.includes a kw = true -> Js.includes (a ++ b)%string kw = true.
Proof.
  induction a as [| c a IHa]; simpl.
  - rewrite orb_false_r. intros H.
    destruct kw as [| c kw]; simpl in H; [| discriminate H].
    apply includes_prefix, prefix_empty.
  - intros H. apply orb_true_iff in H. apply orb_true_iff.
    destruct H as [H | H].
    + left. now apply (prefix_app_l kw (String c a) b).
    + right. now apply IHa.
Qed.

Lemma includes_app_r (a b kw : string) :
  Js.includes b kw = true -> Js.includes (a ++ b)%string kw = true.
Proof.
  intros H. induction a as [| c a IHa]; simpl; [exact H |].
  rewrite IHa. apply orb_true_r.
Qed.

(** The failure message names the reference. *)
Lemma not_found_names (elementRef : string) :
  Js.includes (not_found_message elementRef) elementRef = true.
Proof.
  unfold not_found_message.
  apply includes_app_r, includes_app_r, includes_prefix, prefix_app.
Qed.

Lemma window_eta (w : Window) :
  {| claudeElementMap := claudeElementMap w;
     claudeRefCounter := claudeRefCounter w |} = w.
Proof. now destruct w. Qed.

(** The entry of a reference whose element is collected or detached is
    deleted, and nothing is found. *)
Lemma resolve_stale (pg : Page) (w : Window) (elementRef : string)
  (m : ElementMap) (r : WeakRef) :
  claudeElementMap w = Some m -> own m elementRef = Some r ->
  In r (collected pg) \/ contains pg r = false ->
  resolve pg w elementRef =
  ({| claudeElementMap := Some (delete elementRef m);
      claudeRefCounter := claudeRefCounter w |}, Normal None).
Proof.
  intros M O H. unfold resolve, get. rewrite M, O.
  destruct (deref pg r) as [u |] eqn:D; [| reflexivity].
  apply deref_some in D. destruct D as [-> D].
  destruct H as [H | H]; [tauto |].
  apply contains_false in H. now rewrite H.
Qed.

(** What a successful resolution tells. *)
Lemma resolve_found (pg : Page) (w w' : Window) (elementRef : string)
  (n : Node) :
  resolve pg w elementRef = (w', Normal (Some n)) ->
  w' = w /\
  exists e kids m,
    n = ElementNode e kids /\
    element_by_uid pg (uid e) = Some n /\
    claudeElementMap w = Some m /\ own m elementRef = Some (uid e) /\
    ~ In (uid e) (collected pg).
Proof.
  unfold resolve, get.
  destruct (claudeElementMap w) as [m |] eqn:M; [| discriminate].
  destruct (own m elementRef) as [r |] eqn:O.
  - destruct (deref pg r) as [u |] eqn:D; [| discriminate].
    apply deref_some in D. destruct D as [-> D].
    destruct (element_by_uid pg r) as [n' |] eqn:E; [| discriminate].
    intros H. injection H as <- <-. split; [reflexivity |].
    destruct (find_has_uid r _ n' E) as [e [kids [-> U]]].
    exists e, kids, m. subst r. tauto.
  - destruct (Js.mem elementRef prototype_names); discriminate.
Qed.

(** Resolution leaves the window alone or deletes the entry it looked up. *)
Lemma resolve_window (pg : Page) (w : Window) (elementRef : string) :
  fst (resolve pg w elementRef) = w \/
  exists m, claudeElementMap w = Some m /\
    fst (resolve pg w elementRef) =
    {| claudeElementMap := Some (delete elementRef m);
       claudeRefCounter := claudeRefCounter w |}.
Proof.
  unfold resolve, get.
  destruct (claudeElementMap w) as [m |] eqn:M; [| now left].
  destruct (own m elementRef) as [r |].
  - destruct (deref pg r) as [u |].
    + destruct (element_by_uid pg u); [now left |]. right. now exists m.
    + right. now exists m.
  - destruct (Js.mem elementRef prototype_names); now left.
Qed.

Section Scripts.
Context {host : ValueSetter.Host}.

Lemma get_element_window (pg : Page) (w : Window) (elementRef : string) :
  out_window (Locator.get_element pg w elementRef) =
  fst (resolve pg w elementRef).
Proof.
  unfold Locator.get_element, Locator.get_element_try.
  destruct (resolve pg w elementRef) as [w' [[[s | e kids] |] | msg]];
    reflexivity.
Qed.

Lemma form_input_window (pg : Page) (w : Window) (elementRef : string)
  (v : ValueSetter.Value) :
  out_window (ValueSetter.form_input pg w elementRef v) =
  fst (resolve pg w elementRef).
Proof.
  unfold ValueSetter.form_input, ValueSetter.form_input_try.
  destruct (resolve pg w elementRef) as [w' [[[s | e kids] |] | msg]];
    try reflexivity.
  now destruct (ValueSetter.dispatch pg elementRef v e) as [[pg' acts] r].
Qed.

(** C2, stale references.  For a reference that has an entry whose element
    is collected or detached from the document, the [try] block of both
    scripts completes normally, without reaching the [catch] clause; both
    return the failure whose message names the reference; neither touches
    the page nor the DOM; and the entry is gone from the registry
    afterwards. *)
Theorem stale_reference_fails (pg : Page) (w : Window) (elementRef : string)
  (v : ValueSetter.Value) (m : ElementMap) (r : WeakRef) :
  claudeElementMap w = Some m -> own m elementRef = Some r ->
  In r (collected pg) \/ contains pg r = false ->
  let located := Locator.get_element pg w elementRef in
  let set := ValueSetter.form_input pg w elementRef v in
  out_result (Locator.get_element_try pg w elementRef) =
    Normal (Locator.Failure "get_element" (not_found_message elementRef)) /\
  out_result (ValueSetter.form_input_try pg w elementRef v) =
    Normal (ValueSetter.Failure "form_input" (not_found_message elementRef)) /\
  out_result located =
    Locator.Failure "get_element" (not_found_message elementRef) /\
  out_result set =
    ValueSetter.Failure "form_input" (not_found_message elementRef) /\
  Js.includes (not_found_message elementRef) elementRef = true /\
  out_page located = pg /\ out_actions located = [] /\
  out_page set = pg /\ out_actions set = [] /\
  out_window located = out_window set /\
  Session.binding (out_window located) elementRef = None /\
  forall k, k <> elementRef ->
    Session.binding (out_window located) k = Session.binding w k.
Proof.
  intros M O H located set.
  pose proof (resolve_stale pg w elementRef m r M O H) as R.
  subst located set.
  unfold Locator.get_element, Locator.get_element_try,
    ValueSetter.form_input, ValueSetter.form_input_try.
  rewrite R. simpl.
  repeat split; try apply not_found_names.
  - unfold Session.binding. simpl. rewrite own_delete.
    now rewrite String.eqb_refl.
  - intros k Hk. unfold Session.binding. simpl. rewrite M, own_delete.
    apply not_eq_sym in Hk. apply String.eqb_neq in Hk. now rewrite Hk.
Qed.

End Scripts.

Lemma stale_reference_fails_witness :
  let w := Sample.after_snapshot Sample.button_page in
  let pg := Sample.empty_page in
  claudeElementMap w = Some [("ref_1", 2); ("ref_2", 3)] /\
  own [("ref_1", 2); ("ref_2", 3)] "ref_2" = Some 3 /\
  (In 3 (collected pg) \/ contains pg 3 = false) /\
  out_result (Locator.get_element pg w "ref_2") =
    Locator.Failure "get_element" (not_found_message "ref_2") /\
  out_result
    (ValueSetter.form_input (host := Sample.host) pg w "ref_2"
       (ValueSetter.Bool true)) =
    ValueSetter.Failure "form_input" (not_found_message "ref_2") /\
  Session.binding (out_window (Locator.get_element pg w "ref_2")) "ref_2" = None.
Proof.
  intros w pg.
  assert (H : In 3 (collected pg) \/ contains pg 3 = false)
    by (right; reflexivity).
  split; [reflexivity |]. split; [reflexivity |]. split; [exact H |].
  pose proof (stale_reference_fails (host := Sample.host) pg w "ref_2"
                (ValueSetter.Bool true) [("ref_1", 2); ("ref_2", 3)] 3
                eq_refl eq_refl H) as T.
  cbv zeta in T.
  split; [apply T |]. split; [apply T |]. apply T.
Defined.

End ResolveFacts.

(** ** The value setter *)

Module ValueSetterFacts.
Import Dom Registry Inv RegistryFacts TreeFacts ResolveFacts ValueSetter.
Local Open Scope list_scope.

Section Branches.
Context {host : Host}.

(** The script on a reference that resolves: the dispatch on the element. *)
Lemma form_input_found (pg : Page) (w w' : Window) (elementRef : string)
  (v : Value) (e : Element) (kids : list Node) :
  resolve pg w elementRef = (w', Normal (Some (ElementNode e kids))) ->
  form_input pg w elementRef v =
  {| out_window := w;
     out_page := fst (fst (dispatch pg elementRef v e));
     out_actions := snd (fst (dispatch pg elementRef v e));
     out_result := snd (dispatch pg elementRef v e) |}.
Proof.
  intros R. destruct (resolve_found _ _ _ _ _ R) as [-> _].
  unfold form_input, form_input_try. rewrite R.
  now destruct (dispatch pg elementRef v e) as [[pg' acts] r].
Qed.

Lemma reread_update (pg : Page) (e : Element) (kids : list Node)
  (f : Element -> Element) :
  (forall e', uid (f e') = uid e') ->
  element_by_uid pg (uid e) = Some (ElementNode e kids) ->
  reread (update_page (uid e) f pg) e = f e.
Proof.
  intros Hf H. unfold reread.
  now rewrite (element_by_uid_update pg (uid e) f e kids Hf H).
Qed.

(** C7, the checkbox branch.  For a reference that resolves to a checkbox
    input: with a boolean [b] the script succeeds, reports the checked state
    from before the call and [b] as the new one, leaves the element checked
    as [b] says, and after the scroll and the focus dispatches one bubbling
    "change" and then one bubbling "input", no other event; with any other
    value it fails. *)
Theorem checkbox_postcondition (pg : Page) (w w' : Window)
  (elementRef : string) (e : Element) (kids : list Node) :
  resolve pg w elementRef = (w', Normal (Some (ElementNode e kids))) ->
  tag e = "input" -> type e = "checkbox" ->
  (forall b,
     let o := form_input pg w elementRef (Bool b) in
     out_result o =
       Success {| ref := elementRef; element_type := "checkbox";
                  previous_value := Bool (checked e);
                  new_value := Bool b;
                  message :=
                    ("Checkbox " ++ (if b then "checked" else "unchecked"))%string |} /\
     out_actions o =
       [ScrollIntoView (uid e) "smooth" (Some "center") None;
        Focus (uid e);
        DispatchEvent (uid e) "change" true;
        DispatchEvent (uid e) "input" true] /\
     element_by_uid (out_page o) (uid e) =
       Some (ElementNode (set_checked b e)
               (map (update (uid e) (set_checked b)) kids))) /\
  (forall v, (forall b, v <> Bool b) ->
     success (out_result (form_input pg w elementRef v)) = false).
Proof.
  intros R Htag Htype.
  destruct (resolve_found _ _ _ _ _ R) as [_ [e0 [k0 [m [N [E _]]]]]].
  injection N as <- <-.
  assert (D : forall v,
             dispatch pg elementRef v e =
             match v with
             | Bool b =>
                 let pg' := update_page (uid e) (set_checked b) pg in
                 (pg',
                  ScrollIntoView (uid e) "smooth" (Some "center") None ::
                  notify (uid e),
                  Success
                    {| ref := elementRef; element_type := "checkbox";
                       previous_value := Bool (checked e);
                       new_value := Bool (checked (reread pg' e));
                       message :=
                         ("Checkbox " ++
                          (if checked (reread pg' e)
                           then "checked" else "unchecked"))%string |})
             | _ =>
                 (pg, [ScrollIntoView (uid e) "smooth" (Some "center") None],
                  Failure "form_input"
                    "Checkbox requires a boolean value (true/false)")
             end).
  { intros v. unfold dispatch. rewrite Htag, Htype. reflexivity. }
  split.
  - intros b o. subst o. rewrite (form_input_found _ _ _ _ _ _ _ R).
    rewrite D. simpl.
    rewrite (reread_update pg e kids (set_checked b)) by (reflexivity || exact E).
    simpl. repeat split.
    now apply element_by_uid_update.
  - intros v Hv. rewrite (form_input_found _ _ _ _ _ _ _ R). rewrite D.
    destruct v as [| | b | x | s]; try reflexivity.
    exfalso. now apply (Hv b).
Qed.

(** *** The select branch *)









(** *** Failures *)



End Branches.

Lemma checkbox_postcondition_witness :
  let w := Sample.after_snapshot Sample.checkbox_page in
  let box := Sample.input 3 "checkbox" "on" false in
  resolve Sample.checkbox_page w "ref_2" = (w, Normal (Some (ElementNode box []))) /\
  tag box = "input" /\ type box = "checkbox" /\
  out_result
    (form_input (host := Sample.host) Sample.checkbox_page w "ref_2" (Bool true)) =
  Success {| ref := "ref_2"; element_type := "checkbox";
             previous_value := Bool false; new_value := Bool true;
             message := "Checkbox checked" |} /\
  success
    (out_result
       (form_input (host := Sample.host) Sample.checkbox_page w "ref_2"
          (Str "true"))) = false.
Proof.
  intros w box.
  pose proof (checkbox_postcondition (host := Sample.host) Sample.checkbox_page
                w w "ref_2" box [] eq_refl eq_refl eq_refl) as [T1 T2].
  split; [reflexivity |]. split; [reflexivity |]. split; [reflexivity |].
  split.
  - exact (proj1 (T1 true)).
  - apply T2. intros b. discriminate.
Defined.



End ValueSetterFacts.

(** ** Sessions *)

Module SessionFacts.
Import Dom Registry Snapshot Inv RegistryFacts TreeFacts SnapshotFacts
  ResolveFacts Session.
Local Open Scope list_scope.

Lemma functional_snoc (m : ElementMap) (k : string) (u : nat) :
  functional m -> ~ In k (keys m) -> functional (m ++ [(k, u)]).
Proof.
  intros F Hk k0 r r' H1 H2.
  apply in_app_or in H1. apply in_app_or in H2.
  assert (Hkey : forall r0, In (k, r0) m -> False).
  { intros r0 H0. apply Hk. unfold keys. apply in_map_iff.
    exists (k, r0). tauto. }
  destruct H1 as [H1 | [H1 | []]], H2 as [H2 | [H2 | []]].
  - eapply F; eassumption.
  - injection H2 as <- <-. exfalso. eauto.
  - injection H1 as <- <-. exfalso. eauto.
  - congruence.
Qed.

Lemma functional_sub (m m' : ElementMap) :
  functional m -> (forall p, In p m' -> In p m) -> functional m'.
Proof. intros F S k r r' H1 H2. apply (F k r r'); now apply S. Qed.

(** A binding is the entry of its key when no key has two targets. *)
Lemma own_of_entry (m : ElementMap) (k : string) (r : WeakRef) :
  functional m -> In (k, r) m -> own m k = Some r.
Proof.
  intros F Hin. destruct (own m k) as [r0 |] eqn:O.
  - apply own_in in O. now rewrite (F k r0 r O Hin).
  - apply own_none in O. exfalso. apply O. unfold keys.
    apply in_map_iff. exists (k, r). tauto.
Qed.

Lemma include_steady (pg : Page) (n : Node) (e : Element) (d : nat)
  (t : Traversal) :
  steady t -> steady (include pg n e d t).
Proof.
  intros [K F].
  split; [eapply advance_keyed; [exact K | now apply include_advance] |].
  unfold include.
  destruct (allocate_cases pg (elementMap t) (refCounter t) (uid e) K)
    as [[k [_ ->]] | [_ ->]]; simpl; [exact F |].
  apply functional_snoc; [exact F |].
  eapply well_keyed_fresh; [exact K | lia].
Qed.

Lemma processElement_steady (pg : Page) (filter : option string) (n : Node) :
  forall d t, steady t -> steady (processElement pg filter n d t).
Proof.
  apply (processElement_invariant pg filter steady (fun _ => True));
    [| apply uids_any].
  intros n' e d t _. apply include_steady.
Qed.

(** A pass keeps the two globals in order and only adds entries under new
    ids. *)
Lemma pass_window (pg : Page) (filter : option string) (m : ElementMap)
  (c : nat) :
  well_keyed m c -> functional m ->
  let t := pass pg filter m c in
  well_keyed (elementMap t) (refCounter t) /\
  functional (elementMap t) /\
  c <= refCounter t /\
  forall k r, In (k, r) (elementMap t) ->
    In (k, r) m \/ exists n, k = ref_name n /\ c < n <= refCounter t.
Proof.
  intros K F t. subst t. unfold pass.
  set (t0 := {| elementMap := m; refCounter := c; result := [] |}).
  set (t1 := match body pg with
             | Some b => processElement pg filter b 0 t0
             | None => t0
             end).
  assert (S0 : steady t0) by (split; assumption).
  assert (S1 : steady t1).
  { subst t1. destruct (body pg); [now apply processElement_steady | exact S0]. }
  assert (A : advance t0 t1).
  { subst t1. destruct (body pg);
      [apply processElement_advance; exact K | apply advance_refl]. }
  destruct S1 as [K1 F1]. destruct A as [[Hc [l [El Kl]]] _]. simpl in *.
  split; [now apply cleanup_well_keyed |].
  split.
  { apply (functional_sub (elementMap t1)); [exact F1 |].
    intros [k r] H. now apply in_cleanup in H. }
  split; [exact Hc |].
  intros k r H. apply in_cleanup in H. destruct H as [H _].
  rewrite El in H. apply in_app_or in H. destruct H as [H | H]; [now left |].
  right. exact (Kl k r H).
Qed.

Lemma window_grows_refl (w : Window) : window_grows w w.
Proof. split; [lia |]. intros k r H. now left. Qed.

Lemma window_grows_trans (w1 w2 w3 : Window) :
  window_grows w1 w2 -> window_grows w2 w3 -> window_grows w1 w3.
Proof.
  intros [C1 G1] [C2 G2]. split; [lia |]. intros k r H.
  destruct (G2 k r H) as [H2 | [n [Hk Hn]]].
  - destruct (G1 k r H2) as [H1 | [n [Hk Hn]]]; [now left |].
    right. exists n. split; [exact Hk | lia].
  - right. exists n. split; [exact Hk | lia].
Qed.

(** Deleting an entry keeps the globals in order. *)
Lemma delete_window (w : Window) (m : ElementMap) (k : string) :
  claudeElementMap w = Some m -> window_ok w ->
  let w' := {| claudeElementMap := Some (delete k m);
               claudeRefCounter := claudeRefCounter w |} in
  window_ok w' /\ window_grows w w'.
Proof.
  intros M [K F] w'. unfold window_ok, window_grows, entries in *.
  rewrite M in *. simpl.
  split; [split |].
  - apply (well_keyed_sub m); [exact K |]. intros p. apply in_delete.
  - apply (functional_sub m); [exact F |]. intros p. apply in_delete.
  - split; [lia |]. intros k0 r H. left. now apply in_delete in H.
Qed.

Lemma resolve_step (pg : Page) (w : Window) (elementRef : string) :
  window_ok w ->
  window_ok (fst (resolve pg w elementRef)) /\
  window_grows w (fst (resolve pg w elementRef)).
Proof.
  intros Ok. destruct (resolve_window pg w elementRef) as [-> | [m [M ->]]].
  - split; [exact Ok | apply window_grows_refl].
  - now apply delete_window.
Qed.

Section Calls.
Context {host : ValueSetter.Host}.

(** Every call keeps the globals in order and only adds entries under new
    ids. *)
Lemma run_step (pg : Page) (c : Call) (w : Window) :
  window_ok w -> window_ok (run pg c w) /\ window_grows w (run pg c w).
Proof.
  intros Ok. destruct c as [| filter | elementRef | elementRef v]; cbn [run].
  - unfold install, window_ok, window_grows, entries in *. simpl.
    destruct (Nat.eqb (claudeRefCounter w) 0) eqn:E0.
    + apply Nat.eqb_eq in E0. rewrite E0 in *.
      destruct (claudeElementMap w); (split; [exact Ok |]);
        (split; [lia |]); intros k r H; now left.
    + destruct (claudeElementMap w); (split; [exact Ok |]);
        (split; [lia |]); intros k r H; now left.
  - unfold generateAccessibilityTree.
    destruct (claudeElementMap w) as [m |] eqn:M.
    + destruct Ok as [K F]. unfold entries in K, F. rewrite M in K, F.
      destruct (pass_window pg filter m (claudeRefCounter w) K F)
        as [K' [F' [C' G']]].
      unfold window_ok, window_grows, entries. simpl. rewrite M. tauto.
    + assert (Hempty : forall c',
                claudeRefCounter w <= c' ->
                let w' := {| claudeElementMap := None; claudeRefCounter := c' |} in
                window_ok w' /\ window_grows w w').
      { intros c' Hc w'. unfold window_ok, window_grows, entries. simpl.
        split; [split |].
        - intros k r [].
        - intros k r r' [].
        - split; [exact Hc |]. intros k r []. }
      assert (Hsame : window_ok w /\ window_grows w w)
        by (split; [exact Ok | apply window_grows_refl]).
      destruct (body pg) as [[s | e kids] |]; simpl; try exact Hsame.
      destruct (Js.truthy (tagName e)); simpl; [| exact Hsame].
      apply Hempty. lia.
  - rewrite get_element_window. now apply resolve_step.
  - rewrite form_input_window. now apply resolve_step.
Qed.

(** Calls on pages whose attached elements are alive never give an element
    a second reference. *)
Lemma run_single (pg : Page) (c : Call) (w : Window) :
  attached_alive pg -> window_ok w -> single (entries w) ->
  single (entries (run pg c w)).
Proof.
  intros Hpg [K F] S.
  assert (Hres : forall elementRef,
            single (entries (fst (resolve pg w elementRef)))).
  { intros elementRef.
    destruct (resolve_window pg w elementRef) as [-> | [m [M ->]]];
      [exact S |].
    unfold entries in *. rewrite M in S. simpl.
    intros k k' u H1 H2. apply in_delete in H1, H2. now apply (S k k' u). }
  destruct c as [| filter | elementRef | elementRef v]; cbn [run].
  - unfold install, entries in *. simpl.
    destruct (claudeElementMap w); [exact S | intros k k' u []].
  - unfold generateAccessibilityTree, entries in *.
    destruct (claudeElementMap w) as [m |] eqn:M.
    + simpl. now apply (pass_consistent pg filter m (claudeRefCounter w)).
    + destruct (body pg) as [[s | e kids] |]; simpl;
        try (rewrite M; exact S).
      destruct (Js.truthy (tagName e)); simpl; [intros k k' u [] |].
      rewrite M. exact S.
  - rewrite get_element_window. apply Hres.
  - rewrite form_input_window. apply Hres.
Qed.

Lemma reaches_steps (w w' : Window) :
  reaches w w' -> window_ok w -> window_ok w' /\ window_grows w w'.
Proof.
  induction 1 as [w | w w' pg c _ IH]; intros Ok.
  - split; [exact Ok | apply window_grows_refl].
  - destruct (run_step pg c w Ok) as [Ok1 G1].
    destruct (IH Ok1) as [Ok' G']. split; [exact Ok' |].
    eapply window_grows_trans; eassumption.
Qed.

Lemma fresh_ok : window_ok fresh.
Proof. split; [intros k r [] | intros k r r' []]. Qed.

Lemma binding_entry (w : Window) (k : string) (r : WeakRef) :
  binding w k = Some r -> In (k, r) (entries w).
Proof.
  unfold binding, entries. destruct (claudeElementMap w); [apply own_in |].
  discriminate.
Qed.

Lemma entry_binding (w : Window) (k : string) (r : WeakRef) :
  window_ok w -> In (k, r) (entries w) -> binding w k = Some r.
Proof.
  intros [_ F]. unfold binding, entries in *.
  destruct (claudeElementMap w); [now apply own_of_entry | intros []].
Qed.

(** C10, no reuse of reference ids.  Let [w0] be the globals at some point
    of a page session, [w1] at a later point and [w2] later still.  The
    counter never decreases; an entry present at [w1] was either present,
    with the same target, at [w0], or sits under an id that the counter
    produced between the two points; hence an id bound at both points has
    the same target at both, and an id bound at [w0] and gone at [w1] is
    never bound again. *)
Theorem reference_ids_never_reused (w0 w1 w2 : Window) :
  reaches fresh w0 -> reaches w0 w1 -> reaches w1 w2 ->
  claudeRefCounter w0 <= claudeRefCounter w1 /\
  (forall k r, binding w1 k = Some r ->
     binding w0 k = Some r \/
     exists n, k = ref_name n /\
               claudeRefCounter w0 < n <= claudeRefCounter w1) /\
  (forall k r r', binding w0 k = Some r -> binding w1 k = Some r' -> r = r') /\
  (forall k r, binding w0 k = Some r -> binding w1 k = None ->
     binding w2 k = None).
Proof.
  intros R0 R1 R2.
  destruct (reaches_steps _ _ R0 fresh_ok) as [Ok0 _].
  destruct (reaches_steps _ _ R1 Ok0) as [Ok1 [C1 G1]].
  destruct (reaches_steps _ _ R2 Ok1) as [Ok2 [C2 G2]].
  assert (Old : forall k r n,
            binding w0 k = Some r -> k = ref_name n -> n <= claudeRefCounter w0).
  { intros k r n B E. apply binding_entry in B.
    destruct (proj1 Ok0 k r B) as [n' [E' Hn']].
    rewrite E in E'. apply ref_name_inj in E'. lia. }
  assert (Step : forall k r, binding w1 k = Some r ->
            binding w0 k = Some r \/
            exists n, k = ref_name n /\
                      claudeRefCounter w0 < n <= claudeRefCounter w1).
  { intros k r B. apply binding_entry in B.
    destruct (G1 k r B) as [H | H]; [left | now right].
    now apply entry_binding. }
  split; [exact C1 |]. split; [exact Step |]. split.
  - intros k r r' B0 B1. destruct (Step k r' B1) as [H | [n [E Hn]]].
    + congruence.
    + pose proof (Old k r n B0 E). lia.
  - intros k r B0 B1. destruct (binding w2 k) as [r2 |] eqn:B2; [| reflexivity].
    exfalso. apply binding_entry in B2.
    destruct (G2 k r2 B2) as [H | [n [E Hn]]].
    + apply (entry_binding w1 k r2 Ok1) in H. congruence.
    + pose proof (Old k r n B0 E). lia.
Qed.

Lemma session_ok (w : Window) :
  session w -> window_ok w /\ single (entries w).
Proof.
  induction 1 as [| w pg c _ [Ok S] Hpg].
  - split; [apply fresh_ok | intros k k' u []].
  - split; [now apply run_step | now apply run_single].
Qed.

(** C1, identity stability.  At any point of a page session, on a page
    whose attached elements are alive: allocation for a live element that
    already has an entry in the registry returns the id of that entry and
    mints nothing, the registry and the counter staying as they are; and two
    successive snapshot passes over the same page, under any two filters,
    emit the same reference id for every element they both emit. *)
Theorem identity_stability (pg : Page) (f1 f2 : option string) (w : Window)
  (m : ElementMap) :
  session w -> claudeElementMap w = Some m -> attached_alive pg ->
  (forall k u, In (k, u) m -> ~ In u (collected pg) ->
     allocate pg m (claudeRefCounter w) u = (k, m, claudeRefCounter w)) /\
  (let t1 := pass pg f1 m (claudeRefCounter w) in
   let t2 := pass pg f2 (elementMap t1) (refCounter t1) in
   forall a b, In a (result t1) -> In b (result t2) ->
     em_uid a = em_uid b -> em_ref a = em_ref b).
Proof.
  intros Hs M Hpg. destruct (session_ok w Hs) as [[K F] S].
  unfold entries in K, S. rewrite M in K, S.
  now apply stable_references.
Qed.

End Calls.

Lemma identity_stability_witness :
  let w := Sample.after_snapshot Sample.nav_page in
  let m := [("ref_1", 2); ("ref_2", 3); ("ref_3", 4)] in
  session (host := Sample.host) w /\ claudeElementMap w = Some m /\
  attached_alive Sample.nav_page /\
  allocate Sample.nav_page m 3 4 = ("ref_3", m, 3) /\
  (let t1 := pass Sample.nav_page None m 3 in
   let t2 :=
     pass Sample.nav_page (Some "interactive") (elementMap t1) (refCounter t1) in
   forall a b, In a (result t1) -> In b (result t2) ->
     em_uid a = em_uid b -> em_ref a = em_ref b).
Proof.
  intros w m.
  assert (A : attached_alive Sample.nav_page) by apply sample_attached_alive.
  assert (Hs : session (host := Sample.host) w).
  { change w with
      (run (host := Sample.host) Sample.nav_page (ReadPage None)
         (run (host := Sample.host) Sample.nav_page Install fresh)).
    apply session_call; [| exact A].
    apply session_call; [| exact A].
    apply session_fresh. }
  destruct (identity_stability (host := Sample.host) Sample.nav_page None
              (Some "interactive") w m Hs eq_refl A) as [T1 T2].
  split; [exact Hs |]. split; [reflexivity |]. split; [exact A |].
  split; [| exact T2].
  apply T1; [right; right; now left | intros []].
Defined.

Lemma reference_ids_never_reused_witness :
  let w0 := Sample.after_snapshot Sample.button_page in
  let w1 := out_window (Locator.get_element Sample.empty_page w0 "ref_2") in
  let w2 := fst (generateAccessibilityTree Sample.button_page None w1) in
  reaches (host := Sample.host) fresh w0 /\
  reaches (host := Sample.host) w0 w1 /\
  reaches (host := Sample.host) w1 w2 /\
  binding w0 "ref_2" = Some 3 /\ binding w1 "ref_2" = None /\
  binding w2 "ref_2" = None /\ binding w2 "ref_3" = Some 3.
Proof.
  intros w0 w1 w2.
  assert (R0 : reaches (host := Sample.host) fresh w0).
  { apply reaches_call with (pg := Sample.empty_page) (c := Install).
    apply reaches_call with (pg := Sample.button_page) (c := ReadPage None).
    apply reaches_here. }
  assert (R1 : reaches (host := Sample.host) w0 w1).
  { apply reaches_call with (pg := Sample.empty_page) (c := GetElement "ref_2").
    apply reaches_here. }
  assert (R2 : reaches (host := Sample.host) w1 w2).
  { apply reaches_call with (pg := Sample.button_page) (c := ReadPage None).
    apply reaches_here. }
  split; [exact R0 |]. split; [exact R1 |]. split; [exact R2 |].
  split; [reflexivity |]. split; [reflexivity |]. split; [| reflexivity].
  exact (proj2 (proj2 (proj2
           (reference_ids_never_reused (host := Sample.host) w0 w1 w2 R0 R1 R2)))
           "ref_2" 3 eq_refl eq_refl).
Defined.

End SessionFacts.

(** ** The branches of the value setter *)

Module BranchFacts.
Import Dom Registry Inv Notions RegistryFacts TreeFacts ResolveFacts ValueSetter
  ValueSetterFacts.
Local Open Scope list_scope.

Lemma has_uid_update (u u' : nat) (f : Element -> Element) (n : Node) :
  (forall e, uid (f e) = uid e) ->
  has_uid u' (update u f n) = has_uid u' n.
Proof.
  intros Hf. destruct n as [d | e kids]; simpl; [reflexivity |].
  destruct (Nat.eqb (uid e) u); [now rewrite Hf | reflexivity].
Qed.

Lemma find_update_any (u u' : nat) (f : Element -> Element) (l : list Node) :
  (forall e, uid (f e) = uid e) ->
  find (has_uid u') (map (update u f) l) =
  option_map (update u f) (find (has_uid u') l).
Proof.
  intros Hf. induction l as [| n l IHl]; simpl; [reflexivity |].
  rewrite (has_uid_update u u' f n Hf).
  destruct (has_uid u' n); [reflexivity | exact IHl].
Qed.

(** A write on the element of identity [u] changes the record of that
    element only. *)
Lemma record_of_update (pg : Page) (u u' : nat) (f : Element -> Element) :
  (forall e, uid (f e) = uid e) ->
  record_of (update_page u f pg) u' =
  if Nat.eqb u' u then option_map f (record_of pg u') else record_of pg u'.
Proof.
  intros Hf. unfold record_of, element_by_uid, document_elements. simpl.
  destruct (documentElement pg) as [root |]; simpl;
    [| now destruct (Nat.eqb u' u)].
  rewrite elements_update, (find_update_any u u' f _ Hf).
  destruct (find (has_uid u') (elements root)) as [n |] eqn:F; simpl;
    [| now destruct (Nat.eqb u' u)].
  destruct (find_has_uid u' _ n F) as [e [kids [-> U]]]. simpl.
  rewrite U. now destruct (Nat.eqb u' u).
Qed.

Lemma uids_update (u : nat) (f : Element -> Element) (n : Node) :
  (forall e, uid (f e) = uid e) -> uids (update u f n) = uids n.
Proof.
  intros Hf. induction n as [d | e kids IH] using node_induction; simpl.
  - reflexivity.
  - f_equal; [destruct (Nat.eqb (uid e) u); [apply Hf | reflexivity] |].
    induction IH as [| k kids Hk _ IHkids]; simpl; [reflexivity |].
    now rewrite Hk, IHkids.
Qed.

Lemma document_uids_update (pg : Page) (u : nat) (f : Element -> Element) :
  (forall e, uid (f e) = uid e) ->
  document_uids (update_page u f pg) = document_uids pg.
Proof.
  intros Hf. unfold document_uids. simpl.
  destruct (documentElement pg); simpl; [now apply uids_update | reflexivity].
Qed.

Section Branches.
Context {host : Host}.

Lemma found_record (pg : Page) (w w' : Window) (elementRef : string)
  (e : Element) (kids : list Node) :
  resolve pg w elementRef = (w', Normal (Some (ElementNode e kids))) ->
  element_by_uid pg (uid e) = Some (ElementNode e kids) /\
  record_of pg (uid e) = Some e.
Proof.
  intros R. destruct (resolve_found _ _ _ _ _ R) as [_ [e0 [k0 [m [N [E _]]]]]].
  injection N as <- <-. split; [exact E |]. unfold record_of. now rewrite E.
Qed.

(** What the page is after [dispatch]: the page before, or that page with
    one property of the element written. *)
Lemma dispatch_page (pg : Page) (elementRef : string) (v : Value) (e : Element) :
  fst (fst (dispatch pg elementRef v e)) = pg \/
  exists f, (forall e', uid (f e') = uid e') /\
    fst (fst (dispatch pg elementRef v e)) = update_page (uid e) f pg.
Proof.
  unfold dispatch. cbv zeta.
  destruct (String.eqb (tag e) "select").
  { destruct (find_option (to_string v) 0 (options e)); [| now left].
    right. eexists. split; [| reflexivity]. reflexivity. }
  destruct (String.eqb (tag e) "input" && String.eqb (type e) "checkbox").
  { destruct v; try (now left). right. eexists. split; [| reflexivity].
    reflexivity. }
  destruct (String.eqb (tag e) "input" && String.eqb (type e) "radio").
  { right. eexists. split; [| reflexivity]. reflexivity. }
  destruct (String.eqb (tag e) "input" && date_like (type e)).
  { right. eexists. split; [| reflexivity]. reflexivity. }
  destruct (String.eqb (tag e) "input" && String.eqb (type e) "range").
  { destruct (isNaN (to_number v)); [now left |].
    right. eexists. split; [| reflexivity]. reflexivity. }
  destruct (String.eqb (tag e) "input" && String.eqb (type e) "number").
  { destruct (isNaN (to_number v) && not_empty_string v); [now left |].
    right. eexists. split; [| reflexivity]. reflexivity. }
  destruct (String.eqb (tag e) "input" || String.eqb (tag e) "textarea");
    [| now left].
  right. eexists. split; [| reflexivity]. reflexivity.
Qed.

Lemma date_like_cases (t : string) :
  date_like t = true ->
  t = "date" \/ t = "time" \/ t = "datetime-local" \/ t = "month" \/ t = "week".
Proof.
  unfold date_like. rewrite !orb_true_iff, !String.eqb_eq. tauto.
Qed.

(** X1, the radio branch.  For a reference that resolves to a radio input
    the script succeeds whatever the value passed, [false] included: the
    radio ends up checked, the result reports the checked state from before
    the call and [true] as the new one. *)
Theorem radio_always_checked (pg : Page) (w w' : Window) (elementRef : string)
  (e : Element) (kids : list Node) (v : Value) :
  resolve pg w elementRef = (w', Normal (Some (ElementNode e kids))) ->
  tag e = "input" -> type e = "radio" ->
  let o := form_input pg w elementRef v in
  out_result o =
    Success {| ref := elementRef; element_type := "radio";
               previous_value := Bool (checked e);
               new_value := Bool true;
               message :=
                 ("Radio button selected" ++
                  (if Js.truthy (name e)
                   then " in group " ++ Js.dq ++ name e ++ Js.dq
                   else EmptyString))%string |} /\
  out_actions o = success_trace (uid e) [] /\
  record_of (out_page o) (uid e) = Some (set_checked true e).
Proof.
  intros R Htag Htype o. subst o.
  destruct (found_record _ _ _ _ _ _ R) as [E Rec].
  rewrite (form_input_found _ _ _ _ _ _ _ R).
  assert (D : dispatch pg elementRef v e =
              let pg' := update_page (uid e) (set_checked true) pg in
              (pg', success_trace (uid e) [],
               Success
                 {| ref := elementRef; element_type := "radio";
                    previous_value := Bool (checked e);
                    new_value := Bool (checked (reread pg' e));
                    message :=
                      ("Radio button selected" ++
                       (if Js.truthy (name e)
                        then " in group " ++ Js.dq ++ name e ++ Js.dq
                        else EmptyString))%string |})).
  { unfold dispatch. now rewrite Htag, Htype. }
  rewrite D. cbv zeta. cbn [out_result out_actions out_page fst snd].
  rewrite (reread_update pg e kids (set_checked true)) by (reflexivity || exact E).
  split; [reflexivity |]. split; [reflexivity |].
  rewrite record_of_update by reflexivity.
  now rewrite Nat.eqb_refl, Rec.
Qed.

(** X2, the date and time branch.  For a reference that resolves to an
    input of type date, time, datetime-local, month or week the script
    validates nothing: whatever the value, it assigns the value as a string
    and succeeds, reporting what the input holds after the assignment. *)
Theorem date_like_unvalidated (pg : Page) (w w' : Window)
  (elementRef : string) (e : Element) (kids : list Node) (v : Value) :
  resolve pg w elementRef = (w', Normal (Some (ElementNode e kids))) ->
  tag e = "input" -> date_like (type e) = true ->
  let o := form_input pg w elementRef v in
  let now := sanitize e (to_string v) in
  out_result o =
    Success {| ref := elementRef; element_type := type e;
               previous_value := Str (value e);
               new_value := Str now;
               message :=
                 ("Set " ++ type e ++ " to " ++ Js.dq ++ now ++ Js.dq)%string |} /\
  out_actions o = success_trace (uid e) [] /\
  record_of (out_page o) (uid e) = Some (set_value now e).
Proof.
  intros R Htag Hdate o now. subst o.
  destruct (found_record _ _ _ _ _ _ R) as [E Rec].
  rewrite (form_input_found _ _ _ _ _ _ _ R).
  assert (D : dispatch pg elementRef v e =
              let pg' := update_page (uid e) (set_value now) pg in
              (pg', success_trace (uid e) [],
               Success
                 {| ref := elementRef; element_type := type e;
                    previous_value := Str (value e);
                    new_value := Str (value (reread pg' e));
                    message :=
                      ("Set " ++ type e ++ " to " ++ Js.dq ++
                       value (reread pg' e) ++ Js.dq)%string |})).
  { unfold dispatch. rewrite Htag.
    destruct (date_like_cases _ Hdate) as [T | [T | [T | [T | T]]]];
      rewrite T; reflexivity. }
  rewrite D. cbv zeta. cbn [out_result out_actions out_page fst snd].
  rewrite (reread_update pg e kids (set_value now)) by (reflexivity || exact E).
  split; [reflexivity |]. split; [reflexivity |].
  rewrite record_of_update by reflexivity.
  now rewrite Nat.eqb_refl, Rec.
Qed.

(** X3, the range branch.  For a reference that resolves to a range input
    the script succeeds exactly when the value converts to a number other
    than NaN; what it assigns is that number written back as a string, not
    the value as it was passed; otherwise the input is left as it was. *)
Theorem range_requires_number (pg : Page) (w w' : Window)
  (elementRef : string) (e : Element) (kids : list Node) (v : Value) :
  resolve pg w elementRef = (w', Normal (Some (ElementNode e kids))) ->
  tag e = "input" -> type e = "range" ->
  let o := form_input pg w elementRef v in
  let now := sanitize e (number_to_string (to_number v)) in
  (success (out_result o) = negb (isNaN (to_number v))) /\
  (isNaN (to_number v) = false ->
   out_result o =
     Success {| ref := elementRef; element_type := "range";
                previous_value := Str (value e);
                new_value := Str now;
                message :=
                  ("Set range to " ++ now ++ " (min: " ++ min e ++ ", max: " ++
                   max e ++ ")")%string |} /\
   out_actions o = success_trace (uid e) [] /\
   record_of (out_page o) (uid e) = Some (set_value now e)) /\
  (isNaN (to_number v) = true ->
   out_result o = Failure "form_input" "Range input requires a numeric value" /\
   out_page o = pg).
Proof.
  intros R Htag Htype o now. subst o.
  destruct (found_record _ _ _ _ _ _ R) as [E Rec].
  rewrite (form_input_found _ _ _ _ _ _ _ R).
  assert (D : dispatch pg elementRef v e =
              if isNaN (to_number v) then
                (pg, [ScrollIntoView (uid e) "smooth" (Some "center") None],
                 Failure "form_input" "Range input requires a numeric value")
              else
                let pg' := update_page (uid e) (set_value now) pg in
                (pg', success_trace (uid e) [],
                 Success
                   {| ref := elementRef; element_type := "range";
                      previous_value := Str (value e);
                      new_value := Str (value (reread pg' e));
                      message :=
                        ("Set range to " ++ value (reread pg' e) ++ " (min: " ++
                         min e ++ ", max: " ++ max e ++ ")")%string |})).
  { unfold dispatch. rewrite Htag, Htype.
    cbn [String.eqb Ascii.eqb Bool.eqb andb orb]. reflexivity. }
  rewrite D. cbv zeta. destruct (isNaN (to_number v)) eqn:N;
    cbn [out_result out_actions out_page fst snd success negb].
  - split; [reflexivity |]. split; [discriminate |]. intros _. now split.
  - rewrite (reread_update pg e kids (set_value now)) by (reflexivity || exact E).
    split; [reflexivity |]. split; [| discriminate]. intros _.
    split; [reflexivity |]. split; [reflexivity |].
    rewrite record_of_update by reflexivity.
    now rewrite Nat.eqb_refl, Rec.
Qed.

(** X4, the number branch.  For a reference that resolves to a number input
    the script fails exactly when the value converts to NaN and is not the
    empty string; when it succeeds it assigns the value as it was passed,
    written as a string, and not the converted number. *)
Theorem number_accepts_empty (pg : Page) (w w' : Window)
  (elementRef : string) (e : Element) (kids : list Node) (v : Value) :
  resolve pg w elementRef = (w', Normal (Some (ElementNode e kids))) ->
  tag e = "input" -> type e = "number" ->
  let o := form_input pg w elementRef v in
  let now := sanitize e (to_string v) in
  let rejected := isNaN (to_number v) && not_empty_string v in
  (success (out_result o) = negb rejected) /\
  (rejected = false ->
   out_result o =
     Success {| ref := elementRef; element_type := "number";
                previous_value := Str (value e);
                new_value := Str now;
                message := ("Set number input to " ++ now)%string |} /\
   out_actions o = success_trace (uid e) [] /\
   record_of (out_page o) (uid e) = Some (set_value now e)) /\
  (rejected = true ->
   out_result o = Failure "form_input" "Number input requires a numeric value" /\
   out_page o = pg) /\
  success (out_result (form_input pg w elementRef (Str EmptyString))) = true.
Proof.
  intros R Htag Htype o now rejected. subst o.
  destruct (found_record _ _ _ _ _ _ R) as [E Rec].
  rewrite !(form_input_found _ _ _ _ _ _ _ R).
  assert (D : forall v',
              dispatch pg elementRef v' e =
              if isNaN (to_number v') && not_empty_string v' then
                (pg, [ScrollIntoView (uid e) "smooth" (Some "center") None],
                 Failure "form_input" "Number input requires a numeric value")
              else
                let pg' :=
                  update_page (uid e) (set_value (sanitize e (to_string v'))) pg in
                (pg', success_trace (uid e) [],
                 Success
                   {| ref := elementRef; element_type := "number";
                      previous_value := Str (value e);
                      new_value := Str (value (reread pg' e));
                      message :=
                        ("Set number input to " ++ value (reread pg' e))%string |})).
  { intros v'. unfold dispatch. rewrite Htag, Htype.
    cbn [String.eqb Ascii.eqb Bool.eqb andb orb]. reflexivity. }
  rewrite !D. cbv zeta. subst now. split; [| split; [| split]].
  - fold rejected. now destruct rejected.
  - fold rejected. intros ->.
    cbn [out_result out_actions out_page fst snd].
    rewrite (reread_update pg e kids (set_value (sanitize e (to_string v))))
      by (reflexivity || exact E).
    split; [reflexivity |]. split; [reflexivity |].
    rewrite record_of_update by reflexivity.
    now rewrite Nat.eqb_refl, Rec.
  - fold rejected. intros ->. now split.
  - cbn [not_empty_string]. now rewrite andb_false_r.
Qed.

Lemma text_like_cases (e : Element) :
  text_like e = true ->
  tag e = "textarea" \/
  (tag e = "input" /\
   String.eqb (type e) "checkbox" = false /\
   String.eqb (type e) "radio" = false /\
   date_like (type e) = false /\
   String.eqb (type e) "range" = false /\
   String.eqb (type e) "number" = false).
Proof.
  unfold text_like. rewrite orb_true_iff, !andb_true_iff, !negb_true_iff,
    !String.eqb_eq. tauto.
Qed.

Lemma text_control_like (e : Element) :
  text_control e = true -> text_like e = true.
Proof.
  unfold text_control, text_like, Js.mem. cbn [existsb].
  destruct (String.eqb (tag e) "textarea"); [reflexivity |].
  destruct (String.eqb (tag e) "input"); [| discriminate].
  cbn [orb andb]. rewrite !orb_true_iff, !String.eqb_eq.
  intros [H | [H | [H | [H | [H | H]]]]]; try discriminate;
    rewrite H; reflexivity.
Qed.

(** X5, the text branch.  For a reference that resolves to a textarea, or to
    an input of type text, search, url, tel or password, the script
    validates nothing: whatever the value, it assigns the value as a string,
    moves the caret to the end of what the control then holds, between the
    focus and the two events, and succeeds; the type it reports is
    "textarea" for a textarea and the type of the input otherwise. *)
Theorem text_always_assigned (pg : Page) (w w' : Window)
  (elementRef : string) (e : Element) (kids : list Node) (v : Value) :
  resolve pg w elementRef = (w', Normal (Some (ElementNode e kids))) ->
  text_control e = true ->
  let o := form_input pg w elementRef v in
  let now := sanitize e (to_string v) in
  let elementType :=
    if String.eqb (tag e) "textarea" then "textarea" else type e in
  out_result o =
    Success {| ref := elementRef; element_type := elementType;
               previous_value := Str (value e);
               new_value := Str now;
               message :=
                 ("Set " ++ elementType ++ " value to " ++ Js.dq ++ now ++
                  Js.dq)%string |} /\
  out_actions o =
    success_trace (uid e)
      [SetSelectionRange (uid e) (String.length now) (String.length now)] /\
  record_of (out_page o) (uid e) = Some (set_value now e).
Proof.
  intros R Hcontrol o now elementType. subst o.
  pose proof (text_control_like e Hcontrol) as Htext.
  assert (Hty : elementType =
                if String.eqb (tag e) "textarea" then "textarea"
                else if Js.truthy (type e) then type e else "text").
  { subst elementType. destruct (String.eqb (tag e) "textarea") eqn:Ta;
      [reflexivity |].
    revert Hcontrol. unfold text_control, Js.mem. rewrite Ta.
    cbn [existsb orb]. rewrite Bool.andb_true_iff, !orb_true_iff, !String.eqb_eq.
    intros [_ [H | [H | [H | [H | [H | H]]]]]]; try discriminate;
      rewrite H; reflexivity. }
  destruct (found_record _ _ _ _ _ _ R) as [E Rec].
  rewrite (form_input_found _ _ _ _ _ _ _ R).
  assert (D : dispatch pg elementRef v e =
              let pg' := update_page (uid e) (set_value now) pg in
              let now' := value (reread pg' e) in
              (pg',
               success_trace (uid e)
                 [SetSelectionRange (uid e) (String.length now')
                    (String.length now')],
               Success
                 {| ref := elementRef; element_type := elementType;
                    previous_value := Str (value e);
                    new_value := Str now';
                    message :=
                      ("Set " ++ elementType ++ " value to " ++ Js.dq ++ now' ++
                       Js.dq)%string |})).
  { rewrite Hty. unfold dispatch.
    destruct (text_like_cases e Htext) as [T | [T [C [Ra [Da [Rg Nu]]]]]].
    - rewrite T. reflexivity.
    - rewrite T, C, Ra, Da, Rg, Nu. reflexivity. }
  rewrite D. cbv zeta. cbn [out_result out_actions out_page fst snd].
  rewrite (reread_update pg e kids (set_value now)) by (reflexivity || exact E).
  split; [reflexivity |]. split; [reflexivity |].
  rewrite record_of_update by reflexivity.
  now rewrite Nat.eqb_refl, Rec.
Qed.

(** X6, unsupported controls.  For a reference that resolves, the script
    answers that the element is not a supported form input exactly when the
    element is neither a select, nor an input, nor a textarea, and then for
    every value; the message quotes the tag name, and the page is left as it
    was. *)
Theorem unsupported_exactly (pg : Page) (w w' : Window)
  (elementRef : string) (e : Element) (kids : list Node) (v : Value) :
  resolve pg w elementRef = (w', Normal (Some (ElementNode e kids))) ->
  let o := form_input pg w elementRef v in
  (out_result o = Failure "form_input" (unsupported_message e) <->
   supported e = false) /\
  (supported e = false -> out_page o = pg).
Proof.
  intros R o. subst o. rewrite (form_input_found _ _ _ _ _ _ _ R).
  unfold supported, unsupported_message, dispatch. cbv zeta.
  destruct (String.eqb (tag e) "select") eqn:Ts.
  { split; [| discriminate]. split; [| discriminate].
    destruct (find_option (to_string v) 0 (options e)); discriminate. }
  destruct (String.eqb (tag e) "input") eqn:Ti.
  { cbn [andb orb]. split; [| discriminate]. split; [| discriminate].
    destruct (String.eqb (type e) "checkbox");
      [destruct v; discriminate |].
    destruct (String.eqb (type e) "radio"); [discriminate |].
    destruct (date_like (type e)); [discriminate |].
    destruct (String.eqb (type e) "range");
      [destruct (isNaN (to_number v)); discriminate |].
    destruct (String.eqb (type e) "number");
      [destruct (isNaN (to_number v) && not_empty_string v); discriminate |].
    discriminate. }
  cbn [andb orb].
  destruct (String.eqb (tag e) "textarea") eqn:Ta.
  { split; [| discriminate]. split; discriminate. }
  split; [split; reflexivity | reflexivity].
Qed.

(** X7, what the value setter leaves alone.  Whatever the reference and the
    value, and whether it succeeds or not, the script attaches and detaches
    nothing, and writes to no element other than the one the reference is
    bound to; the viewport and the set of collected objects are those of the
    page before the call.  (What the browser does in response to a write or
    an event, unchecking the other radios of a group or running listeners,
    is not the script's doing.) *)
Theorem form_input_frame (pg : Page) (w : Window) (elementRef : string)
  (v : Value) :
  let o := form_input pg w elementRef v in
  document_uids (out_page o) = document_uids pg /\
  collected (out_page o) = collected pg /\
  innerWidth (out_page o) = innerWidth pg /\
  innerHeight (out_page o) = innerHeight pg /\
  forall u, Session.binding w elementRef <> Some u ->
    record_of (out_page o) u = record_of pg u.
Proof.
  intros o. subst o. unfold form_input, form_input_try.
  destruct (resolve pg w elementRef) as [w' [[[s | e kids] |] | msg]] eqn:R;
    try (cbn [out_page]; repeat split; reflexivity).
  destruct (resolve_found _ _ _ _ _ R) as [-> [e0 [k0 [m [N [E [M [O _]]]]]]]].
  injection N as <- <-.
  pose proof (dispatch_page pg elementRef v e) as P.
  destruct (dispatch pg elementRef v e) as [[pg' acts] r]. cbn [out_page].
  cbn [fst] in P. destruct P as [-> | [f [Hf ->]]].
  - repeat split; reflexivity.
  - split; [now apply document_uids_update |].
    split; [reflexivity |]. split; [reflexivity |]. split; [reflexivity |].
    intros u Hu. rewrite record_of_update by exact Hf.
    destruct (Nat.eqb u (uid e)) eqn:Eu; [| reflexivity].
    apply Nat.eqb_eq in Eu. subst u. exfalso. apply Hu.
    unfold Session.binding. now rewrite M.
Qed.

(** X8, the events of a success.  Whenever the script succeeds, on whatever
    control, what it has done on the DOM is, in this order: the smooth
    scroll, the focus, at most one move of the caret, one bubbling "change"
    and one bubbling "input"; all of it on the element found. *)
Theorem success_events (pg : Page) (w w' : Window) (elementRef : string)
  (e : Element) (kids : list Node) (v : Value) :
  resolve pg w elementRef = (w', Normal (Some (ElementNode e kids))) ->
  let o := form_input pg w elementRef v in
  success (out_result o) = true ->
  out_actions o = success_trace (uid e) [] \/
  exists n, out_actions o = success_trace (uid e) [SetSelectionRange (uid e) n n].
Proof.
  intros R o. subst o. rewrite (form_input_found _ _ _ _ _ _ _ R).
  cbn [out_result out_actions]. unfold dispatch. cbv zeta.
  destruct (String.eqb (tag e) "select").
  { destruct (find_option (to_string v) 0 (options e)); [now left | discriminate]. }
  destruct (String.eqb (tag e) "input" && String.eqb (type e) "checkbox").
  { destruct v; try discriminate. now left. }
  destruct (String.eqb (tag e) "input" && String.eqb (type e) "radio");
    [now left |].
  destruct (String.eqb (tag e) "input" && date_like (type e)); [now left |].
  destruct (String.eqb (tag e) "input" && String.eqb (type e) "range").
  { destruct (isNaN (to_number v)); [discriminate | now left]. }
  destruct (String.eqb (tag e) "input" && String.eqb (type e) "number").
  { destruct (isNaN (to_number v) && not_empty_string v);
      [discriminate | now left]. }
  destruct (String.eqb (tag e) "input" || String.eqb (tag e) "textarea");
    [| discriminate].
  intros _. right. eexists. reflexivity.
Qed.

(** X9, a reference outlives the value setter.  After the script has run on
    a reference that resolves, whatever it returned, the same reference
    resolves again, with the globals untouched, to the element of the same
    identity on the page the script left. *)
Theorem reference_survives_form_input (pg : Page) (w w' : Window)
  (elementRef : string) (e : Element) (kids : list Node) (v : Value) :
  resolve pg w elementRef = (w', Normal (Some (ElementNode e kids))) ->
  let o := form_input pg w elementRef v in
  out_window o = w /\
  exists e' kids',
    resolve (out_page o) (out_window o) elementRef =
      (w, Normal (Some (ElementNode e' kids'))) /\
    uid e' = uid e /\
    Locator.success
      (out_result (Locator.get_element (out_page o) (out_window o) elementRef))
    = true.
Proof.
  intros R o. subst o.
  destruct (resolve_found _ _ _ _ _ R) as [-> [e0 [k0 [m [N [E [M [O A]]]]]]]].
  injection N as <- <-.
  rewrite (form_input_found _ _ _ _ _ _ _ R). cbn [out_window out_page].
  split; [reflexivity |].
  assert (Hres : forall pg' e' kids',
            collected pg' = collected pg ->
            element_by_uid pg' (uid e) = Some (ElementNode e' kids') ->
            resolve pg' w elementRef = (w, Normal (Some (ElementNode e' kids')))).
  { intros pg' e' kids' C E'. unfold resolve, get, deref.
    rewrite M, O, C.
    destruct (existsb (Nat.eqb (uid e)) (collected pg)) eqn:X.
    - exfalso. apply A. apply existsb_exists in X. destruct X as [x [Hx Hu]].
      apply Nat.eqb_eq in Hu. now subst.
    - now rewrite E'. }
  assert (Hfin : forall pg' e' kids',
            collected pg' = collected pg ->
            element_by_uid pg' (uid e) = Some (ElementNode e' kids') ->
            uid e' = uid e ->
            exists e1 k1,
              resolve pg' w elementRef = (w, Normal (Some (ElementNode e1 k1))) /\
              uid e1 = uid e /\
              Locator.success
                (out_result (Locator.get_element pg' w elementRef)) = true).
  { intros pg' e' kids' C E' U. exists e', kids'.
    pose proof (Hres pg' e' kids' C E') as R'.
    split; [exact R' |]. split; [exact U |].
    unfold Locator.get_element, Locator.get_element_try. now rewrite R'. }
  destruct (dispatch_page pg elementRef v e) as [-> | [f [Hf ->]]].
  - now apply (Hfin pg e kids).
  - apply (Hfin _ (f e) (map (update (uid e) f) kids)); [reflexivity | | apply Hf].
    now apply element_by_uid_update.
Qed.

End Branches.

Lemma radio_always_checked_witness :
  let w := Sample.after_snapshot radio_page in
  let radio := Sample.input 3 "radio" "on" false in
  let o := form_input (host := Sample.host) radio_page w "ref_2" (Bool false) in
  resolve radio_page w "ref_2" = (w, Normal (Some (ElementNode radio []))) /\
  tag radio = "input" /\ type radio = "radio" /\
  out_result o =
    Success {| ref := "ref_2"; element_type := "radio";
               previous_value := Bool false; new_value := Bool true;
               message := "Radio button selected" |} /\
  record_of (out_page o) 3 = Some (set_checked true radio).
Proof.
  intros w radio o.
  pose proof (radio_always_checked (host := Sample.host) radio_page w w "ref_2"
                radio [] (Bool false) eq_refl eq_refl eq_refl) as [T1 [_ T3]].
  split; [reflexivity |]. split; [reflexivity |]. split; [reflexivity |].
  split; [exact T1 | exact T3].
Defined.

Lemma date_like_unvalidated_witness :
  let w := Sample.after_snapshot date_page in
  let date := Sample.input 3 "date" EmptyString false in
  let o :=
    form_input (host := Sample.host) date_page w "ref_2" (Str "not a date") in
  resolve date_page w "ref_2" = (w, Normal (Some (ElementNode date []))) /\
  tag date = "input" /\ date_like (type date) = true /\
  success (out_result o) = true /\
  record_of (out_page o) 3 = Some (set_value "not a date" date).
Proof.
  intros w date o.
  pose proof (date_like_unvalidated (host := Sample.host) date_page w w "ref_2"
                date [] (Str "not a date") eq_refl eq_refl eq_refl)
    as [T1 [_ T3]].
  split; [reflexivity |]. split; [reflexivity |]. split; [reflexivity |].
  split; [| exact T3].
  change (success (out_result o)) with
    (success (host := Sample.host)
       (out_result
          (form_input (host := Sample.host) date_page w "ref_2"
             (Str "not a date")))).
  cbv zeta in T1. now rewrite T1.
Defined.

Lemma range_requires_number_witness :
  let w := Sample.after_snapshot Sample.range_page in
  let range := Sample.input 3 "range" "50" false in
  resolve Sample.range_page w "ref_2" = (w, Normal (Some (ElementNode range []))) /\
  tag range = "input" /\ type range = "range" /\
  record_of
    (out_page (form_input (host := Sample.host) Sample.range_page w "ref_2"
                 (Str "75"))) 3 = Some (set_value "75" range) /\
  out_result
    (form_input (host := Sample.host) Sample.range_page w "ref_2" (Str "high")) =
  Failure "form_input" "Range input requires a numeric value".
Proof.
  intros w range.
  pose proof (range_requires_number (host := Sample.host) Sample.range_page w w
                "ref_2" range [] (Str "75") eq_refl eq_refl eq_refl)
    as [_ [T2 _]].
  pose proof (range_requires_number (host := Sample.host) Sample.range_page w w
                "ref_2" range [] (Str "high") eq_refl eq_refl eq_refl)
    as [_ [_ T3]].
  split; [reflexivity |]. split; [reflexivity |]. split; [reflexivity |].
  split.
  - exact (proj2 (proj2 (T2 eq_refl))).
  - exact (proj1 (T3 eq_refl)).
Defined.

Lemma number_accepts_empty_witness :
  let w := Sample.after_snapshot number_page in
  let number := Sample.input 3 "number" "7" false in
  resolve number_page w "ref_2" = (w, Normal (Some (ElementNode number []))) /\
  tag number = "input" /\ type number = "number" /\
  success
    (out_result
       (form_input (host := Sample.host) number_page w "ref_2"
          (Str EmptyString))) = true /\
  success
    (out_result
       (form_input (host := Sample.host) number_page w "ref_2" (Str "x"))) =
  false.
Proof.
  intros w number.
  pose proof (number_accepts_empty (host := Sample.host) number_page w w "ref_2"
                number [] (Str "x") eq_refl eq_refl eq_refl) as T.
  split; [reflexivity |]. split; [reflexivity |]. split; [reflexivity |].
  split.
  - exact (proj2 (proj2 (proj2 T))).
  - exact (proj1 T).
Defined.

Lemma text_always_assigned_witness :
  let w := Sample.after_snapshot text_page in
  let text := Sample.input 3 "text" "abc" false in
  let o := form_input (host := Sample.host) text_page w "ref_2" (Bool true) in
  resolve text_page w "ref_2" = (w, Normal (Some (ElementNode text []))) /\
  text_control text = true /\
  out_result o =
    Success {| ref := "ref_2"; element_type := "text";
               previous_value := Str "abc"; new_value := Str "true";
               message := "Set text value to " ++ Js.dq ++ "true" ++ Js.dq |} /\
  out_actions o =
    [ScrollIntoView 3 "smooth" (Some "center") None; Focus 3;
     SetSelectionRange 3 4 4; DispatchEvent 3 "change" true;
     DispatchEvent 3 "input" true].
Proof.
  intros w text o.
  pose proof (text_always_assigned (host := Sample.host) text_page w w "ref_2"
                text [] (Bool true) eq_refl eq_refl) as [T1 [T2 _]].
  split; [reflexivity |]. split; [reflexivity |].
  split; [exact T1 | exact T2].
Defined.

Lemma unsupported_exactly_witness :
  let w := Sample.after_snapshot Sample.button_page in
  let button := Sample.element 3 "BUTTON" [] in
  let o :=
    form_input (host := Sample.host) Sample.button_page w "ref_2" (Str "x") in
  resolve Sample.button_page w "ref_2" =
    (w, Normal (Some (ElementNode button [TextNode "Go"]))) /\
  supported button = false /\
  out_result o =
    Failure "form_input"
      ("Element type " ++ Js.dq ++ "BUTTON" ++ Js.dq ++
       " is not a supported form input") /\
  out_page o = Sample.button_page.
Proof.
  intros w button o.
  pose proof (unsupported_exactly (host := Sample.host) Sample.button_page w w
                "ref_2" button [TextNode "Go"] (Str "x") eq_refl) as [T1 T2].
  split; [reflexivity |]. split; [reflexivity |].
  split; [exact (proj2 T1 eq_refl) | exact (T2 eq_refl)].
Defined.

Lemma success_events_witness :
  let w := Sample.after_snapshot Sample.checkbox_page in
  let box := Sample.input 3 "checkbox" "on" false in
  let o :=
    form_input (host := Sample.host) Sample.checkbox_page w "ref_2" (Bool true) in
  resolve Sample.checkbox_page w "ref_2" =
    (w, Normal (Some (ElementNode box []))) /\
  success (out_result o) = true /\
  (out_actions o = success_trace 3 [] \/
   exists n, out_actions o = success_trace 3 [SetSelectionRange 3 n n]).
Proof.
  intros w box o.
  split; [reflexivity |]. split; [reflexivity |].
  exact (success_events (host := Sample.host) Sample.checkbox_page w w "ref_2"
           box [] (Bool true) eq_refl eq_refl).
Defined.

Lemma reference_survives_form_input_witness :
  let w := Sample.after_snapshot Sample.checkbox_page in
  let box := Sample.input 3 "checkbox" "on" false in
  let o :=
    form_input (host := Sample.host) Sample.checkbox_page w "ref_2" (Bool true) in
  resolve Sample.checkbox_page w "ref_2" =
    (w, Normal (Some (ElementNode box []))) /\
  out_window o = w /\
  exists e' kids',
    resolve (out_page o) (out_window o) "ref_2" =
      (w, Normal (Some (ElementNode e' kids'))) /\
    uid e' = 3 /\
    Locator.success
      (out_result (Locator.get_element (out_page o) (out_window o) "ref_2"))
    = true.
Proof.
  intros w box o.
  split; [reflexivity |].
  exact (reference_survives_form_input (host := Sample.host)
           Sample.checkbox_page w w "ref_2" box [] (Bool true) eq_refl).
Defined.

Lemma form_input_frame_witness :
  let w := Sample.after_snapshot Sample.checkbox_page in
  let o :=
    form_input (host := Sample.host) Sample.checkbox_page w "ref_2" (Bool true) in
  Session.binding w "ref_2" <> Some 2 /\
  record_of (out_page o) 2 = record_of Sample.checkbox_page 2 /\
  document_uids (out_page o) = [0; 1; 2; 3].
Proof.
  intros w o.
  pose proof (form_input_frame (host := Sample.host) Sample.checkbox_page w
                "ref_2" (Bool true)) as [T1 [_ [_ [_ T5]]]].
  assert (H : Session.binding w "ref_2" <> Some 2) by discriminate.
  split; [exact H |]. split; [exact (T5 2 H) | exact T1].
Defined.

End BranchFacts.

(** ** The locator and the registry *)

Module LocatorFacts.
Import Dom Registry Inv Notions RegistryFacts TreeFacts ResolveFacts SessionFacts
  Session.
Local Open Scope list_scope.

Lemma contains_true (pg : Page) (u : nat) :
  contains pg u = true ->
  exists e kids, element_by_uid pg u = Some (ElementNode e kids) /\ uid e = u.
Proof.
  intros H. destruct (element_by_uid pg u) as [n |] eqn:E.
  - destruct (find_has_uid _ _ _ E) as [e [kids [-> U]]]. now exists e, kids.
  - apply contains_false in E. congruence.
Qed.

Lemma not_collected (pg : Page) (r : nat) :
  existsb (Nat.eqb r) (collected pg) = false <-> ~ In r (collected pg).
Proof.
  split.
  - intros H Hin. apply Bool.not_true_iff_false in H. apply H.
    apply existsb_exists. exists r. split; [exact Hin | apply Nat.eqb_refl].
  - intros H. apply Bool.not_true_iff_false. intros X.
    apply existsb_exists in X. destruct X as [x [Hx E]].
    apply Nat.eqb_eq in E. now subst.
Qed.

(** What the lookup finds, from the entry of the reference. *)
Lemma resolve_live (pg : Page) (w : Window) (k : string) (r : nat) :
  binding w k = Some r -> ~ In r (collected pg) -> contains pg r = true ->
  exists e kids,
    resolve pg w k = (w, Normal (Some (ElementNode e kids))) /\ uid e = r.
Proof.
  unfold binding. intros B A C.
  destruct (claudeElementMap w) as [m |] eqn:M; [| discriminate].
  destruct (contains_true pg r C) as [e [kids [E U]]].
  exists e, kids. split; [| exact U].
  unfold resolve, get, deref. rewrite M, B.
  apply not_collected in A. now rewrite A, E.
Qed.

Lemma resolve_found_live (pg : Page) (w w' : Window) (k : string) (n : Node) :
  resolve pg w k = (w', Normal (Some n)) ->
  exists r, binding w k = Some r /\ ~ In r (collected pg) /\
            contains pg r = true /\ node_uid n = Some r.
Proof.
  intros R. destruct (resolve_found _ _ _ _ _ R)
    as [-> [e [kids [m [-> [E [M [O A]]]]]]]].
  exists (uid e). unfold binding. rewrite M.
  split; [exact O |]. split; [exact A |]. split; [| reflexivity].
  destruct (contains pg (uid e)) eqn:C; [reflexivity |].
  apply contains_false in C. congruence.
Qed.

(** The names a plain object inherits are not reference ids. *)
Lemma prototype_name_unkeyed (k : string) (n : nat) :
  In k prototype_names -> k <> ref_name n.
Proof.
  unfold prototype_names, ref_name. cbn [In].
  intros H E. subst k. cbn [String.append] in H.
  repeat (destruct H as [H | H]; [discriminate H |]). exact H.
Qed.

Lemma prototype_name_mem (k : string) :
  In k prototype_names -> Js.mem k prototype_names = true.
Proof.
  intros H. unfold Js.mem. apply existsb_exists. exists k.
  split; [exact H | apply String.eqb_refl].
Qed.

Lemma inherited_resolve (pg : Page) (w : Window) (m : ElementMap) (k : string) :
  window_ok w -> claudeElementMap w = Some m -> In k prototype_names ->
  resolve pg w k = (w, Throw deref_type_error).
Proof.
  intros [K _] M P. unfold entries in K. rewrite M in K.
  unfold resolve, get. rewrite M.
  destruct (own m k) as [r |] eqn:O.
  - apply own_in in O. destruct (K _ _ O) as [n [E _]].
    now apply prototype_name_unkeyed in E.
  - now rewrite prototype_name_mem.
Qed.

(** X10, when the locator succeeds.  The locator succeeds exactly when the
    reference has an entry whose element is neither collected nor detached;
    it then leaves the two globals as they were and its one call on the DOM
    is the instant scroll of that element to the centre; when it fails it
    has made no call on the DOM; it never changes the page. *)
Theorem locator_succeeds_iff (pg : Page) (w : Window) (k : string) :
  let o := Locator.get_element pg w k in
  (Locator.success (out_result o) = true <->
   exists r, binding w k = Some r /\ ~ In r (collected pg) /\
             contains pg r = true) /\
  (Locator.success (out_result o) = true ->
   out_window o = w /\
   exists r, binding w k = Some r /\
     out_actions o =
       [ScrollIntoView r "instant" (Some "center") (Some "center")]) /\
  (Locator.success (out_result o) = false -> out_actions o = []) /\
  out_page o = pg.
Proof.
  intros o. subst o. unfold Locator.get_element, Locator.get_element_try.
  destruct (resolve pg w k) as [w' [[[s | e kids] |] | msg]] eqn:R;
    cbn [out_result out_actions out_window out_page Locator.success].
  - destruct (resolve_found _ _ _ _ _ R) as [_ [e [kids [m [N _]]]]].
    discriminate N.
  - destruct (resolve_found_live _ _ _ _ _ R) as [r [B [A [C U]]]].
    injection U as <-.
    destruct (resolve_found _ _ _ _ _ R) as [-> _].
    split; [split; [intros _; now exists (uid e) | reflexivity] |].
    split; [intros _; split; [reflexivity | now exists (uid e)] |].
    split; [discriminate | reflexivity].
  - split; [split; [discriminate |] |].
    + intros [r [B [A C]]].
      destruct (resolve_live pg w k r B A C) as [e [kids [R' _]]]. congruence.
    + split; [discriminate |]. split; reflexivity.
  - split; [split; [discriminate |] |].
    + intros [r [B [A C]]].
      destruct (resolve_live pg w k r B A C) as [e [kids [R' _]]]. congruence.
    + split; [discriminate |]. split; reflexivity.
Qed.

Section Calls.
Context {host : ValueSetter.Host}.

(** X11, the names of [Object.prototype].  At any point of a page session
    once the map is installed, a reference spelled like a member that a
    plain object inherits ("constructor", "toString", "__proto__", ...) is
    not reported as not found: the lookup reads the inherited member, the
    call of [deref] on it raises, and both scripts return the failure of
    their [catch] clause, whose message starts with "Error"; the globals
    and the page are left as they were. *)
Theorem inherited_name_is_caught (pg : Page) (w : Window) (m : ElementMap)
  (k : string) (v : ValueSetter.Value) :
  session w -> claudeElementMap w = Some m -> In k prototype_names ->
  let located := Locator.get_element pg w k in
  let set := ValueSetter.form_input pg w k v in
  out_result located =
    Locator.Failure "get_element"
      ("Error finding element by reference: " ++ deref_type_error)%string /\
  out_result set =
    ValueSetter.Failure "form_input"
      ("Error setting form value: " ++ deref_type_error)%string /\
  out_result located <>
    Locator.Failure "get_element" (not_found_message k) /\
  out_window located = w /\ out_window set = w /\
  out_page located = pg /\ out_page set = pg /\
  out_actions located = [] /\ out_actions set = [].
Proof.
  intros Hs M P located set. subst located set.
  destruct (session_ok w Hs) as [Ok _].
  pose proof (inherited_resolve pg w m k Ok M P) as R.
  unfold Locator.get_element, Locator.get_element_try,
    ValueSetter.form_input, ValueSetter.form_input_try.
  rewrite R. cbn [out_result out_window out_page out_actions].
  repeat split. discriminate.
Qed.

(** X12, the registry under the locator and the value setter.  Neither
    script ever adds an entry, changes the target of one, or moves the
    counter: both leave the same globals, in which the counter is the one
    before, every other reference is bound as before, and the reference
    passed is bound as before or, when its element was collected or
    detached, to nothing. *)
Theorem lookups_only_delete (pg : Page) (w : Window) (k : string)
  (v : ValueSetter.Value) :
  let w' := out_window (Locator.get_element pg w k) in
  out_window (ValueSetter.form_input pg w k v) = w' /\
  claudeRefCounter w' = claudeRefCounter w /\
  (forall k', k' <> k -> binding w' k' = binding w k') /\
  (binding w' k = binding w k \/
   binding w' k = None /\
   exists r, binding w k = Some r /\
     (In r (collected pg) \/ contains pg r = false)).
Proof.
  intros w'. subst w'. rewrite get_element_window, form_input_window.
  split; [reflexivity |].
  unfold resolve, get, binding.
  destruct (claudeElementMap w) as [m |] eqn:M; cbn [fst].
  2: { rewrite M. split; [reflexivity |]. split; [reflexivity | now left]. }
  assert (Hdel : forall k', k' <> k -> own (delete k m) k' = own m k').
  { intros k' Hk. rewrite own_delete.
    destruct (String.eqb k k') eqn:E; [| reflexivity].
    apply String.eqb_eq in E. congruence. }
  assert (Hgone : own (delete k m) k = None).
  { now rewrite own_delete, String.eqb_refl. }
  destruct (own m k) as [r |] eqn:O.
  - destruct (deref pg r) as [u |] eqn:D.
    + apply deref_some in D. destruct D as [-> D].
      destruct (element_by_uid pg r) as [n |] eqn:E; cbn [fst].
      * rewrite M. split; [reflexivity |]. split; [reflexivity |].
        left. exact O.
      * cbn [claudeElementMap claudeRefCounter].
        split; [reflexivity |]. split; [exact Hdel |]. right.
        split; [exact Hgone |]. exists r. split; [reflexivity |]. right.
        now apply contains_false.
    + apply deref_none in D. cbn [fst claudeElementMap claudeRefCounter].
      split; [reflexivity |]. split; [exact Hdel |]. right.
      split; [exact Hgone |]. exists r. split; [reflexivity |]. now left.
  - destruct (Js.mem k prototype_names); cbn [fst]; rewrite M;
      (split; [reflexivity |]); (split; [reflexivity |]); left; exact O.
Qed.

End Calls.

Lemma inherited_name_is_caught_witness :
  let w := Sample.after_snapshot Sample.button_page in
  session (host := Sample.host) w /\
  claudeElementMap w = Some [("ref_1", 2); ("ref_2", 3)] /\
  In "constructor" prototype_names /\
  out_result (Locator.get_element Sample.button_page w "constructor") =
    Locator.Failure "get_element"
      "Error finding element by reference: weakRef.deref is not a function" /\
  out_result
    (ValueSetter.form_input (host := Sample.host) Sample.button_page w
       "constructor" (ValueSetter.Str "x")) =
    ValueSetter.Failure "form_input"
      "Error setting form value: weakRef.deref is not a function".
Proof.
  intros w.
  assert (A : attached_alive Sample.button_page)
    by apply SnapshotFacts.sample_attached_alive.
  assert (Hs : session (host := Sample.host) w).
  { change w with
      (run (host := Sample.host) Sample.button_page (ReadPage None)
         (run (host := Sample.host) Sample.button_page Install fresh)).
    apply session_call; [| exact A].
    apply session_call; [| exact A].
    apply session_fresh. }
  assert (P : In "constructor" prototype_names) by (now left).
  destruct (inherited_name_is_caught (host := Sample.host) Sample.button_page w
              [("ref_1", 2); ("ref_2", 3)] "constructor" (ValueSetter.Str "x")
              Hs eq_refl P) as [T1 [T2 _]].
  split; [exact Hs |]. split; [reflexivity |]. split; [exact P |].
  split; [exact T1 | exact T2].
Defined.

End LocatorFacts.

(** ** The lines of a snapshot *)

Module LineFacts.
Import Dom Registry Snapshot Inv Notions TreeFacts RegistryFacts SnapshotFacts
  ResolveFacts SessionFacts Session LocatorFacts.
Local Open Scope list_scope.

Lemma pushed_element (pg : Page) (filter : option string)
  (e : Element) (kids : list Node) (d : nat) :
  pushed pg filter (ElementNode e kids) d =
  if 15 <? d then []
  else if negb (Js.truthy (tagName e)) then []
  else
    let inc :=
      shouldIncludeElement pg filter (ElementNode e kids) || Nat.eqb d 0 in
    (if inc then [(e, kids, d)] else []) ++
    (if d <? 15 then
       flat_map (fun child => pushed pg filter child (if inc then d + 1 else d))
         kids
     else []).
Proof. reflexivity. Qed.

Lemma include_line (pg : Page) (e : Element) (kids : list Node) (d : nat)
  (t : Traversal) :
  exists ref,
    result (include pg (ElementNode e kids) e d t) =
    result t ++ [line pg e kids d ref] /\
    ref = fst (fst (allocate pg (elementMap t) (refCounter t) (uid e))).
Proof.
  unfold include.
  destruct (allocate pg (elementMap t) (refCounter t) (uid e)) as [[k m'] c'].
  exists k. split; reflexivity.
Qed.

(** The lines a traversal pushes are those of [pushed], in order. *)
Lemma processElement_pushed (pg : Page) (filter : option string) (n : Node) :
  forall d t, exists l,
    result (processElement pg filter n d t) = result t ++ l /\
    Forall2 (line_of pg) (pushed pg filter n d) l.
Proof.
  induction n as [s | e kids IH] using node_induction; intros d t.
  - exists []. simpl. split; [now rewrite app_nil_r | constructor].
  - rewrite processElement_element, pushed_element.
    destruct (15 <? d);
      [exists []; split; [now rewrite app_nil_r | constructor] |].
    destruct (negb (Js.truthy (tagName e)));
      [exists []; split; [now rewrite app_nil_r | constructor] |].
    cbv zeta.
    set (inc := shouldIncludeElement pg filter (ElementNode e kids) || Nat.eqb d 0).
    set (t1 := if inc then include pg (ElementNode e kids) e d t else t).
    assert (H1 : exists l1, result t1 = result t ++ l1 /\
                   Forall2 (line_of pg) (if inc then [(e, kids, d)] else []) l1).
    { subst t1. destruct inc.
      - destruct (include_line pg e kids d t) as [ref [R _]].
        exists [line pg e kids d ref]. split; [exact R |].
        constructor; [reflexivity | constructor].
      - exists []. split; [now rewrite app_nil_r | constructor]. }
    destruct H1 as [l1 [R1 F1]].
    destruct (d <? 15).
    2: { exists l1. rewrite app_nil_r. now split. }
    assert (H2 : exists l2,
               result
                 (fold_left
                    (fun acc child =>
                       processElement pg filter child
                         (if inc then d + 1 else d) acc) kids t1) =
               result t1 ++ l2 /\
               Forall2 (line_of pg)
                 (flat_map
                    (fun child =>
                       pushed pg filter child (if inc then d + 1 else d)) kids)
                 l2).
    { clearbody t1. clear R1 F1. clearbody inc. revert t1.
      induction IH as [| k kids Hk _ IHkids]; intros t1; simpl.
      - exists []. split; [now rewrite app_nil_r | constructor].
      - destruct (Hk (if inc then d + 1 else d) t1) as [la [Ra Fa]].
        destruct (IHkids (processElement pg filter k (if inc then d + 1 else d) t1))
          as [lb [Rb Fb]].
        exists (la ++ lb). split.
        + now rewrite Rb, Ra, app_assoc.
        + now apply Forall2_app. }
    destruct H2 as [l2 [R2 F2]].
    exists (l1 ++ l2). split.
    + now rewrite R2, R1, app_assoc.
    + now apply Forall2_app.
Qed.

Lemma elements_self (e : Element) (kids : list Node) :
  In (ElementNode e kids) (elements (ElementNode e kids)).
Proof. now left. Qed.

Lemma elements_child (e : Element) (kids : list Node) (k x : Node) :
  In k kids -> In x (elements k) -> In x (elements (ElementNode e kids)).
Proof.
  intros Hk Hx. simpl. right. apply in_flat_map. now exists k.
Qed.

(** What [pushed] holds: elements of the tree walked, between the depth
    the walk starts at and the limit; below the root of the walk, only
    elements that the inclusion decision accepts. *)
Lemma pushed_sound (pg : Page) (filter : option string) (n : Node) :
  forall d e kids k,
    In (e, kids, k) (pushed pg filter n d) ->
    d <= k <= 15 /\
    In (ElementNode e kids) (elements n) /\
    Js.truthy (tagName e) = true /\
    ((1 <= k /\ shouldIncludeElement pg filter (ElementNode e kids) = true) \/
     (k = 0 /\ d = 0 /\ ElementNode e kids = n)).
Proof.
  induction n as [s | e0 kids0 IH] using node_induction;
    intros d e kids k Hin.
  - destruct Hin.
  - rewrite pushed_element in Hin.
    destruct (15 <? d) eqn:L15; [destruct Hin |].
    apply Nat.ltb_ge in L15.
    destruct (Js.truthy (tagName e0)) eqn:T; [| destruct Hin].
    cbn [negb] in Hin. cbv zeta in Hin.
    destruct (shouldIncludeElement pg filter (ElementNode e0 kids0)) eqn:S.
    + (* the root of the walk is accepted *)
      cbn [orb] in Hin. apply in_app_or in Hin.
      destruct Hin as [[Heq | []] | Hin].
      * injection Heq as <- <- <-.
        split; [lia |]. split; [apply elements_self |]. split; [exact T |].
        destruct d as [| d]; [right; tauto | left; split; [lia | exact S]].
      * destruct (d <? 15) eqn:Ld; [| destruct Hin].
        apply Nat.ltb_lt in Ld. apply in_flat_map in Hin.
        destruct Hin as [child [Hc Hin]].
        rewrite Forall_forall in IH.
        destruct (IH child Hc (d + 1) e kids k Hin) as [Hk [He [Ht Hs]]].
        split; [lia |]. split; [now apply (elements_child e0 kids0 child) |].
        split; [exact Ht |].
        destruct Hs as [Hs | [_ [Hd _]]]; [now left | lia].
    + cbn [orb] in Hin. destruct (Nat.eqb d 0) eqn:D0.
      * apply Nat.eqb_eq in D0. subst d. apply in_app_or in Hin.
        destruct Hin as [[Heq | []] | Hin].
        -- injection Heq as <- <- <-.
           split; [lia |]. split; [apply elements_self |]. split; [exact T |].
           right. tauto.
        -- cbn [Nat.ltb Nat.leb] in Hin. apply in_flat_map in Hin.
           destruct Hin as [child [Hc Hin]].
           rewrite Forall_forall in IH.
           destruct (IH child Hc (0 + 1) e kids k Hin) as [Hk [He [Ht Hs]]].
           split; [lia |].
           split; [now apply (elements_child e0 kids0 child) |].
           split; [exact Ht |].
           destruct Hs as [Hs | [_ [Hd _]]]; [now left | lia].
      * apply Nat.eqb_neq in D0. cbn [app] in Hin.
        destruct (d <? 15) eqn:Ld; [| destruct Hin].
        apply in_flat_map in Hin. destruct Hin as [child [Hc Hin]].
        rewrite Forall_forall in IH.
        destruct (IH child Hc d e kids k Hin) as [Hk [He [Ht Hs]]].
        split; [lia |]. split; [now apply (elements_child e0 kids0 child) |].
        split; [exact Ht |].
        destruct Hs as [Hs | [_ [Hd _]]]; [now left | lia].
Qed.

(** The lines of a pass are those of [pushed] from the body. *)
Lemma pass_pushed (pg : Page) (filter : option string) (m : ElementMap)
  (c : nat) (b : Node) :
  body pg = Some b ->
  Forall2 (line_of pg) (pushed pg filter b 0) (result (pass pg filter m c)).
Proof.
  intros B. unfold pass. rewrite B. cbn [result].
  destruct (processElement_pushed pg filter b 0
              {| elementMap := m; refCounter := c; result := [] |})
    as [l [R F]].
  rewrite R. exact F.
Qed.

Lemma Forall2_in_r (A B : Type) (R : A -> B -> Prop) (l : list A)
  (l' : list B) (y : B) :
  Forall2 R l l' -> In y l' -> exists x, In x l /\ R x y.
Proof.
  induction 1 as [| a b l l' Hab _ IH]; intros Hin; [destruct Hin |].
  destruct Hin as [<- | Hin].
  - exists a. split; [now left | exact Hab].
  - destruct (IH Hin) as [x [Hx Rx]]. exists x. split; [now right | exact Rx].
Qed.

(** An element the inclusion decision accepts has passed the tests that
    come before the filter, and the filter. *)
Lemma accepted_perceivable (pg : Page) (filter : option string)
  (e : Element) (kids : list Node) :
  shouldIncludeElement pg filter (ElementNode e kids) = true ->
  perceivable pg filter e = true /\
  (filter_is filter "interactive" = true -> isInteractive e = true).
Proof.
  unfold shouldIncludeElement, perceivable.
  destruct (Js.mem (tag e) ["script"; "style"; "meta"; "link"; "title"; "noscript"]);
    [discriminate |].
  destruct (attr_is e "aria-hidden" "true"); [discriminate |].
  destruct (isVisible e); [| discriminate].
  cbn [negb andb].
  destruct (filter_is filter "all"); cbn [negb andb orb].
  - intros H. split; [reflexivity |].
    destruct (filter_is filter "interactive"); [now intros _ | discriminate].
  - destruct (inViewport pg e); [| discriminate]. cbn [negb].
    intros H. split; [reflexivity |].
    destruct (filter_is filter "interactive"); [now intros _ | discriminate].
Qed.

(** Every line of a pass is the line of an element [pushed] lists. *)
Lemma pass_line_source (pg : Page) (filter : option string) (m : ElementMap)
  (c : nat) (em : Emitted) :
  In em (result (pass pg filter m c)) ->
  exists b e kids,
    body pg = Some b /\
    In (e, kids, em_depth em) (pushed pg filter b 0) /\
    em = line pg e kids (em_depth em) (em_ref em).
Proof.
  intros Hin. destruct (body pg) as [b |] eqn:B.
  - destruct (Forall2_in_r _ _ _ _ _ _ (pass_pushed pg filter m c b B) Hin)
      as [[[e kids] k] [Hp L]].
    unfold line_of in L. cbn [fst snd] in L.
    assert (Hk : em_depth em = k) by (rewrite L; reflexivity).
    exists b, e, kids. rewrite Hk. tauto.
  - unfold pass in Hin. rewrite B in Hin. destruct Hin.
Qed.

Lemma elements_trans (n x y : Node) :
  In x (elements n) -> In y (elements x) -> In y (elements n).
Proof.
  induction n as [s | e kids IH] using node_induction; intros Hx Hy.
  - destruct Hx.
  - destruct Hx as [<- | Hx]; [exact Hy |].
    simpl. right. apply in_flat_map in Hx. destruct Hx as [k [Hk Hx]].
    apply in_flat_map. exists k. split; [exact Hk |].
    rewrite Forall_forall in IH. now apply (IH k Hk).
Qed.

(** The elements of the body's subtree are attached. *)
Lemma body_contains (pg : Page) (b : Node) (e : Element) (kids : list Node) :
  body pg = Some b -> In (ElementNode e kids) (elements b) ->
  contains pg (uid e) = true.
Proof.
  intros B Hin. unfold contains, document_elements.
  unfold body in B.
  destruct (documentElement pg) as [[s | r rkids] |]; try discriminate.
  apply find_some in B. destruct B as [Hb _].
  apply existsb_exists. exists (ElementNode e kids). split.
  - apply (elements_child r rkids b); assumption.
  - simpl. apply Nat.eqb_refl.
Qed.

(** X13, where the lines come from.  When the body exists, every line a
    pass pushes is the line of an element of the body's subtree: its role,
    its name and its annotations are that element's, at the depth and under
    the reference recorded, and the depth is at most 15.  The line of depth
    0 is the body's.  Every other line belongs to an element that the
    inclusion decision accepts; such an element is none of script, style,
    meta, link, title and noscript, is not [aria-hidden="true"], is visible,
    intersects the viewport unless the filter is "all", and is interactive
    when the filter is "interactive". *)
Theorem lines_of_accepted_elements (pg : Page) (filter : option string)
  (m : ElementMap) (c : nat) (b : Node) (em : Emitted) :
  body pg = Some b ->
  In em (result (pass pg filter m c)) ->
  exists e kids,
    In (ElementNode e kids) (elements b) /\
    em = line pg e kids (em_depth em) (em_ref em) /\
    em_depth em <= 15 /\
    ((em_depth em = 0 /\ ElementNode e kids = b) \/
     (1 <= em_depth em /\
      shouldIncludeElement pg filter (ElementNode e kids) = true /\
      perceivable pg filter e = true /\
      (filter_is filter "interactive" = true -> isInteractive e = true))).
Proof.
  intros B Hin.
  destruct (pass_line_source pg filter m c em Hin) as [b' [e [kids [B' [Hp L]]]]].
  assert (b' = b) by congruence. subst b'.
  destruct (pushed_sound pg filter b 0 e kids _ Hp) as [Hd [He [_ Hs]]].
  exists e, kids.
  split; [exact He |]. split; [exact L |]. split; [lia |].
  destruct Hs as [[H1 S] | [H0 [_ Hb]]].
  - right. split; [exact H1 |]. split; [exact S |].
    now apply (accepted_perceivable pg filter e kids).
  - left. tauto.
Qed.

Lemma prefix_cancel (a x y : string) :
  String.prefix x y = true -> String.prefix (a ++ x)%string (a ++ y)%string = true.
Proof.
  intros H. induction a as [| c a IHa]; simpl; [exact H |].
  destruct (Ascii.ascii_dec c c); [exact IHa | congruence].
Qed.

(** A line shows its reference between brackets. *)
Lemma includes_ref (e : Element) (d : nat) (role name ref : string) :
  Js.includes (yaml_line e d role name ref) ("[ref=" ++ ref ++ "]")%string = true.
Proof.
  unfold yaml_line.
  apply includes_app_r, includes_app_r, includes_app_r, includes_app_r.
  apply (includes_app_r " "), includes_prefix.
  apply (prefix_cancel "[ref="), prefix_cancel, prefix_app.
Qed.

Lemma Forall2_in_l (A B : Type) (R : A -> B -> Prop) (l : list A)
  (l' : list B) (x : A) :
  Forall2 R l l' -> In x l -> exists y, In y l' /\ R x y.
Proof.
  induction 1 as [| a b l l' Hab _ IH]; intros Hin; [destruct Hin |].
  destruct Hin as [<- | Hin].
  - exists b. split; [now left | exact Hab].
  - destruct (IH Hin) as [y [Hy Ry]]. exists y. split; [now right | exact Ry].
Qed.

Lemma Forall2_same (A B : Type) (R : A -> B -> Prop) (l : list A)
  (l1 l2 : list B) :
  (forall x a b, In a l1 -> In b l2 -> R x a -> R x b -> a = b) ->
  Forall2 R l l1 -> Forall2 R l l2 -> l1 = l2.
Proof.
  intros Hsame H1. revert l2 Hsame.
  induction H1 as [| x a l l1 Ha _ IH]; intros l2 Hsame H2;
    inversion H2 as [| x' b l' l2' Hb H2']; subst; [reflexivity |].
  f_equal.
  - apply (Hsame x); [now left | now left | assumption | assumption].
  - apply IH; [| assumption].
    intros y a' b' Ha' Hb'. apply (Hsame y); now right.
Qed.

Lemma cleanup_idempotent (pg : Page) (m : ElementMap) :
  cleanup pg (cleanup pg m) = cleanup pg m.
Proof.
  unfold cleanup. induction m as [| p m IHm]; simpl; [reflexivity |].
  destruct (deref pg (snd p)) eqn:D; simpl; [| exact IHm].
  now rewrite D, IHm.
Qed.

(** With an entry for every element it pushes a line for, the traversal
    creates no reference. *)
Lemma processElement_settled (pg : Page) (filter : option string) (n : Node)
  (m : ElementMap) (c : nat) :
  well_keyed m c -> single m ->
  forall d t,
    elementMap t = m -> refCounter t = c ->
    (forall e kids k, In (e, kids, k) (pushed pg filter n d) ->
       exists ref, In (ref, uid e) m /\ ~ In (uid e) (collected pg)) ->
    elementMap (processElement pg filter n d t) = m /\
    refCounter (processElement pg filter n d t) = c.
Proof.
  intros K S.
  induction n as [s | e kids IH] using node_induction; intros d t Hm Hc Hp.
  - now split.
  - rewrite processElement_element. rewrite pushed_element in Hp.
    destruct (15 <? d); [now split |].
    destruct (negb (Js.truthy (tagName e))); [now split |].
    cbv zeta in *.
    set (inc := shouldIncludeElement pg filter (ElementNode e kids) || Nat.eqb d 0)
      in *.
    set (t1 := if inc then include pg (ElementNode e kids) e d t else t).
    assert (H1 : elementMap t1 = m /\ refCounter t1 = c).
    { subst t1. destruct inc; [| now split].
      destruct (Hp e kids d) as [ref [Hin Hu]]; [now left |].
      unfold include. rewrite Hm, Hc.
      rewrite (allocate_reuses pg m c ref (uid e) K S Hin Hu). now split. }
    destruct (d <? 15); [| exact H1].
    assert (Hkids : forall child e' kids' k,
               In child kids ->
               In (e', kids', k)
                  (pushed pg filter child (if inc then d + 1 else d)) ->
               exists ref, In (ref, uid e') m /\ ~ In (uid e') (collected pg)).
    { intros child e' kids' k Hc' Hin. apply (Hp e' kids' k).
      apply in_or_app. right. apply in_flat_map. now exists child. }
    clearbody t1. clear Hp Hm Hc. clearbody inc.
    apply (fold_left_invariant _ _ _
             (fun t' => elementMap t' = m /\ refCounter t' = c));
      [| exact H1].
    intros a child Hin [Ha Hb]. rewrite Forall_forall in IH.
    apply (IH child Hin); [exact Ha | exact Hb |].
    intros e' kids' k. now apply Hkids.
Qed.

Lemma traversal_eq (t t' : Traversal) :
  elementMap t = elementMap t' -> refCounter t = refCounter t' ->
  result t = result t' -> t = t'.
Proof. destruct t, t'. simpl. intros -> -> ->. reflexivity. Qed.

(** A second pass over the same page under the same filter changes
    nothing and pushes the same lines. *)
Lemma pass_again (pg : Page) (filter : option string) (m : ElementMap)
  (c : nat) :
  attached_alive pg -> well_keyed m c -> single m ->
  let t1 := pass pg filter m c in
  pass pg filter (elementMap t1) (refCounter t1) = t1.
Proof.
  intros Hpg K S t1.
  destruct (pass_consistent pg filter m c Hpg K S) as [K1 [S1 L1]].
  fold t1 in K1, S1, L1. unfold keyed in K1.
  set (m1 := elementMap t1) in *. set (c1 := refCounter t1) in *.
  destruct (pass_consistent pg filter m1 c1 Hpg K1 S1) as [_ [_ L2]].
  assert (Hclean : cleanup pg m1 = m1).
  { subst m1 t1. unfold pass. cbn [elementMap]. apply cleanup_idempotent. }
  destruct (body pg) as [b |] eqn:B.
  2: { subst m1 c1 t1. unfold pass in *. rewrite B in *.
       cbn [elementMap refCounter result] in *. now rewrite Hclean. }
  pose proof (pass_pushed pg filter m c b B) as F1. fold t1 in F1.
  pose proof (pass_pushed pg filter m1 c1 b B) as F2.
  set (t0 := {| elementMap := m1; refCounter := c1; result := [] |}).
  assert (Hset : elementMap (processElement pg filter b 0 t0) = m1 /\
                 refCounter (processElement pg filter b 0 t0) = c1).
  { apply (processElement_settled pg filter b m1 c1 K1 S1);
      [reflexivity | reflexivity |].
    intros e kids k Hin.
    destruct (Forall2_in_l _ _ _ _ _ _ F1 Hin) as [em [Hem Hl]].
    unfold line_of in Hl. cbn [fst snd] in Hl.
    destruct (L1 em Hem) as [Hentry Hlive].
    rewrite Hl in Hentry, Hlive. cbn [em_ref em_uid line] in Hentry, Hlive.
    eexists. split; [exact Hentry | exact Hlive]. }
  destruct Hset as [Hm2 Hc2].
  assert (E2 : elementMap (pass pg filter m1 c1) = m1).
  { unfold pass. rewrite B. cbn [elementMap]. fold t0. now rewrite Hm2. }
  assert (C2 : refCounter (pass pg filter m1 c1) = c1).
  { unfold pass. rewrite B. cbn [refCounter]. fold t0. exact Hc2. }
  assert (R2 : result (pass pg filter m1 c1) = result t1).
  { apply (Forall2_same _ _ (line_of pg) (pushed pg filter b 0));
      [| exact F2 | exact F1].
    intros [[e kids] k] x y Hx Hy Lx Ly.
    unfold line_of in Lx, Ly. cbn [fst snd] in Lx, Ly.
    destruct (L2 x Hx) as [Ex _]. destruct (L1 y Hy) as [Ey _].
    rewrite E2 in Ex. fold m1 in Ey.
    assert (Ux : em_uid x = uid e) by (rewrite Lx; reflexivity).
    assert (Uy : em_uid y = uid e) by (rewrite Ly; reflexivity).
    rewrite Ux in Ex. rewrite Uy in Ey.
    rewrite Lx, Ly. f_equal. exact (S1 _ _ _ Ex Ey). }
  apply traversal_eq; [exact E2 | exact C2 | exact R2].
Qed.

Section Calls.
Context {host : ValueSetter.Host}.

(** X14, from the snapshot to the locator.  At any point of a page
    session once the map is installed, on a page whose attached elements are
    alive: every line of a snapshot shows its reference between brackets,
    and right after the snapshot that reference is bound to the element of
    the line, the lookup of both other scripts finds that element on the
    same page, and the locator succeeds on it. *)
Theorem snapshot_references_resolve (pg : Page) (filter : option string)
  (w : Window) (m : ElementMap) (em : Emitted) :
  session w -> claudeElementMap w = Some m -> attached_alive pg ->
  In em (result (pass pg filter m (claudeRefCounter w))) ->
  let w' := fst (generateAccessibilityTree pg filter w) in
  Js.includes (em_yaml em) ("[ref=" ++ em_ref em ++ "]")%string = true /\
  binding w' (em_ref em) = Some (em_uid em) /\
  (exists e kids,
     resolve pg w' (em_ref em) = (w', Normal (Some (ElementNode e kids))) /\
     uid e = em_uid em) /\
  Locator.success (out_result (Locator.get_element pg w' (em_ref em))) = true.
Proof.
  intros Hs M Hpg Hin w'.
  destruct (session_ok w Hs) as [[K F] S].
  unfold entries in K, F, S. rewrite M in K, F, S.
  destruct (pass_consistent pg filter m (claudeRefCounter w) Hpg K S)
    as [_ [_ L]].
  destruct (pass_window pg filter m (claudeRefCounter w) K F) as [_ [F' _]].
  destruct (L em Hin) as [Hentry Hlive].
  destruct (pass_line_source pg filter m _ em Hin) as [b [e [kids [B [Hp Hl]]]]].
  destruct (pushed_sound pg filter b 0 e kids _ Hp) as [_ [He _]].
  assert (U : em_uid em = uid e) by (rewrite Hl; reflexivity).
  assert (Bd : binding w' (em_ref em) = Some (em_uid em)).
  { subst w'. rewrite (generate_installed pg filter w m M). unfold binding.
    cbn [fst claudeElementMap]. now apply own_of_entry. }
  assert (C : contains pg (em_uid em) = true).
  { rewrite U. now apply (body_contains pg b e kids). }
  destruct (resolve_live pg w' (em_ref em) (em_uid em) Bd Hlive C)
    as [e' [kids' [R U']]].
  split.
  { rewrite Hl. cbn [em_yaml em_ref line]. apply includes_ref. }
  split; [exact Bd |]. split; [now exists e', kids' |].
  unfold Locator.get_element, Locator.get_element_try. now rewrite R.
Qed.

(** X15, a snapshot taken twice.  At any point of a page session once the
    map is installed, on a page whose attached elements are alive: taking
    the same snapshot again, on the same page under the same filter, right
    after the first, returns the same text with the same references and
    leaves the two globals as the first left them. *)
Theorem snapshot_is_idempotent (pg : Page) (filter : option string)
  (w : Window) (m : ElementMap) :
  session w -> claudeElementMap w = Some m -> attached_alive pg ->
  let first := generateAccessibilityTree pg filter w in
  generateAccessibilityTree pg filter (fst first) = first.
Proof.
  intros Hs M Hpg first. subst first.
  destruct (session_ok w Hs) as [[K _] S].
  unfold entries in K, S. rewrite M in K, S.
  rewrite (generate_installed pg filter w m M). cbn [fst].
  set (t1 := pass pg filter m (claudeRefCounter w)).
  rewrite (generate_installed pg filter
             {| claudeElementMap := Some (elementMap t1);
                claudeRefCounter := refCounter t1 |} (elementMap t1) eq_refl).
  cbn [claudeRefCounter].
  pose proof (pass_again pg filter m (claudeRefCounter w) Hpg K S) as A.
  cbv zeta in A. fold t1 in A. now rewrite A.
Qed.

End Calls.

Lemma lines_of_accepted_elements_witness :
  let pg := Sample.nav_page in
  let button := Sample.element 4 "BUTTON" [] in
  let b :=
    ElementNode (Sample.element 2 "BODY" [])
      [ElementNode (Sample.element 3 "NAV" [])
         [ElementNode button [TextNode "Go"]]] in
  let em := line pg button [TextNode "Go"] 2 "ref_3" in
  body pg = Some b /\
  In em (result (pass pg None [] 0)) /\
  exists e kids,
    In (ElementNode e kids) (elements b) /\
    em = line pg e kids 2 "ref_3" /\
    perceivable pg None e = true.
Proof.
  intros pg button b em.
  assert (B : body pg = Some b) by reflexivity.
  assert (Hin : In em (result (pass pg None [] 0))).
  { right. right. left. reflexivity. }
  split; [exact B |]. split; [exact Hin |].
  destruct (lines_of_accepted_elements pg None [] 0 b em B Hin)
    as [e [kids [He [Hl [_ [[H0 _] | [_ [_ [Hp _]]]]]]]]].
  - discriminate H0.
  - exists e, kids. split; [exact He |]. split; [exact Hl | exact Hp].
Defined.

Lemma snapshot_references_resolve_witness :
  let pg := Sample.nav_page in
  let w := Sample.installed in
  let em := line pg (Sample.element 4 "BUTTON" []) [TextNode "Go"] 2 "ref_3" in
  let w' := fst (generateAccessibilityTree pg None w) in
  session (host := Sample.host) w /\ claudeElementMap w = Some [] /\
  attached_alive pg /\
  In em (result (pass pg None [] (claudeRefCounter w))) /\
  binding w' "ref_3" = Some 4 /\
  Locator.success (out_result (Locator.get_element pg w' "ref_3")) = true.
Proof.
  intros pg w em w'.
  assert (A : attached_alive pg) by apply sample_attached_alive.
  assert (Hs : session (host := Sample.host) w).
  { change w with (run (host := Sample.host) pg Install fresh).
    apply session_call; [apply session_fresh | exact A]. }
  assert (Hin : In em (result (pass pg None [] (claudeRefCounter w)))).
  { right. right. left. reflexivity. }
  destruct (snapshot_references_resolve (host := Sample.host) pg None w [] em
              Hs eq_refl A Hin) as [_ [T2 [_ T4]]].
  split; [exact Hs |]. split; [reflexivity |]. split; [exact A |].
  split; [exact Hin |]. split; [exact T2 | exact T4].
Defined.

Lemma snapshot_is_idempotent_witness :
  let pg := Sample.nav_page in
  let w := Sample.installed in
  session (host := Sample.host) w /\ claudeElementMap w = Some [] /\
  attached_alive pg /\
  generateAccessibilityTree pg None (Sample.after_snapshot pg) =
  generateAccessibilityTree pg None w.
Proof.
  intros pg w.
  assert (A : attached_alive pg) by apply sample_attached_alive.
  assert (Hs : session (host := Sample.host) w).
  { change w with (run (host := Sample.host) pg Install fresh).
    apply session_call; [apply session_fresh | exact A]. }
  split; [exact Hs |]. split; [reflexivity |]. split; [exact A |].
  exact (snapshot_is_idempotent (host := Sample.host) pg None w [] Hs eq_refl A).
Defined.

End LineFacts.

(** ** The post-filter *)

Module PostFilterFacts.
Import Dom Registry Snapshot Inv Notions.
Local Open Scope list_scope.

Lemma append_assoc (a b c : string) :
  ((a ++ b) ++ c = a ++ (b ++ c))%string.
Proof. induction a as [| x a IHa]; simpl; [reflexivity | now rewrite IHa]. Qed.

Lemma append_empty_r (a : string) : (a ++ EmptyString)%string = a.
Proof. induction a as [| x a IHa]; simpl; [reflexivity | now rewrite IHa]. Qed.

Lemma length_append (a b : string) :
  String.length (a ++ b) = String.length a + String.length b.
Proof. induction a as [| x a IHa]; simpl; [reflexivity | now rewrite IHa]. Qed.

Lemma append_cancel_r (a b s : string) :
  (a ++ s = b ++ s)%string -> a = b.
Proof.
  revert b. induction a as [| x a IHa]; intros [| y b] H; simpl in H.
  - reflexivity.
  - exfalso. apply (f_equal String.length) in H. simpl in H.
    rewrite length_append in H. lia.
  - exfalso. apply (f_equal String.length) in H. simpl in H.
    rewrite length_append in H. lia.
  - injection H as -> H. f_equal. now apply IHa.
Qed.

Lemma chars_app (a b : string) :
  list_ascii_of_string (a ++ b) =
  list_ascii_of_string a ++ list_ascii_of_string b.
Proof. induction a as [| x a IHa]; simpl; [reflexivity | now rewrite IHa]. Qed.

(** Two ways of cutting a string at the last occurrence of a character
    agree. *)
Lemma cut_at_last (c : ascii) (a a' b b' : string) :
  ~ In c (list_ascii_of_string b) -> ~ In c (list_ascii_of_string b') ->
  (a ++ String c b = a' ++ String c b')%string -> a = a' /\ b = b'.
Proof.
  intros Hb Hb'. revert a'.
  induction a as [| x a IHa]; intros [| y a'] H; simpl in H.
  - injection H as ->. now split.
  - injection H as <- H. exfalso. apply Hb. rewrite H, chars_app.
    apply in_or_app. right. now left.
  - injection H as -> H. exfalso. apply Hb'. rewrite <- H, chars_app.
    apply in_or_app. right. now left.
  - injection H as -> H. destruct (IHa a' H) as [-> ->]. now split.
Qed.

Lemma trimStart_indent (d : nat) (s : string) :
  Js.trimStart (Js.repeat "  " d ++ String "-" s) = String "-" s.
Proof.
  induction d as [| d IHd]; [reflexivity |].
  cbn [Js.repeat]. rewrite append_assoc. exact IHd.
Qed.

Lemma strip_prefix_sound (p s r : string) :
  Js.strip_prefix p s = Some r -> s = (p ++ r)%string.
Proof.
  revert s. induction p as [| a p IHp]; intros s H; simpl in H.
  - now injection H as ->.
  - destruct s as [| b s]; [discriminate |].
    destruct (Ascii.eqb a b) eqn:E; [| discriminate].
    apply Ascii.eqb_eq in E. subst b. simpl. f_equal. now apply IHp.
Qed.

Lemma strip_prefix_app (p s : string) :
  Js.strip_prefix p (p ++ s) = Some s.
Proof.
  induction p as [| a p IHp]; simpl; [reflexivity |].
  now rewrite Ascii.eqb_refl.
Qed.

Lemma strip_prefix_two (a b : ascii) (p s : string) :
  Js.strip_prefix (String a (String b p)) (String a (String b s)) =
  Js.strip_prefix p s.
Proof. simpl. now rewrite !Ascii.eqb_refl. Qed.

Lemma skip_digits_sound (s : string) :
  Js.skip_digits s = "]"%string ->
  exists ds, s = (ds ++ "]")%string /\
             Forall (fun c => Js.is_digit c = true) (list_ascii_of_string ds).
Proof.
  induction s as [| c s IHs]; simpl; [discriminate |].
  destruct (Js.is_digit c) eqn:D.
  - intros H. destruct (IHs H) as [ds [-> F]].
    exists (String c ds). split; [reflexivity |]. simpl. now constructor.
  - intros H. exists EmptyString. split; [exact H | constructor].
Qed.

Lemma skip_digits_app (ds : string) :
  Forall (fun c => Js.is_digit c = true) (list_ascii_of_string ds) ->
  Js.skip_digits (ds ++ "]") = "]"%string.
Proof.
  induction ds as [| c ds IHds]; simpl; intros F; [reflexivity |].
  inversion F as [| ? ? Hc Hds]; subst. rewrite Hc. now apply IHds.
Qed.

Lemma uint_digits (d : Decimal.uint) :
  Forall (fun c => Js.is_digit c = true)
    (list_ascii_of_string (NilEmpty.string_of_uint d)).
Proof.
  induction d; simpl; constructor; (reflexivity || assumption).
Qed.

(** The decimal numeral of a number: a digit followed by digits. *)
Lemma string_of_nat_digits (n : nat) :
  exists c ds,
    Js.string_of_nat n = String c ds /\
    Forall (fun c => Js.is_digit c = true) (list_ascii_of_string (String c ds)).
Proof.
  unfold Js.string_of_nat.
  pose proof (uint_digits (Nat.to_uint n)) as F.
  destruct (Nat.to_uint n) as [| | | | | | | | | |] eqn:E;
    try (simpl in *; eexists; eexists; split; [reflexivity | exact F]).
  exfalso. pose proof (DecimalNat.Unsigned.of_to n) as O. rewrite E in O.
  simpl in O. subst n. discriminate E.
Qed.

Lemma annotation_quoted (label v : string) :
  Js.truthy v = true ->
  In Js.dquote (list_ascii_of_string (annotation label v)).
Proof.
  intros T. unfold annotation. rewrite T.
  rewrite !chars_app. apply in_or_app. right. apply in_or_app. right.
  apply in_or_app. right. apply in_or_app. left. now left.
Qed.

Lemma falsy_empty (s : string) : Js.truthy s = false -> s = EmptyString.
Proof. now destruct s. Qed.

(** X16, what the post-filter drops.  The line of an element under a
    reference the counter has produced is dropped by the post-filter exactly
    when the role is "generic", the name is empty, and the element has no
    id, and no [href], [type] or [placeholder] attribute that is not empty;
    the depth plays no part. *)
Theorem post_filter_drops_exactly (e : Element) (d : nat) (role name : string)
  (n : nat) :
  Js.bare_generic (yaml_line e d role name (ref_name n)) = true <->
  role = "generic"%string /\ name = EmptyString /\ id e = EmptyString /\
  Js.or_empty (attr e "href") = EmptyString /\
  Js.or_empty (attr e "type") = EmptyString /\
  Js.or_empty (attr e "placeholder") = EmptyString.
Proof.
  destruct (string_of_nat_digits n) as [c [ds [Hn Fn]]].
  unfold Js.bare_generic, yaml_line, ref_name. rewrite Hn.
  change (Js.repeat "  " d ++ "- " ++ ?x)%string
    with (Js.repeat "  " d ++ String "-" (String " " x))%string.
  rewrite trimStart_indent.
  rewrite (strip_prefix_two "-" " " "generic [ref=ref_").
  split.
  - set (tail :=
           (annotation "id" (id e) ++
            annotation "href" (Js.or_empty (attr e "href")) ++
            annotation "type" (Js.or_empty (attr e "type")) ++
            annotation "placeholder" (Js.or_empty (attr e "placeholder")))%string).
    set (shown :=
           if Js.truthy name
           then (" " ++ Js.dq ++
                 Js.escape_quotes (Js.take 100 (Js.collapse_whitespace name)) ++
                 Js.dq)%string
           else EmptyString).
    destruct (Js.strip_prefix "generic [ref=ref_"
                (role ++ shown ++ " [ref=" ++ ("ref_" ++ String c ds) ++ "]" ++ tail))
      as [[| c' rest] |] eqn:P; try discriminate.
    intros H. apply andb_prop in H. destruct H as [Dc' H].
    apply String.eqb_eq in H.
    destruct (skip_digits_sound rest H) as [ds' [-> Fds']].
    apply strip_prefix_sound in P.
    (* no double quote on the right-hand side *)
    assert (Hq : ~ In Js.dquote
                   (list_ascii_of_string
                      (role ++ shown ++ " [ref=" ++ ("ref_" ++ String c ds) ++
                       "]" ++ tail))).
    { rewrite P. rewrite chars_app. intros Hin. apply in_app_or in Hin.
      destruct Hin as [Hin | Hin].
      - simpl in Hin. unfold Js.dquote in Hin.
        repeat (destruct Hin as [Hin | Hin]; [discriminate Hin |]). exact Hin.
      - simpl in Hin. destruct Hin as [Hin | Hin].
        + rewrite Hin in Dc'. discriminate Dc'.
        + rewrite chars_app in Hin. apply in_app_or in Hin.
          destruct Hin as [Hin | Hin].
          * rewrite Forall_forall in Fds'. apply Fds' in Hin. discriminate Hin.
          * simpl in Hin. unfold Js.dquote in Hin.
            destruct Hin as [Hin | []]. discriminate Hin. }
    assert (Hname : Js.truthy name = false).
    { destruct (Js.truthy name) eqn:T; [| reflexivity].
      exfalso. apply Hq. subst shown. rewrite chars_app. apply in_or_app. right.
      rewrite chars_app. apply in_or_app. left. simpl. right. now left. }
    assert (Htail : forall l v pre post,
               tail = (pre ++ annotation l v ++ post)%string ->
               Js.truthy v = false).
    { intros l v pre post Ht. destruct (Js.truthy v) eqn:T; [| reflexivity].
      exfalso. apply Hq. rewrite !chars_app.
      do 5 (apply in_or_app; right).
      rewrite Ht, !chars_app. apply in_or_app. right. apply in_or_app. left.
      now apply annotation_quoted. }
    assert (Hid : Js.truthy (id e) = false).
    { apply (Htail "id" (id e) EmptyString
               (annotation "href" (Js.or_empty (attr e "href")) ++
                annotation "type" (Js.or_empty (attr e "type")) ++
                annotation "placeholder" (Js.or_empty (attr e "placeholder")))%string).
      reflexivity. }
    assert (Hhref : Js.truthy (Js.or_empty (attr e "href")) = false).
    { apply (Htail "href" _ (annotation "id" (id e))
               (annotation "type" (Js.or_empty (attr e "type")) ++
                annotation "placeholder" (Js.or_empty (attr e "placeholder")))%string).
      reflexivity. }
    assert (Htype : Js.truthy (Js.or_empty (attr e "type")) = false).
    { apply (Htail "type" _
               (annotation "id" (id e) ++
                annotation "href" (Js.or_empty (attr e "href")))%string
               (annotation "placeholder" (Js.or_empty (attr e "placeholder")))).
      subst tail. now rewrite !append_assoc. }
    assert (Hph : Js.truthy (Js.or_empty (attr e "placeholder")) = false).
    { apply (Htail "placeholder" _
               (annotation "id" (id e) ++
                annotation "href" (Js.or_empty (attr e "href")) ++
                annotation "type" (Js.or_empty (attr e "type")))%string
               EmptyString).
      subst tail. now rewrite !append_assoc, append_empty_r. }
    split; [| repeat split; now apply falsy_empty].
    (* the role *)
    subst shown tail. rewrite Hname in P. unfold annotation in P.
    rewrite Hid, Hhref, Htype, Hph in P. cbn [String.append] in P.
    match type of P with
    | ?lhs = ?rhs =>
        assert (L : lhs =
                    ((role ++ " [ref=ref") ++ String "_" (String c ds ++ "]"))%string)
          by (rewrite append_assoc; reflexivity);
        assert (R : rhs =
                    ("generic [ref=ref" ++ String "_" (String c' ds' ++ "]"))%string)
          by reflexivity;
        rewrite L, R in P; clear L R
    end.
    assert (Hund : forall x xs,
               Js.is_digit x = true ->
               Forall (fun c => Js.is_digit c = true) (list_ascii_of_string xs) ->
               ~ In "_"%char (list_ascii_of_string (String x xs ++ "]"))).
    { intros x xs Dx Fx Hin. simpl in Hin. destruct Hin as [Hin | Hin].
      - rewrite Hin in Dx. discriminate Dx.
      - rewrite chars_app in Hin. apply in_app_or in Hin.
        destruct Hin as [Hin | [Hin | []]]; [| discriminate Hin].
        rewrite Forall_forall in Fx. apply Fx in Hin. discriminate Hin. }
    apply cut_at_last in P.
    + destruct P as [P _]. now apply (append_cancel_r role "generic" " [ref=ref").
    + simpl in Fn. inversion Fn; subst. now apply Hund.
    + now apply Hund.
  - intros [-> [-> [Hid [Hhref [Htype Hph]]]]].
    rewrite Hid, Hhref, Htype, Hph. cbn.
    simpl in Fn. inversion Fn as [| ? ? Dc Fds]; subst.
    rewrite Dc. cbn [andb]. apply String.eqb_eq.
    now apply skip_digits_app.
Qed.

End PostFilterFacts.

(** ** The text extractor *)

Module TextExtractorFacts.
Import Dom Registry TextExtractor.
Local Open Scope list_scope.

Lemma single_spaced_weaken (s : string) :
  single_spaced true s = true -> single_spaced false s = true.
Proof.
  destruct s as [| c r]; simpl; [reflexivity |].
  destruct (Js.is_space c); [| tauto].
  rewrite andb_false_r. discriminate.
Qed.

(** The first replacement leaves single spaces as the only white space. *)
Lemma collapse_single_spaced (s : string) :
  forall b, single_spaced b (Js.collapse_from b s) = true.
Proof.
  induction s as [| c r IH]; intros b; simpl; [reflexivity |].
  destruct (Js.is_space c) eqn:Sc.
  - destruct b; [apply IH |]. simpl. apply IH.
  - simpl. rewrite Sc. apply IH.
Qed.

(** On such a string the first replacement changes nothing. *)
Lemma collapse_fixed (s : string) :
  forall b, single_spaced b s = true -> Js.collapse_from b s = s.
Proof.
  induction s as [| c r IH]; intros b; simpl; [reflexivity |].
  destruct (Js.is_space c) eqn:Sc.
  - intros H. apply andb_prop in H. destruct H as [H Hr].
    apply andb_prop in H. destruct H as [Hc Hb].
    apply Ascii.eqb_eq in Hc. subst c.
    destruct b; [discriminate |]. now rewrite (IH true Hr).
  - intros H. now rewrite (IH false H).
Qed.

Lemma single_spaced_chars (s : string) :
  forall b c,
    single_spaced b s = true -> In c (list_ascii_of_string s) ->
    Js.is_space c = true -> c = " "%char.
Proof.
  induction s as [| x r IH]; intros b c H Hin Hc; simpl in *; [destruct Hin |].
  destruct (Js.is_space x) eqn:Sx.
  - apply andb_prop in H. destruct H as [H Hr].
    apply andb_prop in H. destruct H as [Hx _]. apply Ascii.eqb_eq in Hx.
    destruct Hin as [<- | Hin]; [exact Hx | now apply (IH true)].
  - destruct Hin as [<- | Hin]; [congruence | now apply (IH false)].
Qed.

Lemma single_spaced_no_newline (s : string) (b : bool) :
  single_spaced b s = true -> ~ In newline (list_ascii_of_string s).
Proof.
  intros H Hin.
  assert (E : newline = " "%char)
    by (apply (single_spaced_chars s b); [exact H | exact Hin | reflexivity]).
  discriminate E.
Qed.

Lemma single_spaced_no_run (s : string) :
  forall b, single_spaced b s = true -> Js.includes s "  " = false.
Proof.
  induction s as [| c r IH]; intros b H; [reflexivity |].
  cbn [Js.includes]. simpl in H.
  assert (Hr : exists b', single_spaced b' r = true).
  { destruct (Js.is_space c).
    - apply andb_prop in H. destruct H as [_ H]. now exists true.
    - now exists false. }
  destruct Hr as [b' Hr]. rewrite (IH b' Hr), orb_false_r.
  cbn [String.prefix].
  destruct (Ascii.ascii_dec " " c) as [<- |]; [| reflexivity].
  destruct r as [| c' r']; [reflexivity |].
  cbn [String.prefix].
  destruct (Ascii.ascii_dec " " c') as [<- |]; [| reflexivity].
  exfalso. revert H. clear.
  change (Js.is_space " ") with true. cbn [single_spaced].
  change (Js.is_space " ") with true. cbn [negb andb].
  rewrite !andb_false_r. destruct (negb b); discriminate.
Qed.

(** The second replacement changes nothing in a string without line feed. *)
Lemma squeeze_fixed (s : string) :
  ~ In newline (list_ascii_of_string s) -> squeeze_from 0 s = s.
Proof.
  induction s as [| c r IH]; intros H; simpl; [reflexivity |].
  destruct (Ascii.eqb c newline) eqn:E.
  - apply Ascii.eqb_eq in E. subst c. exfalso. apply H. now left.
  - simpl. rewrite IH; [reflexivity |]. intros Hin. apply H. now right.
Qed.

Lemma trimStart_single_spaced (s : string) :
  forall b, single_spaced b s = true -> single_spaced false (Js.trimStart s) = true.
Proof.
  induction s as [| c r IH]; intros b H; [reflexivity |].
  simpl in H. cbn [Js.trimStart].
  destruct (Js.is_space c) eqn:Sc.
  - apply andb_prop in H. destruct H as [_ H]. now apply (IH true).
  - simpl. now rewrite Sc.
Qed.

Lemma trimEnd_single_spaced (s : string) :
  forall b, single_spaced b s = true -> single_spaced b (Js.trimEnd s) = true.
Proof.
  induction s as [| c r IH]; intros b H; [reflexivity |].
  simpl in H. cbn [Js.trimEnd].
  destruct (Js.trimEnd r) as [| c' r'] eqn:T.
  - destruct (Js.is_space c) eqn:Sc; [reflexivity |]. simpl. now rewrite Sc.
  - simpl. destruct (Js.is_space c) eqn:Sc.
    + apply andb_prop in H. destruct H as [H Hr]. rewrite H.
      apply (IH true Hr).
    + apply (IH false H).
Qed.

Lemma trimEnd_idempotent (s : string) :
  Js.trimEnd (Js.trimEnd s) = Js.trimEnd s.
Proof.
  induction s as [| c r IH]; [reflexivity |].
  cbn [Js.trimEnd].
  destruct (Js.trimEnd r) as [| c' r'] eqn:T.
  - destruct (Js.is_space c) eqn:Sc; [reflexivity |]. simpl. now rewrite Sc.
  - cbn [Js.trimEnd]. cbn [Js.trimEnd] in IH. now rewrite IH.
Qed.

(** The string does not start with white space. *)
Lemma trimStart_head (s : string) :
  Js.trimStart (Js.trimStart s) = Js.trimStart s.
Proof.
  induction s as [| c r IH]; [reflexivity |].
  cbn [Js.trimStart]. destruct (Js.is_space c) eqn:Sc; [exact IH |].
  cbn [Js.trimStart]. now rewrite Sc.
Qed.

Lemma trimStart_trimEnd (s : string) :
  Js.trimStart s = s -> Js.trimStart (Js.trimEnd s) = Js.trimEnd s.
Proof.
  destruct s as [| c r]; [reflexivity |].
  cbn [Js.trimStart Js.trimEnd]. destruct (Js.is_space c) eqn:Sc.
  - intros H. exfalso.
    assert (L : forall x, String.length (Js.trimStart x) <= String.length x).
    { induction x as [| a x IHx]; simpl; [lia |].
      destruct (Js.is_space a); simpl; lia. }
    pose proof (L r) as Hl. rewrite H in Hl. simpl in Hl. lia.
  - intros _. destruct (Js.trimEnd r); cbn [Js.trimStart]; now rewrite Sc.
Qed.

Lemma trim_idempotent (s : string) : Js.trim (Js.trim s) = Js.trim s.
Proof.
  unfold Js.trim.
  rewrite (trimStart_trimEnd (Js.trimStart s) (trimStart_head s)).
  apply trimEnd_idempotent.
Qed.

Lemma clean_collapse (s : string) :
  clean s = Js.trim (Js.collapse_whitespace s).
Proof.
  unfold clean, squeeze_newlines. rewrite squeeze_fixed; [reflexivity |].
  apply (single_spaced_no_newline _ false), collapse_single_spaced.
Qed.

Lemma clean_single_spaced (s : string) : single_spaced false (clean s) = true.
Proof.
  rewrite clean_collapse. unfold Js.trim.
  apply trimEnd_single_spaced, (trimStart_single_spaced _ false).
  apply collapse_single_spaced.
Qed.

(** X17, the cleaned text.  Whatever the text of the element: the second
    replacement of the cleaning, the one meant for runs of three line feeds
    or more, never changes anything, the first having left no line feed; the
    text returned holds no white space but single spaces, none of them at
    either end; and cleaning it again gives it back. *)
Theorem cleaned_text_normal (s : string) :
  squeeze_newlines (Js.collapse_whitespace s) = Js.collapse_whitespace s /\
  (forall c, In c (list_ascii_of_string (clean s)) ->
     Js.is_space c = true -> c = " "%char) /\
  Js.includes (clean s) "  " = false /\
  Js.trim (clean s) = clean s /\
  clean (clean s) = clean s.
Proof.
  pose proof (clean_single_spaced s) as S.
  split.
  { unfold squeeze_newlines. apply squeeze_fixed.
    apply (single_spaced_no_newline _ false), collapse_single_spaced. }
  split; [intros c; now apply (single_spaced_chars (clean s) false) |].
  split; [now apply (single_spaced_no_run (clean s) false) |].
  assert (T : Js.trim (clean s) = clean s).
  { rewrite clean_collapse. apply trim_idempotent. }
  split; [exact T |].
  rewrite (clean_collapse (clean s)). unfold Js.collapse_whitespace.
  now rewrite (collapse_fixed (clean s) false S).
Qed.

Lemma consider_first (first : Node) :
  consider (first, 0) first = (first, text_length first).
Proof.
  unfold consider. cbn [snd].
  destruct (0 <? text_length first) eqn:E; [reflexivity |].
  apply Nat.ltb_ge in E. f_equal. lia.
Qed.

Lemma fold_consider (rest : list Node) :
  forall done b,
    first_longest b done ->
    first_longest (fst (fold_left consider rest (b, text_length b)))
      (done ++ rest).
Proof.
  induction rest as [| el rest IH]; intros done b F; simpl.
  - now rewrite app_nil_r.
  - replace (done ++ el :: rest) with ((done ++ [el]) ++ rest)
      by (now rewrite <- app_assoc).
    destruct F as [before [after [E [Hb Ha]]]].
    unfold consider at 2. cbn [snd].
    destruct (text_length b <? text_length el) eqn:L.
    + apply Nat.ltb_lt in L. apply IH.
      exists done, []. split; [reflexivity |]. split; [| intros x []].
      intros x Hx. rewrite E in Hx. apply in_app_or in Hx.
      destruct Hx as [Hx | [<- | Hx]];
        [specialize (Hb x Hx) | | specialize (Ha x Hx)]; lia.
    + apply Nat.ltb_ge in L. apply IH.
      exists before, (after ++ [el]). split.
      * rewrite E, <- app_assoc. reflexivity.
      * split; [exact Hb |]. intros x Hx. apply in_app_or in Hx.
        destruct Hx as [Hx | [<- | []]]; [now apply Ha | exact L].
Qed.

(** The [forEach] keeps the first of the elements of greatest text
    length. *)
Lemma best_first_longest (first : Node) (rest : list Node) :
  first_longest (best first (first :: rest)) (first :: rest).
Proof.
  unfold best. cbn [fold_left]. rewrite consider_first.
  apply (fold_consider rest [first] first).
  exists [], []. split; [reflexivity |]. split; intros x [].
Qed.

Lemma first_longest_in (c : Node) (l : list Node) :
  first_longest c l -> In c l.
Proof.
  intros [before [after [-> _]]]. apply in_or_app. right. now left.
Qed.

Lemma content_element_none (pg : Page) (sels : list Selector) :
  content_element pg sels = None <->
  forall sel, In sel sels -> querySelectorAll sel pg = [].
Proof.
  induction sels as [| sel sels IH]; cbn [content_element].
  - split; [intros _ s [] | reflexivity].
  - destruct (querySelectorAll sel pg) as [| first rest] eqn:Q.
    + rewrite IH. split.
      * intros H s [<- | Hs]; [exact Q | now apply H].
      * intros H s Hs. apply H. now right.
    + split; [discriminate |]. intros H.
      specialize (H sel (or_introl eq_refl)). congruence.
Qed.

(** The loop stops at the first selector that matches something. *)
Lemma content_element_first (pg : Page) (before after : list Selector)
  (sel : Selector) (first : Node) (rest : list Node) :
  (forall s, In s before -> querySelectorAll s pg = []) ->
  querySelectorAll sel pg = first :: rest ->
  content_element pg (before ++ sel :: after) =
  Some (best first (first :: rest)).
Proof.
  intros Hb Q. induction before as [| s before IH]; cbn [app content_element].
  - now rewrite Q.
  - rewrite (Hb s (or_introl eq_refl)). apply IH.
    intros s' Hs'. apply Hb. now right.
Qed.

Lemma query_element (sel : Selector) (pg : Page) (n : Node) :
  In n (querySelectorAll sel pg) ->
  In n (document_elements pg) /\
  exists e kids, n = ElementNode e kids /\ matches sel e = true.
Proof.
  unfold querySelectorAll. intros H. apply filter_In in H.
  destruct H as [Hin Hm]. split; [exact Hin |].
  destruct n as [s | e kids]; [discriminate |]. now exists e, kids.
Qed.

Lemma content_element_some (pg : Page) (sels : list Selector) (n : Node) :
  content_element pg sels = Some n ->
  exists e kids, n = ElementNode e kids.
Proof.
  induction sels as [| sel sels IH]; cbn [content_element]; [discriminate |].
  destruct (querySelectorAll sel pg) as [| first rest] eqn:Q; [exact IH |].
  intros H. injection H as <-.
  pose proof (first_longest_in _ _ (best_first_longest first rest)) as Hin.
  assert (Hq : In (best first (first :: rest)) (querySelectorAll sel pg))
    by (rewrite Q; exact Hin).
  apply query_element in Hq.
  destruct Hq as [_ [e [kids [E _]]]]. now exists e, kids.
Qed.

(** X18, which element is read.  When some selector of the list matches,
    the first one that does decides, whatever the later ones and the body
    hold: among the elements it matches, in document order, the script
    reads the first of those whose text is longest, and returns its cleaned
    text and its tag name in lower case, with the title and the address
    untouched. *)
Theorem first_matching_selector_decides (pg : Page)
  (before after : list Selector) (sel : Selector) (documentTitle href : string) :
  selectors = before ++ sel :: after ->
  (forall s, In s before -> querySelectorAll s pg = []) ->
  querySelectorAll sel pg <> [] ->
  exists e kids,
    first_longest (ElementNode e kids) (querySelectorAll sel pg) /\
    matches sel e = true /\
    In (ElementNode e kids) (document_elements pg) /\
    extract pg documentTitle href =
      Normal {| text := clean (textContent (ElementNode e kids));
                source := tag e;
                title := documentTitle;
                url := href |}.
Proof.
  intros Hsel Hb Hq.
  destruct (querySelectorAll sel pg) as [| first rest] eqn:Q; [congruence |].
  pose proof (best_first_longest first rest) as F.
  assert (Hin : In (best first (first :: rest)) (querySelectorAll sel pg))
    by (rewrite Q; exact (first_longest_in _ _ F)).
  apply query_element in Hin.
  destruct Hin as [Hdoc [e [kids [E M]]]].
  exists e, kids. rewrite <- E.
  split; [exact F |]. split; [exact M |]. split; [exact Hdoc |].
  unfold extract. rewrite Hsel.
  rewrite (content_element_first pg before after sel first rest Hb Q).
  rewrite E. reflexivity.
Qed.

(** X19, the fallback and the failure.  The script reads the body exactly
    when no selector of the list matches anything; it then returns the
    cleaned text of the body.  It throws exactly when, on top of that, the
    document has no body, and what it throws is the wrapped message of the
    TypeError. *)
Theorem body_is_the_fallback (pg : Page) (documentTitle href : string) :
  let unmatched := forall sel, In sel selectors -> querySelectorAll sel pg = [] in
  (forall b, unmatched -> body pg = Some b ->
     exists e kids,
       b = ElementNode e kids /\
       (tag e = "body"%string \/ tag e = "frameset"%string) /\
       extract pg documentTitle href =
         Normal {| text := clean (textContent b); source := tag e;
                   title := documentTitle; url := href |}) /\
  ((exists message, extract pg documentTitle href = Throw message) <->
   unmatched /\ body pg = None) /\
  (forall message, extract pg documentTitle href = Throw message ->
     message =
       ("Error extracting page text: " ++
        "Cannot read properties of null (reading 'textContent')")%string).
Proof.
  intros unmatched. subst unmatched. unfold extract.
  destruct (content_element pg selectors) as [n |] eqn:C.
  - destruct (content_element_some pg selectors n C) as [e [kids ->]].
    split.
    { intros b U. apply content_element_none in U. congruence. }
    split.
    { split; [intros [msg H]; discriminate H |].
      intros [U _]. apply content_element_none in U. congruence. }
    intros msg H. discriminate H.
  - pose proof (proj1 (content_element_none pg selectors) C) as U.
    split.
    { intros b _ B. rewrite B.
      assert (Hb : is_body b = true).
      { unfold body in B.
        destruct (documentElement pg) as [[s | r rkids] |]; try discriminate.
        apply find_some in B. tauto. }
      destruct b as [s | e kids]; [discriminate Hb |].
      exists e, kids. split; [reflexivity |]. split; [| reflexivity].
      simpl in Hb. apply orb_prop in Hb.
      destruct Hb as [Hb | Hb]; apply String.eqb_eq in Hb; tauto. }
    split.
    { split.
      - intros [msg H]. split; [exact U |].
        destruct (body pg) as [[s | e kids] |] eqn:B; try reflexivity.
        + exfalso. unfold body in B.
          destruct (documentElement pg) as [[s' | r rkids] |]; try discriminate.
          apply find_some in B. destruct B as [_ B]. discriminate B.
        + discriminate H.
      - intros [_ B]. rewrite B. eexists. reflexivity. }
    intros msg H.
    destruct (body pg) as [[s | e kids] |]; try discriminate H;
      injection H as <-; reflexivity.
Qed.

Lemma first_matching_selector_decides_witness :
  let pg := Notions.article_page in
  selectors = [] ++ TypeSelector "article" :: tl selectors /\
  (forall s, In s [] -> querySelectorAll s pg = []) /\
  querySelectorAll (TypeSelector "article") pg <> [] /\
  exists e kids,
    first_longest (ElementNode e kids)
      (querySelectorAll (TypeSelector "article") pg) /\
    extract pg "News" "https://example.org/" =
      Normal {| text := clean (textContent (ElementNode e kids));
                source := tag e;
                title := "News";
                url := "https://example.org/" |}.
Proof.
  intros pg.
  assert (H1 : selectors = [] ++ TypeSelector "article" :: tl selectors)
    by reflexivity.
  assert (H2 : forall s, In s [] -> querySelectorAll s pg = [])
    by (intros s []).
  assert (H3 : querySelectorAll (TypeSelector "article") pg <> [])
    by discriminate.
  split; [exact H1 |]. split; [exact H2 |]. split; [exact H3 |].
  destruct (first_matching_selector_decides pg [] (tl selectors)
              (TypeSelector "article") "News" "https://example.org/" H1 H2 H3)
    as [e [kids [F [_ [_ E]]]]].
  exists e, kids. split; [exact F | exact E].
Defined.

End TextExtractorFacts.

(** ** The shape of a snapshot *)

Module ShapeFacts.
Import Dom Registry Snapshot Inv Notions TreeFacts RegistryFacts SnapshotFacts
  LineFacts.
Local Open Scope list_scope.

Lemma climbs_app (d : nat) (l1 l2 : list nat) :
  forall p,
    climbs p l1 -> Forall (fun k => d <= k) l1 -> d <= p -> climbs d l2 ->
    climbs p (l1 ++ d :: l2).
Proof.
  induction l1 as [| k l1 IH]; intros p C F Hp C2; simpl.
  - split; [lia | exact C2].
  - destruct C as [Hk C]. inversion F as [| ? ? Hd F']; subst.
    split; [exact Hk |]. now apply IH.
Qed.

Lemma stepped_app (d : nat) (l1 l2 : list nat) :
  stepped d l1 -> stepped d l2 -> stepped d (l1 ++ l2).
Proof.
  intros [F1 S1] [F2 S2]. split; [now apply Forall_app |].
  destruct l1 as [| k1 r1]; [exact S2 |].
  destruct S1 as [-> C1]. simpl. split; [reflexivity |].
  destruct l2 as [| k2 r2]; [now rewrite app_nil_r |].
  destruct S2 as [-> C2]. inversion F1; subst.
  apply climbs_app; [assumption | assumption | lia | assumption].
Qed.

Lemma stepped_flat_map (A : Type) (f : A -> list nat) (d : nat) (l : list A) :
  (forall x, In x l -> stepped d (f x)) -> stepped d (flat_map f l).
Proof.
  induction l as [| x l IH]; intros H; simpl.
  - split; [constructor | exact I].
  - apply stepped_app; [apply H; now left |]. apply IH.
    intros y Hy. apply H. now right.
Qed.

Lemma stepped_under (d : nat) (l : list nat) :
  stepped (d + 1) l -> stepped d (d :: l).
Proof.
  intros [F S]. split.
  - constructor; [lia |]. eapply Forall_impl; [| exact F].
    intros k Hk. simpl in Hk. lia.
  - split; [reflexivity |]. destruct l as [| k r]; [exact I |].
    destruct S as [-> C]. simpl. split; [lia | exact C].
Qed.

Lemma map_flat_map (A B C : Type) (g : B -> C) (f : A -> list B) (l : list A) :
  map g (flat_map f l) = flat_map (fun x => map g (f x)) l.
Proof.
  induction l as [| x l IH]; simpl; [reflexivity |].
  now rewrite map_app, IH.
Qed.

(** The depths at which a walk pushes lines. *)
Lemma pushed_stepped (pg : Page) (filter : option string) (n : Node) :
  forall d, stepped d (map snd (pushed pg filter n d)).
Proof.
  induction n as [s | e kids IH] using node_induction; intros d.
  - split; [constructor | exact I].
  - rewrite pushed_element.
    destruct (15 <? d); [split; [constructor | exact I] |].
    destruct (negb (Js.truthy (tagName e))); [split; [constructor | exact I] |].
    cbv zeta.
    set (inc := shouldIncludeElement pg filter (ElementNode e kids) || Nat.eqb d 0).
    assert (Hkids : forall d',
               stepped d'
                 (map snd
                    (if d <? 15
                     then flat_map (fun child => pushed pg filter child d') kids
                     else []))).
    { intros d'. destruct (d <? 15); [| split; [constructor | exact I]].
      rewrite map_flat_map. apply stepped_flat_map.
      intros child Hc. rewrite Forall_forall in IH. now apply IH. }
    destruct inc.
    + rewrite map_app. cbn [map snd app]. apply stepped_under, Hkids.
    + apply Hkids.
Qed.

Lemma climbs_pairs (l : list nat) :
  forall p l1 a b l2,
    climbs p l -> l = l1 ++ a :: b :: l2 -> b <= a + 1.
Proof.
  induction l as [| k l IH]; intros p l1 a b l2 C E.
  - destruct l1; discriminate E.
  - destruct C as [_ C]. destruct l1 as [| x l1]; simpl in E.
    + injection E as Ek El. subst k l. simpl in C. tauto.
    + injection E as Ek El. subst k. now apply (IH x l1 a b l2).
Qed.

Lemma Forall2_map_eq (A B C : Type) (R : A -> B -> Prop) (f : A -> C)
  (g : B -> C) (l : list A) (l' : list B) :
  (forall x y, R x y -> f x = g y) -> Forall2 R l l' -> map f l = map g l'.
Proof.
  intros H. induction 1 as [| x y l l' Hxy _ IH]; simpl; [reflexivity |].
  now rewrite (H x y Hxy), IH.
Qed.

Lemma pass_depths (pg : Page) (filter : option string) (m : ElementMap)
  (c : nat) (b : Node) :
  body pg = Some b ->
  map em_depth (result (pass pg filter m c)) = map snd (pushed pg filter b 0).
Proof.
  intros B. symmetry.
  apply (Forall2_map_eq _ _ _ (line_of pg)); [| now apply pass_pushed].
  intros [[e kids] k] em L. unfold line_of in L. cbn [fst snd] in L |- *.
  rewrite L. reflexivity.
Qed.

Lemma yaml_indent (e : Element) (d : nat) (role name ref : string) :
  String.prefix (Js.repeat "  " d ++ "- ") (yaml_line e d role name ref) = true.
Proof.
  unfold yaml_line. apply prefix_cancel.
  apply (prefix_cancel "- "), ResolveFacts.prefix_empty.
Qed.

(** X20, the indentation.  When the body exists, the lines of a pass start
    with the body's at depth 0; every other line is at a depth between 1 and
    15; from a line to the next the depth never grows by more than one; and
    each line starts with two spaces per level of its depth, then a dash. *)
Theorem indentation_steps (pg : Page) (filter : option string)
  (m : ElementMap) (c : nat) (b : Node) :
  body pg = Some b ->
  exists root rest,
    result (pass pg filter m c) = root :: rest /\
    em_depth root = 0 /\
    Forall (fun em => 1 <= em_depth em <= 15) rest /\
    (forall l1 x y l2,
       root :: rest = l1 ++ x :: y :: l2 -> em_depth y <= em_depth x + 1) /\
    (forall em, In em (root :: rest) ->
       String.prefix (Js.repeat "  " (em_depth em) ++ "- ") (em_yaml em) = true).
Proof.
  intros B.
  pose proof (pass_depths pg filter m c b B) as D.
  pose proof (pushed_stepped pg filter b 0) as [_ S].
  assert (Hsrc : forall em, In em (result (pass pg filter m c)) ->
            (em_depth em = 0 \/ 1 <= em_depth em <= 15) /\
            String.prefix (Js.repeat "  " (em_depth em) ++ "- ") (em_yaml em) = true).
  { intros em Hin.
    destruct (pass_line_source pg filter m c em Hin) as [b' [e [kids [_ [Hp L]]]]].
    destruct (pushed_sound pg filter b' 0 e kids _ Hp) as [Hk _].
    split; [lia |]. rewrite L. cbn [em_yaml em_depth line]. apply yaml_indent. }
  destruct (body_is_element pg b B) as [e [kids [-> T]]].
  assert (P : pushed pg filter (ElementNode e kids) 0 =
              (e, kids, 0) ::
              flat_map (fun child => pushed pg filter child 1) kids).
  { rewrite pushed_element, T. cbn [negb Nat.ltb Nat.leb].
    rewrite orb_true_r. reflexivity. }
  destruct (result (pass pg filter m c)) as [| root rest] eqn:R.
  { rewrite P in D. discriminate D. }
  exists root, rest. split; [reflexivity |].
  rewrite P in D, S. cbn [map snd] in D, S. injection D as D0 Drest.
  destruct S as [_ C].
  split; [exact D0 |]. split; [| split].
  - assert (F1 : Forall (fun k => 1 <= k)
                   (map snd (flat_map (fun child => pushed pg filter child 1) kids))).
    { rewrite map_flat_map.
      apply (stepped_flat_map _ _ 1). intros child _. apply pushed_stepped. }
    rewrite <- Drest in F1. rewrite Forall_map in F1.
    apply Forall_forall. intros em Hin.
    rewrite Forall_forall in F1. specialize (F1 em Hin).
    destruct (Hsrc em (or_intror Hin)) as [[H0 | H1] _]; lia.
  - intros l1 x y l2 E.
    apply (climbs_pairs (map em_depth (root :: rest)) 0 (map em_depth l1)
             (em_depth x) (em_depth y) (map em_depth l2)).
    + cbn [map climbs]. rewrite D0, Drest. split; [lia | exact C].
    + rewrite E, map_app. reflexivity.
  - intros em Hin. now apply Hsrc.
Qed.



Lemma textContent_scrolled (place : Element -> DOMRect) (n : Node) :
  textContent (scrolled place n) = textContent n.
Proof.
  induction n as [s | e kids IH] using node_induction; [reflexivity |].
  simpl. f_equal. rewrite map_map.
  induction IH as [| k kids Hk _ IHkids]; simpl; [reflexivity |].
  now rewrite Hk, IHkids.
Qed.

Lemma directText_scrolled (place : Element -> DOMRect) (kids : list Node) :
  directText (map (scrolled place) kids) = directText kids.
Proof.
  induction kids as [| [s | e k] kids IH]; simpl; [reflexivity | |];
    now rewrite IH.
Qed.

Lemma elements_scrolled (place : Element -> DOMRect) (n : Node) :
  elements (scrolled place n) = map (scrolled place) (elements n).
Proof.
  induction n as [s | e kids IH] using node_induction; simpl; [reflexivity |].
  f_equal. induction IH as [| k kids Hk _ IHkids]; simpl; [reflexivity |].
  now rewrite map_app, Hk, IHkids.
Qed.

Lemma find_map_same (A : Type) (h : A -> A) (p : A -> bool) (l : list A) :
  (forall x, p (h x) = p x) ->
  find p (map h l) = option_map h (find p l).
Proof.
  intros H. induction l as [| x l IH]; simpl; [reflexivity |].
  rewrite H. destruct (p x); [reflexivity | exact IH].
Qed.

Lemma label_for_scrolled (place : Element -> DOMRect) (w h : Z) (pg : Page)
  (i : string) :
  label_for (scrolled_page place w h pg) i =
  option_map (scrolled place) (label_for pg i).
Proof.
  unfold label_for, document_elements, scrolled_page. cbn [documentElement].
  destruct (documentElement pg) as [root |]; [| reflexivity].
  cbn [option_map]. rewrite elements_scrolled. apply find_map_same.
  now intros [s | e kids].
Qed.

Lemma body_scrolled (place : Element -> DOMRect) (w h : Z) (pg : Page) :
  body (scrolled_page place w h pg) = option_map (scrolled place) (body pg).
Proof.
  unfold body, scrolled_page. cbn [documentElement].
  destruct (documentElement pg) as [[s | e kids] |]; try reflexivity.
  cbn [option_map scrolled]. apply find_map_same. now intros [s | e' kids'].
Qed.

Lemma getCleanName_scrolled (place : Element -> DOMRect) (w h : Z) (pg : Page)
  (n : Node) :
  getCleanName (scrolled_page place w h pg) (scrolled place n) =
  getCleanName pg n.
Proof.
  destruct n as [s | e kids]; [reflexivity |].
  unfold getCleanName. cbn [scrolled].
  assert (L : name_of_label (scrolled_page place w h pg) (set_rect (place e) e) =
              name_of_label pg e).
  { unfold name_of_label. change (id (set_rect (place e) e)) with (id e).
    destruct (Js.truthy (id e)); [| reflexivity].
    rewrite label_for_scrolled.
    destruct (label_for pg (id e)) as [l |]; [| reflexivity].
    cbn [option_map]. now rewrite textContent_scrolled. }
  assert (C : name_of_clickable (set_rect (place e) e)
                (map (scrolled place) kids) = name_of_clickable e kids).
  { unfold name_of_clickable. change (tag (set_rect (place e) e)) with (tag e).
    now rewrite directText_scrolled. }
  assert (H : name_of_heading
                (ElementNode (set_rect (place e) e) (map (scrolled place) kids))
                (set_rect (place e) e) =
              name_of_heading (ElementNode e kids) e).
  { unfold name_of_heading. change (tag (set_rect (place e) e)) with (tag e).
    change (ElementNode (set_rect (place e) e) (map (scrolled place) kids))
      with (scrolled place (ElementNode e kids)).
    now rewrite textContent_scrolled. }
  assert (T : name_of_text (map (scrolled place) kids) = name_of_text kids).
  { unfold name_of_text. now rewrite directText_scrolled. }
  rewrite L, C, H, T. reflexivity.
Qed.

Lemma shouldInclude_scrolled (place : Element -> DOMRect) (w h : Z) (pg : Page)
  (n : Node) :
  shouldIncludeElement (scrolled_page place w h pg) (Some "all")
    (scrolled place n) =
  shouldIncludeElement pg (Some "all") n.
Proof.
  destruct n as [s | e kids]; [reflexivity |].
  pose proof (getCleanName_scrolled place w h pg (ElementNode e kids)) as N.
  cbn [scrolled] in N. unfold shouldIncludeElement. cbn [scrolled].
  rewrite N. reflexivity.
Qed.

Lemma existing_ref_scrolled (place : Element -> DOMRect) (w h : Z) (pg : Page)
  (m : ElementMap) (u : nat) :
  existing_ref (scrolled_page place w h pg) m u = existing_ref pg m u.
Proof.
  induction m as [| [k r] m IH]; simpl; [reflexivity |].
  change (deref (scrolled_page place w h pg) r) with (deref pg r).
  now rewrite IH.
Qed.

Lemma include_scrolled (place : Element -> DOMRect) (w h : Z) (pg : Page)
  (e : Element) (kids : list Node) (d : nat) (t : Traversal) :
  include (scrolled_page place w h pg)
    (ElementNode (set_rect (place e) e) (map (scrolled place) kids))
    (set_rect (place e) e) d t =
  include pg (ElementNode e kids) e d t.
Proof.
  pose proof (getCleanName_scrolled place w h pg (ElementNode e kids)) as N.
  cbn [scrolled] in N. unfold include, allocate. rewrite N.
  cbn [uid set_rect]. rewrite existing_ref_scrolled. reflexivity.
Qed.

Lemma fold_left_map (A B C : Type) (g : A -> C -> A) (h : B -> C)
  (l : list B) (a : A) :
  fold_left g (map h l) a = fold_left (fun acc x => g acc (h x)) l a.
Proof.
  revert a. induction l as [| x l IH]; intros a; simpl; [reflexivity |].
  apply IH.
Qed.

Lemma fold_left_ext_in (A B : Type) (f g : A -> B -> A) (l : list B) :
  (forall a x, In x l -> f a x = g a x) ->
  forall a, fold_left f l a = fold_left g l a.
Proof.
  induction l as [| x l IH]; intros H a; simpl; [reflexivity |].
  rewrite H by now left. apply IH. intros a' y Hy. apply H. now right.
Qed.

(** Under the filter "all" the traversal does not look at the bounding
    boxes. *)
Lemma processElement_scrolled (place : Element -> DOMRect) (w h : Z)
  (pg : Page) (n : Node) :
  forall d t,
    processElement (scrolled_page place w h pg) (Some "all")
      (scrolled place n) d t =
    processElement pg (Some "all") n d t.
Proof.
  induction n as [s | e kids IH] using node_induction; intros d t;
    [reflexivity |].
  pose proof (shouldInclude_scrolled place w h pg (ElementNode e kids)) as S.
  cbn [scrolled] in S |- *. rewrite !processElement_element.
  change (tagName (set_rect (place e) e)) with (tagName e).
  destruct (15 <? d); [reflexivity |].
  destruct (negb (Js.truthy (tagName e))); [reflexivity |].
  cbv zeta. rewrite S, include_scrolled.
  destruct (d <? 15); [| reflexivity].
  rewrite fold_left_map. apply fold_left_ext_in.
  intros a x Hx. rewrite Forall_forall in IH. now apply IH.
Qed.

Lemma pass_scrolled (place : Element -> DOMRect) (w h : Z) (pg : Page)
  (m : ElementMap) (c : nat) :
  pass (scrolled_page place w h pg) (Some "all") m c = pass pg (Some "all") m c.
Proof.
  unfold pass. rewrite body_scrolled.
  change (cleanup (scrolled_page place w h pg)) with (cleanup pg).
  destruct (body pg) as [b |]; [| reflexivity].
  cbn [option_map]. now rewrite processElement_scrolled.
Qed.

(** X22, the filter "all" and scrolling.  Under the filter "all" a
    snapshot depends neither on the bounding boxes of the elements nor on
    [innerWidth] and [innerHeight]: on the same document with any other
    bounding boxes, as after scrolling, and any other viewport size, all
    else being equal, it returns the same text, fails in the same way when
    it fails, and leaves the same registry and counter; only the viewport it
    reports differs. *)
Theorem all_ignores_scrolling (place : Element -> DOMRect) (width height : Z)
  (pg : Page) (w : Window) :
  let here := generateAccessibilityTree pg (Some "all") w in
  let there :=
    generateAccessibilityTree (scrolled_page place width height pg)
      (Some "all") w in
  fst there = fst here /\
  match snd here, snd there with
  | Normal t, Normal t' =>
      pageContent t' = pageContent t /\ viewport t' = (width, height)
  | Throw message, Throw message' => message' = message
  | _, _ => False
  end.
Proof.
  intros here there. subst here there. unfold generateAccessibilityTree.
  destruct (claudeElementMap w) as [m |].
  - rewrite pass_scrolled. cbn [fst snd pageContent viewport].
    split; [reflexivity |]. split; reflexivity.
  - rewrite body_scrolled.
    destruct (body pg) as [[s | e kids] |]; cbn [option_map scrolled fst snd].
    + split; [reflexivity |]. split; reflexivity.
    + change (tagName (set_rect (place e) e)) with (tagName e).
      destruct (Js.truthy (tagName e)); cbn [fst snd].
      * split; reflexivity.
      * split; [reflexivity |]. split; reflexivity.
    + split; [reflexivity |]. split; reflexivity.
Qed.

Lemma indentation_steps_witness :
  let pg := Sample.nav_page in
  let b :=
    ElementNode (Sample.element 2 "BODY" [])
      [ElementNode (Sample.element 3 "NAV" [])
         [ElementNode (Sample.element 4 "BUTTON" []) [TextNode "Go"]]] in
  body pg = Some b /\
  exists root rest,
    result (pass pg None [] 0) = root :: rest /\
    em_depth root = 0 /\
    Forall (fun em => 1 <= em_depth em <= 15) rest /\
    map em_depth rest = [1; 2].
Proof.
  intros pg b.
  assert (B : body pg = Some b) by reflexivity.
  split; [exact B |].
  destruct (indentation_steps pg None [] 0 b B)
    as [root [rest [R [D0 [F _]]]]].
  exists root, rest. split; [exact R |]. split; [exact D0 |].
  split; [exact F |].
  assert (E : map em_depth (root :: rest) = [0; 1; 2])
    by (rewrite <- R; reflexivity).
  injection E as _ E. exact E.
Defined.


End ShapeFacts.

(** ** The name on a line *)

Module NameFacts.
Import Dom Registry Snapshot Notions TextExtractor TextExtractorFacts PostFilterFacts.
Local Open Scope list_scope.

Lemma substring_length (n : nat) (s : string) :
  String.length (String.substring 0 n s) <= n.
Proof.
  revert s. induction n as [| n IH]; intros [| c r]; simpl; try lia.
  specialize (IH r). lia.
Qed.

Lemma escape_length (s : string) :
  String.length (Js.escape_quotes s) <= 2 * String.length s.
Proof.
  induction s as [| c r IH]; simpl; [lia |].
  destruct (Ascii.eqb c Js.dquote); simpl; lia.
Qed.

Lemma single_spaced_take (n : nat) (s : string) :
  forall b, single_spaced b s = true ->
            single_spaced b (String.substring 0 n s) = true.
Proof.
  revert s. induction n as [| n IH]; intros [| c r] b H; try reflexivity.
  simpl in H |- *. destruct (Js.is_space c).
  - apply andb_prop in H. destruct H as [H Hr]. rewrite H. now apply IH.
  - now apply IH.
Qed.

Lemma escape_chars (s : string) (c : ascii) :
  In c (list_ascii_of_string (Js.escape_quotes s)) ->
  c = Js.backslash \/ In c (list_ascii_of_string s).
Proof.
  induction s as [| x r IH]; simpl; [tauto |].
  destruct (Ascii.eqb x Js.dquote) eqn:E; simpl.
  - apply Ascii.eqb_eq in E. subst x.
    intros [H | [H | H]]; [now left | right; now left |].
    destruct (IH H); [now left | right; now right].
  - intros [H | H]; [right; now left |].
    destruct (IH H); [now left | right; now right].
Qed.

(** In an escaped string every double quote follows a backslash. *)
Lemma escape_quoted (s : string) :
  forall l1 l2,
    list_ascii_of_string (Js.escape_quotes s) = l1 ++ Js.dquote :: l2 ->
    exists l0, l1 = l0 ++ [Js.backslash].
Proof.
  induction s as [| x r IH]; intros l1 l2; simpl.
  - intros H. destruct l1; discriminate H.
  - destruct (Ascii.eqb x Js.dquote) eqn:E; simpl; intros H.
    + destruct l1 as [| a [| b l1]]; simpl in H.
      * discriminate H.
      * injection H as <- _. now exists [].
      * injection H as <- <- H. destruct (IH l1 l2 H) as [l0 ->].
        now exists (Js.backslash :: Js.dquote :: l0).
    + destruct l1 as [| a l1]; simpl in H.
      * injection H as -> _. rewrite Ascii.eqb_refl in E. discriminate E.
      * injection H as <- H. destruct (IH l1 l2 H) as [l0 ->].
        now exists (x :: l0).
Qed.

(** X23, the name on a line.  Whatever the accessible name, what a line
    shows of it is at most 100 characters before the quotes are escaped and
    200 after; it holds no white space but single spaces, so a name never
    breaks a line; every double quote in it follows a backslash; and a name
    that is not empty is shown between double quotes in the line. *)
Theorem shown_name_one_line (name : string) :
  String.length (Js.take 100 (Js.collapse_whitespace name)) <= 100 /\
  String.length (shown_name name) <= 200 /\
  (forall c, In c (list_ascii_of_string (shown_name name)) ->
     Js.is_space c = true -> c = " "%char) /\
  (forall l1 l2,
     list_ascii_of_string (shown_name name) = l1 ++ Js.dquote :: l2 ->
     exists l0, l1 = l0 ++ [Js.backslash]) /\
  (forall e d role ref,
     Js.truthy name = true ->
     Js.includes (yaml_line e d role name ref)
       (Js.dq ++ shown_name name ++ Js.dq)%string = true).
Proof.
  pose proof (substring_length 100 (Js.collapse_whitespace name)) as L.
  split; [exact L |]. split.
  { unfold shown_name.
    pose proof (escape_length (Js.take 100 (Js.collapse_whitespace name))).
    unfold Js.take in *. lia. }
  split.
  { intros c Hin Hc. apply escape_chars in Hin.
    destruct Hin as [-> | Hin]; [discriminate Hc |].
    apply (single_spaced_chars
             (Js.take 100 (Js.collapse_whitespace name)) false);
      [| exact Hin | exact Hc].
    apply single_spaced_take, collapse_single_spaced. }
  split; [apply escape_quoted |].
  intros e d role ref T. unfold yaml_line. rewrite T.
  apply ResolveFacts.includes_app_r, ResolveFacts.includes_app_r,
    ResolveFacts.includes_app_r, ResolveFacts.includes_app_l.
  apply (ResolveFacts.includes_app_r " "), ResolveFacts.includes_prefix.
  fold (shown_name name). apply LineFacts.prefix_cancel.
  apply LineFacts.prefix_cancel. reflexivity.
Qed.

End NameFacts.
